(** * The RVM message bus (class RVMMessageBus)

    A shallow embedding of [RVMMessageBus]: the correlation table
    [messageIdToCallback], the transport's ['message'] handler, [publish],
    [registerLicenseInfo], [downloadRuntime] and [recordCallbackInfo] with
    its time-to-live timer.

    The bus runs on one event loop: every operation is a function from the
    state of the process to the new state and an outcome, which is a
    returned value or a thrown error.  What the bus does to the outside
    (log lines, calls of the functions it was given, envelopes handed to the
    transport) is appended to a trace kept in the state. *)

From stdpp Require Import gmap strings list fin_maps pretty.
From Stdlib Require Import ZArith.
From Stdlib Require QArith Qround.

Set Default Proof Using "Type".
Set Warnings "-register-all".

(** ** Values *)

(** Objects of the caller live in a heap and are passed by reference, as in
    JavaScript: [publish] receives the caller's object itself. *)
Definition loc := positive.

Inductive Value :=
| VUndefined
| VNull
| VBool (b : bool)
| VNum (n : Z)
| VStr (s : string)
| VObj (l : loc)    (* an object or an array: typeof is 'object' *)
| VFun (l : loc).   (* a function: typeof is 'function' *)

(** The own enumerable properties of a heap object. *)
Abbreviation Obj := (gmap string Value).

(** [!v] is [negb (truthy v)]. *)
Definition truthy (v : Value) : bool :=
  match v with
  | VUndefined | VNull => false
  | VBool b => b
  | VNum n => negb (n =? 0)%Z
  | VStr s => negb (bool_decide (s = ""))
  | VObj _ | VFun _ => true
  end.

(** [typeof v === 'object'] *)
Definition typeof_object (v : Value) : bool :=
  match v with
  | VNull | VObj _ => true
  | _ => false
  end.

(** What [JSON.parse] builds from an incoming message.  Such a value is
    fresh and the bus never writes to it, so it is kept as a tree. *)
Inductive JSON :=
| JNull
| JBool (b : bool)
| JNum (n : Z)
| JStr (s : string)
| JArr (items : list JSON)
| JObj (members : list (string * JSON)).

Fixpoint assoc {A} (k : string) (l : list (string * A)) : option A :=
  match l with
  | [] => None
  | (k', v) :: l' => if decide (k = k') then Some v else assoc k l'
  end.

(** The result of reading a property is a value or [undefined] ([None]). *)
Definition truthy_json (v : option JSON) : bool :=
  match v with
  | None | Some JNull => false
  | Some (JBool b) => b
  | Some (JNum n) => negb (n =? 0)%Z
  | Some (JStr s) => negb (bool_decide (s = ""))
  | Some (JArr _) | Some (JObj _) => true
  end.

(** A thrown value, as the catch of the handler sees it: the catch reads
    [e.message] and writes it into a log line.  [Err message] is a value
    whose message reads as that text: an Error, a TypeError of the engine,
    or a number, a string or an object without message, which reads as
    'undefined'.  [NoMessage error] is null or undefined, of which reading
    message throws the TypeError with that message. *)
Inductive Thrown :=
| Err (message : string)
| NoMessage (error : string).

(** What the engine itself throws is an Error, given by its message:
    JSON.parse throws a SyntaxError, a conversion to a string a
    TypeError. *)
Definition raised {A} (r : string + A) : Thrown + A :=
  match r with
  | inl message => inl (Err message)
  | inr a => inr a
  end.

(** [_.has(obj, key)] of underscore: [obj != null &&
    hasOwnProperty.call(obj, key)].  The bus asks for names only
    (['messageId']), which no array, string or other primitive owns. *)
Definition _has (obj : JSON) (key : string) : bool :=
  match obj with
  | JObj ms => bool_decide (is_Some (assoc key ms))
  | _ => false
  end.

(** [v.key] for the names the bus reads (messageId, broadcast, topic,
    payload, action, error): reading from [undefined] or [null] throws a
    TypeError, arrays and primitives neither own nor inherit these names. *)
Definition get_prop (v : option JSON) (key : string) : Thrown + option JSON :=
  match v with
  | None => inl (Err ("Cannot read property '" +:+ key +:+ "' of undefined"))
  | Some JNull => inl (Err ("Cannot read property '" +:+ key +:+ "' of null"))
  | Some (JObj ms) => inr (assoc key ms)
  | Some _ => inr None
  end.

(** ** Envelopes, callbacks and the trace *)

Record Envelope := mkEnvelope {
  topic : Value;
  messageId : string;
  payload : loc }.

(** The functions the bus calls.  A function of a caller is known by a
    number; the other two are written in the source. *)
Inductive Callback :=
| CbNoop                          (* () => undefined, publish's default *)
| CbUser (f : nat)                (* a function of a caller or a listener *)
| CbDownloadRuntime (callback : nat).
                                  (* the closure downloadRuntime gives to
                                     publish, over the caller's callback *)

Inductive Arg :=
| ArgNone                                  (* f() *)
| ArgData (j : JSON)                       (* a parsed message or its payload *)
| ArgExpired (ttl : Z) (envelope : Envelope)
                          (* {'time-to-live-expiration': ttl, envelope} *)
| ArgError (msg : string).                 (* new Error(msg) *)

Inductive LogLevel := Level1 | LevelERROR.

Inductive LogLine :=
| LogReceivedFrom (hwnd : Z)
| LogData (data : string)
| LogInvalidBroadcast (dataObj : string)
| LogNoOneWaiting (messageId : string)
| LogNoMessageId
| LogInvalidJSON (message : string)
| LogNotObject
| LogEnvelope (envelope : Envelope).

Inductive Effect :=
| Log (level : LogLevel) (line : LogLine)   (* log.writeToLog *)
| Call (f : Callback) (arg : Arg)           (* the function is entered *)
| Send (envelope : Envelope) (sent : bool). (* transport.publish *)

(** The closure [recordCallbackInfo] gives to [setTimeout], with the
    variables it captures and the delay asked for. *)
Record Timer := mkTimer {
  timer_set : Z;               (* the clock at setTimeout, in ms *)
  timer_delay : Z;             (* timeToLiveInMS *)
  timer_messageId : string;
  timer_timeToLive : Z;        (* timeToLiveInSeconds *)
  timer_envelope : Envelope }.

(** ** The state of the process *)

Record Bus := mkBus {
  messageIdToCallback : gmap string Callback;
  events : gmap string (list nat);  (* EventEmitter: the listeners per event *)
  sessionId : string;               (* the static RVMMessageBus.sessionId *)
  heap : gmap loc Obj;
  guids : nat;                      (* GUIDs drawn from app.generateGUID *)
  timers : list Timer;              (* armed and not yet run *)
  clock : Z;                        (* ms *)
  trace : list Effect }.

(** What the file imports and does not define. *)
Record Env := mkEnv {
  (* JSON.parse: the value, or the message of the SyntaxError thrown *)
  JSON_parse : string -> string + JSON;
  (* ToString of a value that is not a string; it throws a TypeError, given
     by its message, when an object has no callable toString or valueOf *)
  toStringOther : JSON -> string + string;
  (* route.rvmMessageBus(channel, topic, action) of common/route *)
  route_rvmMessageBus : string -> option JSON -> option JSON -> string;
  (* the n-th result of app.generateGUID() *)
  app_generateGUID : nat -> string;
  process_pid : Z;
  processVersions_openfin : Value;
  (* the result of WMCopyData.publish *)
  transport_publish : Envelope -> bool;
  (* whether a function of a caller throws, and the value it throws, when
     called with an argument *)
  user_function : nat -> Arg -> option Thrown }.

(** ** The monad of bus operations *)

Inductive Outcome (A : Type) :=
| Return (a : A)
| Throw (e : Thrown).
Arguments Return {A} a.
Arguments Throw {A} e.

Definition M (A : Type) : Type := Bus -> Bus * Outcome A.

Definition ret {A} (a : A) : M A := fun s => (s, Return a).

Definition throw {A} (e : Thrown) : M A := fun s => (s, Throw e).

Definition bind {A B} (m : M A) (k : A -> M B) : M B :=
  fun s =>
    match m s with
    | (s', Return a) => k a s'
    | (s', Throw e) => (s', Throw e)
    end.

(** try { body } catch (e) { handler e } *)
Definition try_catch {A} (body : M A) (handler : Thrown -> M A) : M A :=
  fun s =>
    match body s with
    | (s', Throw e) => handler e s'
    | r => r
    end.

Definition lift {A} (r : Thrown + A) : M A :=
  match r with
  | inl e => throw e
  | inr a => ret a
  end.

Definition gets {A} (f : Bus -> A) : M A := fun s => (s, Return (f s)).

Definition modify (f : Bus -> Bus) : M unit := fun s => (f s, Return tt).

Notation "'let*' x ':=' m 'in' k" := (bind m (fun x => k))
  (at level 10, x name, m at level 100, k at level 200, only parsing).
Notation "m '>>' k" := (bind m (fun _ => k))
  (at level 90, right associativity, only parsing).

Definition set_messageIdToCallback (t : gmap string Callback) (s : Bus) : Bus :=
  mkBus t (events s) (sessionId s) (heap s) (guids s) (timers s) (clock s)
        (trace s).

Definition set_heap (h : gmap loc Obj) (s : Bus) : Bus :=
  mkBus (messageIdToCallback s) (events s) (sessionId s) h (guids s)
        (timers s) (clock s) (trace s).

Definition set_guids (n : nat) (s : Bus) : Bus :=
  mkBus (messageIdToCallback s) (events s) (sessionId s) (heap s) n
        (timers s) (clock s) (trace s).

Definition set_timers (ts : list Timer) (s : Bus) : Bus :=
  mkBus (messageIdToCallback s) (events s) (sessionId s) (heap s) (guids s)
        ts (clock s) (trace s).

Definition set_clock (t : Z) (s : Bus) : Bus :=
  mkBus (messageIdToCallback s) (events s) (sessionId s) (heap s) (guids s)
        (timers s) t (trace s).

Definition set_trace (tr : list Effect) (s : Bus) : Bus :=
  mkBus (messageIdToCallback s) (events s) (sessionId s) (heap s) (guids s)
        (timers s) (clock s) tr.

(** The operations that only speak to the outside leave the state as it
    was, with a longer trace. *)
Definition appended (s : Bus) (tr : list Effect) : Bus :=
  set_trace (trace s ++ tr) s.

Definition effect (e : Effect) : M unit := modify (fun s => appended s [e]).

(** The calls in a trace: which function was entered with which argument. *)
Definition call_of (e : Effect) : option (Callback * Arg) :=
  match e with
  | Call f arg => Some (f, arg)
  | _ => None
  end.

Definition calls (tr : list Effect) : list (Callback * Arg) := omap call_of tr.

Definition writeToLog (level : LogLevel) (line : LogLine) : M unit :=
  effect (Log level line).

(** What [this] is bound to when a function of the bus runs. *)
Inductive This :=
| ThisBus        (* the RVMMessageBus instance *)
| ThisTimeout.   (* the Timeout object of the timer that runs the closure *)

(** ** The bus *)

Section RVMMessageBus.
Variable E : Env.

(** ToString, and the key under which a value indexes an object. *)
Definition to_string (j : JSON) : Thrown + string :=
  match j with
  | JStr s => inr s
  | _ => raised (toStringOther E j)
  end.

Definition toString (j : JSON) : M string := lift (to_string j).

Definition dataObj_messageId (dataObj : JSON) : JSON :=
  match dataObj with
  | JObj ms => default JNull (assoc "messageId" ms)
  | _ => JNull
  end.

(** *** Calling the functions the bus was given *)

Definition call_user (f : nat) (arg : Arg) : M unit :=
  effect (Call (CbUser f) arg) >>
  match user_function E f arg with
  | Some e => throw e
  | None => ret tt
  end.

(** What a pending callback is given, as the object the closure of
    [downloadRuntime] destructures. *)
Definition response_payload (response : Arg) : Thrown + option JSON :=
  match response with
  | ArgData j => get_prop (Some j) "payload"
  | ArgExpired _ _ | ArgError _ => inr None
  | ArgNone => get_prop None "payload"
  end.

(** (response) => { const { payload } = response;
                    if (payload.error) { callback(new Error(payload.error)); }
                    else { callback(); } } *)
Definition downloadRuntime_response (callback : nat) (response : Arg)
  : M unit :=
  let* payload := lift (response_payload response) in
  let* error := lift (get_prop payload "error") in
  if truthy_json error then
    let* msg := toString (default JNull error) in
    call_user callback (ArgError msg)
  else
    call_user callback ArgNone.

Definition invoke (cb : Callback) (arg : Arg) : M unit :=
  match cb with
  | CbNoop => effect (Call CbNoop arg)
  | CbUser f => call_user f arg
  | CbDownloadRuntime callback =>
      effect (Call cb arg) >> downloadRuntime_response callback arg
  end.

(** EventEmitter.emit: the listeners of the event are called in the order
    they subscribed, and a listener that throws ends the emit.  An
    'error' event without a listener throws. *)
Fixpoint call_listeners (fs : list nat) (arg : Arg) : M unit :=
  match fs with
  | [] => ret tt
  | f :: fs' => call_user f arg >> call_listeners fs' arg
  end.

Definition emit (event : string) (arg : JSON) : M bool :=
  let* ls := gets (fun s => default [] (events s !! event)) in
  match ls with
  | [] => if decide (event = "error")
          then throw (Err "Unhandled error.")
          else ret false
  | _ => call_listeners ls (ArgData arg) >> ret true
  end.

(** *** The transport's 'message' handler (constructor) *)

Definition delete_callback (key : string) : M unit :=
  modify (fun s =>
    set_messageIdToCallback (delete key (messageIdToCallback s)) s).

Definition onMessage_body (data : string) : M unit :=
  let* dataObj := lift (raised (JSON_parse E data)) in
  if _has dataObj "messageId" then
    let messageId := dataObj_messageId dataObj in
    let* isBroadcastMessage := lift (get_prop (Some dataObj) "broadcast") in
    let* key := toString messageId in
    let* weWereExpectingThisResponse :=
      gets (fun s => messageIdToCallback s !! key) in
    match weWereExpectingThisResponse with
    | Some cb =>
        invoke cb (ArgData dataObj) >>
        delete_callback key
    | None =>
        if truthy_json isBroadcastMessage then
          let* topic := lift (get_prop (Some dataObj) "topic") in
          let* payload := lift (get_prop (Some dataObj) "payload") in
          let* action := lift (get_prop payload "action") in
          if truthy_json topic && truthy_json payload && truthy_json action
          then
            emit (route_rvmMessageBus E "broadcast" topic action)
                 (default JNull payload) >> ret tt
          else
            let* text := toString dataObj in
            writeToLog Level1 (LogInvalidBroadcast text)
        else
          let* text := toString messageId in
          writeToLog Level1 (LogNoOneWaiting text)
    end
  else
    writeToLog Level1 LogNoMessageId.

(** The table key a raw message addresses, when it has one. *)
Definition response_key (data : string) : option string :=
  match JSON_parse E data with
  | inr dataObj =>
      if _has dataObj "messageId" then
        match to_string (dataObj_messageId dataObj) with
        | inr key => Some key
        | inl _ => None
        end
      else None
  | inl _ => None
  end.

(** The listeners an emit enters: all of them up to the first that
    throws. *)
Fixpoint entered (fs : list nat) (arg : Arg) : list nat :=
  match fs with
  | [] => []
  | f :: fs' =>
      f :: match user_function E f arg with
           | Some _ => []
           | None => entered fs' arg
           end
  end.

(** The catch of the handler:
    log.writeToLog(1, `data must be valid JSON; Error: ${e.message}`, true).
    Reading the message of null or undefined throws, out of the catch. *)
Definition caught (e : Thrown) : M unit :=
  match e with
  | Err message => writeToLog Level1 (LogInvalidJSON message)
  | NoMessage error => throw (Err error)
  end.

(** A value some function of a caller throws. *)
Definition thrown_by_caller (e : Thrown) : Prop :=
  ∃ f arg, user_function E f arg = Some e.

Definition onMessage (hwnd : Z) (data : string) : M unit :=
  writeToLog Level1 (LogReceivedFrom hwnd) >>
  writeToLog Level1 (LogData data) >>
  try_catch (onMessage_body data) caught.

(** *** Objects in the heap *)

(** A new object gets an address not in use. *)
Definition alloc (o : Obj) : M loc :=
  fun s =>
    let l := fresh (dom (heap s)) in
    (set_heap (<[l := o]> (heap s)) s, Return l).

Definition object_at (h : gmap loc Obj) (l : loc) : Obj :=
  default ∅ (h !! l).

(** The characters of a string are its own enumerable properties. *)
Fixpoint string_props (i : nat) (s : string) : Obj :=
  match s with
  | EmptyString => ∅
  | String c s' => <[pretty i := VStr (String c "")]> (string_props (S i) s')
  end.

(** A reference a caller passes points to an object of the heap. *)
Definition wf_value (h : gmap loc Obj) (v : Value) : Prop :=
  match v with
  | VObj l | VFun l => is_Some (h !! l)
  | _ => True
  end.

(** The own enumerable properties Object.assign copies from a source. *)
Definition own_props (h : gmap loc Obj) (v : Value) : Obj :=
  match v with
  | VObj l | VFun l => object_at h l
  | VStr s => string_props 0 s
  | _ => ∅
  end.

(** v.key, for a value that passed publish's check. *)
Definition get_field (h : gmap loc Obj) (v : Value) (key : string) : Value :=
  default VUndefined (own_props h v !! key).

(** Object.assign(target, source): the source's properties are written
    into the target object, in place. *)
Definition Object_assign (target : loc) (source : Value) : M unit :=
  modify (fun s =>
    set_heap (<[target := own_props (heap s) source ∪ object_at (heap s) target]>
                (heap s)) s).

(** delete o.key *)
Definition delete_property (o : loc) (key : string) : M unit :=
  modify (fun s =>
    set_heap (<[o := delete key (object_at (heap s) o)]> (heap s)) s).

Definition generateGUID : M string :=
  fun s => (set_guids (S (guids s)) s, Return (app_generateGUID E (guids s))).

(** *** recordCallbackInfo and its timer *)

Definition setTimeout (t : Timer) : M unit :=
  modify (fun s => set_timers (timers s ++ [t]) s).

Definition recordCallbackInfo (callback : option Callback)
           (timeToLiveInSeconds : Value) (envelope : Envelope) : M unit :=
  match callback with
  | Some cb =>            (* callback && _.has(envelope, 'messageId') *)
      let messageId := messageId envelope in
      modify (fun s =>
        set_messageIdToCallback (<[messageId := cb]> (messageIdToCallback s)) s) >>
      match timeToLiveInSeconds with
      | VNum ttl =>       (* _.isNumber(timeToLiveInSeconds) *)
          let timeToLiveInMS := (ttl * 1000)%Z in
          let* now := gets clock in
          setTimeout (mkTimer now timeToLiveInMS messageId ttl envelope)
      | _ => ret tt
      end
  | None => ret tt
  end.

(** The timers recordCallbackInfo arms for a message. *)
Definition armed (now : Z) (timeToLive : Value) (envelope : Envelope)
  : list Timer :=
  match timeToLive with
  | VNum ttl => [mkTimer now (ttl * 1000) (messageId envelope) ttl envelope]
  | _ => []
  end.

(** The timer's closure is written [function() { ... }] and reads the
    table as [this.messageIdToCallback].  In a function expression [this]
    is whatever the caller makes it; in an arrow function, as the
    'message' handler is, it is the bus.  A Timeout object has no
    messageIdToCallback property: the read gives undefined. *)
Definition this_messageIdToCallback (this : This)
  : M (option (gmap string Callback)) :=
  match this with
  | ThisBus => gets (fun s => Some (messageIdToCallback s))
  | ThisTimeout => ret None
  end.

Definition timer_closure (this : This) (t : Timer) : M unit :=
  let messageId := timer_messageId t in
  let* table := this_messageIdToCallback this in
  match table with
  | Some m =>
      match m !! messageId with
      | Some cb =>
          invoke cb (ArgExpired (timer_timeToLive t) (timer_envelope t)) >>
          delete_callback messageId
      | None => ret tt
      end
  | None => ret tt           (* _.has(undefined, messageId) is false *)
  end.

(** setTimeout runs the closure as a method of the Timeout object. *)
Definition run_timer (t : Timer) : M unit := timer_closure ThisTimeout t.

Definition timer_due (now : Z) (t : Timer) : bool :=
  (timer_set t + timer_delay t <=? now)%Z.

(** Each due timer runs as a task of its own: what one throws does not
    reach the next. *)
Fixpoint run_timers (ts : list Timer) (s : Bus) : Bus :=
  match ts with
  | [] => s
  | t :: ts' => run_timers ts' (fst (run_timer t s))
  end.

(** [ms] milliseconds pass and the timers that are due run.  A timer is
    due once the delay it was set with has passed. *)
Definition elapse (ms : Z) (s : Bus) : Bus :=
  let now := (clock s + ms)%Z in
  let due := filter (fun t => timer_due now t = true) (timers s) in
  let rest := filter (fun t => timer_due now t = false) (timers s) in
  run_timers due (set_timers rest (set_clock now s)).

(** *** publish *)

(** process.pid and process.versions.openfin, the target of
    Object.assign in publish. *)
Definition process_metadata : Obj :=
  {[ "processId" := VNum (process_pid E);
     "runtimeVersion" := processVersions_openfin E ]}.

Definition transport_send (envelope : Envelope) : M bool :=
  let sent := transport_publish E envelope in
  effect (Send envelope sent) >> ret sent.

Definition publish (msg : Value) (callback : option Callback) : M bool :=
  let callback := default CbNoop callback in
  if negb (truthy msg) || negb (typeof_object msg) then
    writeToLog LevelERROR LogNotObject >>
    ret false
  else
    let* h := gets heap in
    let topic := get_field h msg "topic" in
    let timeToLive := get_field h msg "timeToLive" in
    let* payload := alloc process_metadata in
    Object_assign payload msg >>
    delete_property payload "topic" >>
    let* messageId := generateGUID in
    let envelope := mkEnvelope topic messageId payload in
    recordCallbackInfo (Some callback) timeToLive envelope >>
    writeToLog Level1 (LogEnvelope envelope) >>
    transport_send envelope.

(** *** registerLicenseInfo

    The object literals of the default payload are allocated innermost
    first; the addresses they get are not observable. *)

(** A parameter with a default takes it when the argument is undefined. *)
Definition default_arg (d v : Value) : Value :=
  match v with
  | VUndefined => d
  | _ => v
  end.

Definition registerLicenseInfo (licInfo : Value) (sourceUrl : Value) : M bool :=
  let sourceUrl := default_arg VNull sourceUrl in
  let* sessionId := gets sessionId in
  let* parentApp := alloc {[ "uuid" := VNull ]} in
  let* client := alloc {[ "type" := VNull; "version" := VNull;
                          "pid" := VNull ]} in
  let* data := alloc {[ "parentApp" := VObj parentApp;
                        "licenseKey" := VNull;
                        "client" := VObj client;
                        "uuid" := VNull ]} in
  let* payload := alloc {[ "topic" := VStr "application-event";
                           "type" := VStr "started";
                           "sourceUrl" := sourceUrl;
                           "sessionId" := VStr sessionId;
                           "data" := VObj data ]} in
  Object_assign payload licInfo >>
  publish (VObj payload) None.

(** *** downloadRuntime *)

Definition downloadRuntime (options : Value) (callback : nat) : M unit :=
  let* rvmMessage := alloc {[ "topic" := VStr "application";
                              "action" := VStr "runtime-download" ]} in
  Object_assign rvmMessage options >>
  let* publishSuccess :=
    publish (VObj rvmMessage) (Some (CbDownloadRuntime callback)) in
  if negb publishSuccess then
    call_user callback (ArgError "RVM Message failed.")
  else
    ret tt.


(** *** The process at start *)

(** The class is defined (its static [sessionId] draws the first GUID) and
    the one bus of the module is constructed, with an empty table. *)
Definition new_RVMMessageBus : Bus :=
  {| messageIdToCallback := ∅; events := ∅;
     sessionId := app_generateGUID E 0;
     heap := ∅; guids := 1; timers := []; clock := 0; trace := [] |}.

(** EventEmitter.on *)
Definition on (event : string) (listener : nat) : M unit :=
  fun s =>
    (mkBus (messageIdToCallback s)
           (<[event := default [] (events s !! event) ++ [listener]]> (events s))
           (sessionId s) (heap s) (guids s) (timers s) (clock s) (trace s),
     Return tt).

(** *** The event loop *)

(** The tasks of the loop: a call of the bus by the application, a message
    from the transport, or time passing with the due timers run. *)
Inductive Task :=
| DoPublish (msg : Value) (callback : option Callback)
| DoRegisterLicenseInfo (licInfo sourceUrl : Value)
| DoDownloadRuntime (options : Value) (callback : nat)
| DoOn (event : string) (listener : nat)
| Receive (hwnd : Z) (data : string)
| Elapse (ms : Z).

Definition step (s : Bus) (t : Task) : Bus :=
  match t with
  | DoPublish msg callback => fst (publish msg callback s)
  | DoRegisterLicenseInfo licInfo sourceUrl =>
      fst (registerLicenseInfo licInfo sourceUrl s)
  | DoDownloadRuntime options callback =>
      fst (downloadRuntime options callback s)
  | DoOn event listener => fst (on event listener s)
  | Receive hwnd data => fst (onMessage hwnd data s)
  | Elapse ms => elapse ms s
  end.

Definition run_tasks (s : Bus) (ts : list Task) : Bus := foldl step s ts.

(** What a task may do to the table, the GUID counter and the session
    identifier: nothing, remove one entry, or register a callback under
    the next GUID. *)
Definition advances (s s' : Bus) : Prop :=
  sessionId s' = sessionId s ∧
  ((guids s' = guids s ∧
    (messageIdToCallback s' = messageIdToCallback s ∨
     ∃ key, messageIdToCallback s' = delete key (messageIdToCallback s))) ∨
   (guids s' = S (guids s) ∧
    ∃ cb, messageIdToCallback s' =
            <[app_generateGUID E (guids s) := cb]> (messageIdToCallback s))).

(** Every key of the table is a GUID the generator has handed out. *)
Definition guid_keys (s : Bus) : Prop :=
  ∀ key, is_Some (messageIdToCallback s !! key) →
         ∃ n, n < guids s ∧ key = app_generateGUID E n.
End RVMMessageBus.

(** ** A concrete process, to run the bus on *)

Module Demo.
Definition guid (n : nat) : string := "guid-" +:+ pretty n.

(** The messages the transport delivers in the examples.  The first
    publish of a process draws [guid 1]: [guid 0] is the sessionId. *)
Definition no_payload : list (string * JSON) :=
  [("messageId", JStr (guid 1))].

Definition empty_error : list (string * JSON) :=
  [("messageId", JStr (guid 1)); ("payload", JObj [("error", JStr "")])].

Definition disk_full : list (string * JSON) :=
  [("messageId", JStr (guid 1));
   ("payload", JObj [("error", JStr "disk full")])].

Definition crashed : list (string * JSON) :=
  [("broadcast", JBool true); ("topic", JStr "application-event");
   ("messageId", JStr "x");
   ("payload", JObj [("action", JStr "crashed"); ("uuid", JStr "u1")])].

Definition empty_action : list (string * JSON) :=
  [("broadcast", JBool true); ("topic", JStr "application-event");
   ("messageId", JStr "x"); ("payload", JObj [("action", JStr "")])].

Definition no_id : list (string * JSON) :=
  [("broadcast", JBool true); ("topic", JStr "application-event");
   ("payload", JObj [("action", JStr "crashed")])].

Definition parse (data : string) : string + JSON :=
  if decide (data = "no-payload") then inr (JObj no_payload)
  else if decide (data = "empty-error") then inr (JObj empty_error)
  else if decide (data = "disk-full") then inr (JObj disk_full)
  else if decide (data = "crashed") then inr (JObj crashed)
  else if decide (data = "empty-action") then inr (JObj empty_action)
  else if decide (data = "no-id") then inr (JObj no_id)
  else inl "Unexpected token".

Definition text (j : option JSON) : string :=
  match j with
  | Some (JStr s) => s
  | _ => "?"
  end.

Definition env (sends : bool) : Env :=
  {| JSON_parse := parse;
     toStringOther := fun _ => inr "[object Object]";
     route_rvmMessageBus := fun channel topic action =>
       channel +:+ "/" +:+ text topic +:+ "/" +:+ text action;
     app_generateGUID := guid;
     process_pid := 4242;
     processVersions_openfin := VStr "8.56.30.42";
     transport_publish := fun _ => sends;
     user_function := fun _ _ => None |}.

(** A process whose heap holds the objects of a caller. *)
Definition start (sends : bool) (h : gmap loc Obj) : Bus :=
  set_heap h (new_RVMMessageBus (env sends)).

Definition msg : loc := 1%positive.

(** publish({topic: 'app-assets', type: 'get-list', appConfig: 'c',
             timeToLive: 5}, f7) *)
Definition get_list : Obj :=
  {[ "topic" := VStr "app-assets"; "type" := VStr "get-list";
     "appConfig" := VStr "c"; "timeToLive" := VNum 5 ]}.

Definition requesting : Bus := start true {[ msg := get_list ]}.

(** downloadRuntime({downloadId: 'd1', version: '1.2.3', sourceUrl: 's'},
                    f7) *)
Definition options : Obj :=
  {[ "downloadId" := VStr "d1"; "version" := VStr "1.2.3";
     "sourceUrl" := VStr "s" ]}.

Definition downloading (sends : bool) : Bus :=
  fst (downloadRuntime (env sends) (VObj msg) 7
         (start sends {[ msg := options ]})).

(** registerLicenseInfo({data: {licenseKey: 'k'}}, 'http://app') *)
Definition licensed : Bus :=
  start true {[ 1%positive := {[ "data" := VObj 2%positive ]};
                2%positive := {[ "licenseKey" := VStr "k" ]} ]}.

(** Listener 3 waits for ('broadcast', 'application-event', 'crashed')
    and listener 4 on the channel of the empty action. *)
Definition subscribed : Bus :=
  fst (on "broadcast/application-event/" 4
         (fst (on "broadcast/application-event/crashed" 3 (start true ∅)))).

(** A caller whose function 7 does [throw null]. *)
Definition rude : Env :=
  {| JSON_parse := parse;
     toStringOther := fun _ => inr "[object Object]";
     route_rvmMessageBus := route_rvmMessageBus (env true);
     app_generateGUID := guid;
     process_pid := 4242;
     processVersions_openfin := VStr "8.56.30.42";
     transport_publish := fun _ => true;
     user_function := fun f _ =>
       if decide (f = 7)
       then Some (NoMessage "Cannot read property 'message' of null")
       else None |}.

(** publish(get_list, f7) in that process *)
Definition rude_requesting : Bus :=
  fst (publish rude (VObj msg) (Some (CbUser 7))
         (set_heap {[ msg := get_list ]} (new_RVMMessageBus rude))).
End Demo.

(** ** What the bus leaves alone *)

(** The envelopes handed to the transport in a trace. *)
Definition send_of (e : Effect) : option Envelope :=
  match e with
  | Send envelope _ => Some envelope
  | _ => None
  end.

Definition sends (tr : list Effect) : list Envelope := omap send_of tr.

(** Every object of the first heap is in the second, with the same
    properties. *)
Definition objects_kept (h h' : gmap loc Obj) : Prop :=
  ∀ l o, h !! l = Some o → h' !! l = Some o.

(** ** A second process: a pending request and broadcast listeners *)

Module Scenario.
(** A message that answers the first request and is marked as a broadcast
    as well. *)
Definition answer_and_broadcast : list (string * JSON) :=
  [("messageId", JStr (Demo.guid 1)); ("broadcast", JBool true);
   ("topic", JStr "application-event");
   ("payload", JObj [("action", JStr "crashed")])].

Definition answer : list (string * JSON) :=
  [("messageId", JStr (Demo.guid 1)); ("payload", JObj [])].

Definition parse (data : string) : string + JSON :=
  if decide (data = "answer-and-broadcast") then
    inr (JObj answer_and_broadcast)
  else if decide (data = "answer") then inr (JObj answer)
  else inl "Unexpected token".

Definition env : Env :=
  {| JSON_parse := parse;
     toStringOther := fun _ => inr "[object Object]";
     route_rvmMessageBus := route_rvmMessageBus (Demo.env true);
     app_generateGUID := Demo.guid;
     process_pid := 4242;
     processVersions_openfin := VStr "8.56.30.42";
     transport_publish := fun _ => true;
     user_function := fun _ _ => None |}.

(** publish({topic: 'system', action: 'get-rvm-info', timeToLive: '5'}, f7):
    the time to live is a string. *)
Definition get_rvm_info : Obj :=
  {[ "topic" := VStr "system"; "action" := VStr "get-rvm-info";
     "timeToLive" := VStr "5" ]}.

(** Listener 3 waits for ('broadcast', 'application-event', 'crashed'); the
    heap holds the request of a caller. *)
Definition idle : Bus :=
  fst (on "broadcast/application-event/crashed" 3
         (set_heap {[ Demo.msg := get_rvm_info ]} (new_RVMMessageBus env))).

Definition waiting : Bus :=
  fst (publish env (VObj Demo.msg) (Some (CbUser 7)) idle).
End Scenario.

(** ** What reaches an entry of the table *)

Section Entries.
Variable E : Env.

(** The table is as it was or has one more entry, under the GUID drawn. *)
Definition registers (s s' : Bus) : Prop :=
  (guids s' = guids s ∧ messageIdToCallback s' = messageIdToCallback s) ∨
  (guids s' = S (guids s) ∧
   ∃ cb, messageIdToCallback s' =
           <[app_generateGUID E (guids s) := cb]> (messageIdToCallback s)).

(** The task is an incoming message that addresses the key. *)
Definition addresses (key : string) (t : Task) : bool :=
  match t with
  | Receive _ data => bool_decide (response_key E data = Some key)
  | _ => false
  end.
End Entries.

(** * The startup options of a manifest (getStartupAppOptions)

    getStartupAppOptions writes to the startup_app object of the manifest
    it is given and answers with that very object, so the manifest lives in
    the heap, as the objects handed to the bus do. *)

Section StartupApp.
(** Whether the module runs as strict code.  An assignment to a property
    of a primitive throws in strict code and does nothing otherwise. *)
Variable strict : bool.

(** o.key = v *)
Definition set_property (o : Value) (key : string) (v : Value)
           (h : gmap loc Obj) : Thrown + gmap loc Obj :=
  match o with
  | VObj l | VFun l => inr (<[l := <[key := v]> (object_at h l)]> h)
  | VUndefined =>
      inl (Err ("Cannot set property '" +:+ key +:+ "' of undefined"))
  | VNull => inl (Err ("Cannot set property '" +:+ key +:+ "' of null"))
  | _ =>
      if strict then inl (Err ("Cannot create property '" +:+ key +:+ "'"))
      else inr h
  end.

Definition getStartupAppOptions (appJson : Value) (h : gmap loc Obj)
  : Thrown + (gmap loc Obj * Value) :=
  match appJson with
  | VUndefined => inl (Err "Cannot read property 'startup_app' of undefined")
  | VNull => inl (Err "Cannot read property 'startup_app' of null")
  | _ =>
      let opts := get_field h appJson "startup_app" in
      if truthy opts then
        match set_property opts "plugin" (get_field h appJson "plugin") h with
        | inl e => inl e
        | inr h1 =>
            match set_property opts "preload"
                    (get_field h1 appJson "preload") h1 with
            | inl e => inl e
            | inr h2 => inr (h2, opts)
            end
        end
      else inr (h, opts)
  end.
End StartupApp.

(** What the two assignments leave of the heap when the options are the
    object at [l]. *)
Definition assigned (appJson : Value) (h : gmap loc Obj) (l : loc)
  : gmap loc Obj :=
  <[l := <["preload" := get_field h appJson "preload"]>
           (<["plugin" := get_field h appJson "plugin"]> (object_at h l))]> h.

Module Manifest.
(** A manifest with a preload of its own and a startup_app that names
    another preload and a plugin. *)
Definition app : loc := 1%positive.
Definition startup_app : loc := 2%positive.

Definition heap : gmap loc Obj :=
  {[ app := {[ "startup_app" := VObj startup_app;
               "preload" := VStr "manifest.js" ]};
     startup_app := {[ "uuid" := VStr "chart"; "preload" := VStr "own.js";
                       "plugin" := VStr "own-plugin" ]} ]}.
End Manifest.

(** * Window options (src/browser/convert_options.js)

    [validate] and [validateOptions] check the options of a window against
    the 5.0 defaults, [convertToElectron] derives the BrowserWindow options
    from them and [normalizePreload] brings the preload option to its
    modern form.  Options are data: [undefined], [null], booleans, numbers,
    strings, arrays and objects.  These functions build new objects and
    write to none they were given, so values are trees. *)

Module ConvertOptions.

(** A number is an IEEE double; the code compares numbers and copies them
    and does no arithmetic, for which the rationals stand for the finite
    ones. *)
Inductive Number :=
| NaN
| NegInfinity
| Finite (q : QArith_base.Q)
| Infinity.

Inductive JS :=
| Undefined
| Null
| Bool (b : bool)
| Num (x : Number)
| Str (s : string)
| Arr (items : list JS)
| Obj (members : list (string * JS)).   (* in the order of enumeration *)

Definition num (z : Z) : JS := Num (Finite (QArith_base.inject_Z z)).

Inductive TypeName := TUndefined | TObject | TBoolean | TNumber | TString.

#[global] Instance TypeName_eq_dec : EqDecision TypeName.
Proof. solve_decision. Defined.

Definition typeof (v : JS) : TypeName :=
  match v with
  | Undefined => TUndefined
  | Null | Arr _ | Obj _ => TObject
  | Bool _ => TBoolean
  | Num _ => TNumber
  | Str _ => TString
  end.

Definition truthy (v : JS) : bool :=
  match v with
  | Undefined | Null => false
  | Bool b => b
  | Num NaN => false
  | Num (Finite q) => negb (QArith_base.Qeq_bool q (QArith_base.inject_Z 0))
  | Num _ => true
  | Str s => negb (bool_decide (s = ""))
  | Arr _ | Obj _ => true
  end.

(** a < b on numbers; a > b is b < a. *)
Definition lt (a b : Number) : bool :=
  match a, b with
  | NaN, _ | _, NaN => false
  | NegInfinity, NegInfinity => false
  | NegInfinity, _ => true
  | _, NegInfinity => false
  | Infinity, _ => false
  | Finite _, Infinity => true
  | Finite p, Finite q => negb (QArith_base.Qle_bool q p)
  end.

(** The characters of a string, each a string of its own. *)
Fixpoint chars (s : string) : list JS :=
  match s with
  | EmptyString => []
  | String c s' => Str (String c "") :: chars s'
  end.

(** The index a property name denotes, below [n]. *)
Definition index_of (key : string) (n : nat) : option nat :=
  list_find (λ i, pretty i = key) (seq 0 n) ≫= λ p, Some (snd p).

Definition indexed (items : list JS) (key : string) : JS :=
  if decide (key = "length") then num (Z.of_nat (length items))
  else match index_of key (length items) with
       | Some i => default Undefined (items !! i)
       | None => Undefined
       end.

(** The names a value inherits from the built-in prototypes: those of
    Object.prototype, Array.prototype, String.prototype, Number.prototype
    and Boolean.prototype (ECMAScript 2023 with its Annex B). *)
Definition inherited_names : list string :=
  ["constructor"; "__defineGetter__"; "__defineSetter__"; "hasOwnProperty";
   "__lookupGetter__"; "__lookupSetter__"; "isPrototypeOf";
   "propertyIsEnumerable"; "toString"; "valueOf"; "__proto__";
   "toLocaleString";
   "length"; "at"; "concat"; "copyWithin"; "fill"; "find"; "findIndex";
   "findLast"; "findLastIndex"; "lastIndexOf"; "pop"; "push"; "reverse";
   "shift"; "unshift"; "slice"; "sort"; "splice"; "includes"; "indexOf";
   "join"; "keys"; "entries"; "values"; "forEach"; "filter"; "flat";
   "flatMap"; "map"; "every"; "some"; "reduce"; "reduceRight";
   "toReversed"; "toSorted"; "toSpliced"; "with";
   "anchor"; "big"; "blink"; "bold"; "charAt"; "charCodeAt"; "codePointAt";
   "endsWith"; "fontcolor"; "fontsize"; "fixed"; "isWellFormed"; "italics";
   "link"; "localeCompare"; "match"; "matchAll"; "normalize"; "padEnd";
   "padStart"; "repeat"; "replace"; "replaceAll"; "search"; "small";
   "split"; "strike"; "sub"; "substr"; "substring"; "sup"; "startsWith";
   "toWellFormed"; "trim"; "trimStart"; "trimLeft"; "trimEnd"; "trimRight";
   "toLocaleLowerCase"; "toLocaleUpperCase"; "toLowerCase"; "toUpperCase";
   "toExponential"; "toFixed"; "toPrecision"].

Definition inherited (key : string) : bool :=
  bool_decide (key ∈ inherited_names).

(** [v[key]] for a value other than undefined and null (reading from those
    throws; see [validate] and [validateOptions]) and a name that is not
    inherited: the member the value has of its own.  Under an inherited
    name the source sees the method or object of the prototype where the
    value has no member of its own; the names the code reads by name
    (rawWindowOpen, message, plugin, url, ...) and the names of the 5.0
    defaults are not inherited, and what is stated of [validate] on other
    bases is stated for bases without such names. *)
Definition get (v : JS) (key : string) : JS :=
  match v with
  | Obj ms => default Undefined (assoc key ms)
  | Arr items => indexed items key
  | Str s => indexed (chars s) key
  | _ => Undefined
  end.

(** o[key] = v *)
Fixpoint set_member (key : string) (v : JS) (ms : list (string * JS))
  : list (string * JS) :=
  match ms with
  | [] => [(key, v)]
  | (k, x) :: ms' =>
      if decide (key = k) then (k, v) :: ms' else (k, x) :: set_member key v ms'
  end.

Definition set (key : string) (v : JS) (o : JS) : JS :=
  match o with
  | Obj ms => Obj (set_member key v ms)
  | _ => o
  end.

(** *** validate *)

(** underscore's isArrayLike: the length is a number between 0 and
    2^53 - 1; the result is the number of turns of
    [for (i = 0; i < length; i++)]. *)
Definition MAX_ARRAY_INDEX : QArith_base.Q :=
  QArith_base.inject_Z (2 ^ 53 - 1).

Definition array_like (v : JS) : option nat :=
  match get v "length" with
  | Num (Finite q) =>
      if QArith_base.Qle_bool (QArith_base.inject_Z 0) q &&
         QArith_base.Qle_bool q MAX_ARRAY_INDEX
      then Some (Z.to_nat (Qround.Qceiling q))
      else None
  | _ => None
  end.

(** The keys [_.each] visits: the indices of an array-like value, the
    member names of another object, none of a primitive. *)
Definition each_keys (v : JS) : list string :=
  match v with
  | Arr items => pretty <$> seq 0 (length items)
  | Str s => pretty <$> seq 0 (length (chars s))
  | Obj ms =>
      match array_like v with
      | Some n => pretty <$> seq 0 n
      | None => fst <$> ms
      end
  | _ => []
  end.

Definition nullish (v : JS) : bool :=
  match v with
  | Undefined | Null => true
  | _ => false
  end.

Definition nullish_name (v : JS) : string :=
  match v with
  | Null => "null"
  | _ => "undefined"
  end.

(** user[key] || {} *)
Definition or_empty (v : JS) : JS := if truthy v then v else Obj [].

(** The value validate gives a key: [sub] is validate(base[key], _). *)
Definition pick (sub : option (JS → JS)) (b u : JS) : JS :=
  if decide (typeof b = TObject) then
    default (λ _, Obj []) sub (or_empty u)
  else if decide (typeof u = typeof b) then u else b.

(** validate(base, user) for a user that is not undefined or null. *)
Fixpoint validate_defined (base : JS) (user : JS) {struct base} : JS :=
  match base with
  | Obj ms =>
      let subs :=
        (fix subs (ms : list (string * JS)) : list (string * (JS → JS)) :=
           match ms with
           | [] => []
           | (k, v) :: ms' => (k, validate_defined v) :: subs ms'
           end) ms in
      Obj ((λ key, (key, pick (assoc key subs) (get base key) (get user key)))
             <$> each_keys base)
  | Arr items =>
      let subs :=
        (fix subs (items : list JS) : list (JS → JS) :=
           match items with
           | [] => []
           | v :: items' => validate_defined v :: subs items'
           end) items in
      Obj ((λ i, (pretty i, pick (subs !! i) (get base (pretty i))
                                 (get user (pretty i))))
             <$> seq 0 (length items))
  | Str s =>
      Obj ((λ key, (key, pick None (get base key) (get user key)))
             <$> each_keys base)
  | _ => Obj []
  end.

(** validate(base, user): the first turn of _.each reads user[key], which
    throws for a user that is undefined or null; with nothing to visit
    the answer is {}.  The calls validate makes of itself pass
    user[key] || {}, which is neither undefined nor null. *)
Definition validate (base user : JS) : Thrown + JS :=
  match each_keys base with
  | key :: _ =>
      if nullish user
      then inl (Err ("Cannot read property '" +:+ key +:+ "' of "
                     +:+ nullish_name user))
      else inr (validate_defined base user)
  | [] => inr (validate_defined base user)
  end.

(** The defaults of a 5.0 window.  The two constants of ../shapes are
    parameters. *)
Definition five0BaseOptions (DEFAULT_RESIZE_REGION_BOTTOM_RIGHT_CORNER
                             DEFAULT_RESIZE_REGION_SIZE : JS) : JS :=
  Obj [("accelerator", Obj [("devtools", Bool false); ("zoom", Bool false);
                            ("reload", Bool false);
                            ("reloadIgnoringCache", Bool false)]);
       ("alphaMask", Obj [("blue", num (-1)); ("green", num (-1));
                          ("red", num (-1))]);
       ("alwaysOnBottom", Bool false);
       ("alwaysOnTop", Bool false);
       ("applicationIcon", Str "");
       ("autoShow", Bool false);
       ("backgroundThrottling", Bool false);
       ("contextMenu", Bool true);
       ("cornerRounding", Obj [("height", num 0); ("width", num 0)]);
       ("defaultCentered", Bool false);
       ("defaultHeight", num 500);
       ("defaultLeft", num 10);
       ("defaultTop", num 10);
       ("defaultWidth", num 800);
       ("delay_connection", Bool false);
       ("disableIabSecureLogging", Bool false);
       ("draggable", Bool false);
       ("exitOnClose", Bool false);
       ("frame", Bool true);
       ("frameConnect", Str "");
       ("hideOnBlur", Bool false);
       ("hideOnClose", Bool false);
       ("hideWhileChildrenVisible", Bool false);
       ("icon", Str "");
       ("launchExternal", Str "");
       ("loadErrorMessage", Str "");
       ("maxHeight", num (-1));
       ("maxWidth", num (-1));
       ("maximizable", Bool true);
       ("minHeight", num 0);
       ("minWidth", num 0);
       ("minimizable", Bool true);
       ("name", Str "");
       ("opacity", num 1);
       ("plugins", Bool false);
       ("resizable", Bool true);
       ("resize", Bool true);
       ("resizeRegion",
        Obj [("bottomRightCorner", DEFAULT_RESIZE_REGION_BOTTOM_RIGHT_CORNER);
             ("size", DEFAULT_RESIZE_REGION_SIZE)]);
       ("saveWindowState", Bool true);
       ("shadow", Bool false);
       ("showTaskbarIcon", Bool true);
       ("smallWindow", Bool false);
       ("state", Str "normal");
       ("taskbarIcon", Str "");
       ("taskbarIconGroup", Str "");
       ("transparent", Bool false);
       ("url", Str "about:blank");
       ("uuid", Str "");
       ("waitForPageLoad", Bool true);
       ("backgroundColor", Str "#FFF");
       ("webSecurity", Bool true)].

(** What the module reads from the process it runs in. *)
Record Host := mkHost {
  DEFAULT_RESIZE_REGION_BOTTOM_RIGHT_CORNER : JS;
  DEFAULT_RESIZE_REGION_SIZE : JS;
  (* isInContainer('openfin'), as the condition of an if *)
  inContainer : bool;
  (* coreState.argo['disable-web-security'], as a condition *)
  disable_web_security : bool;
  JSON_stringify : JS → string }.

(** five0BaseOptions() *)
Definition defaults (H : Host) : JS :=
  five0BaseOptions (DEFAULT_RESIZE_REGION_BOTTOM_RIGHT_CORNER H)
                   (DEFAULT_RESIZE_REGION_SIZE H).

(** *** validateOptions *)

Definition validateOptions (H : Host) (options : JS) : Thrown + JS :=
  let baseOptions := defaults H in
  if nullish options then
    inl (Err ("Cannot read property 'rawWindowOpen' of " +:+ nullish_name options))
  else
    let baseOptions :=
      if truthy (get options "rawWindowOpen")
      then set "rawWindowOpen" (get options "rawWindowOpen") baseOptions
      else baseOptions in
    validate baseOptions options.

(** *** normalizePreload *)

(** preload.every(p => typeof p === 'object' && typeof p.url === 'string'):
    [typeof null] is 'object', and reading null.url throws. *)
Fixpoint every_has_url (items : list JS) : Thrown + bool :=
  match items with
  | [] => inr true
  | p :: items' =>
      if decide (typeof p = TObject) then
        match p with
        | Null => inl (Err "Cannot read property 'url' of null")
        | _ => if decide (typeof (get p "url") = TString)
               then every_has_url items'
               else inr false
        end
      else inr false
  end.

(** p.url !== '' *)
Definition url_not_empty (p : JS) : bool :=
  match get p "url" with
  | Str s => negb (bool_decide (s = ""))
  | _ => true
  end.

(** The result with whether the warning was logged. *)
Definition normalizePreload (preload : JS) : Thrown + (bool * JS) :=
  let preload :=
    match preload with
    | Null | Bool false => Str ""
    | _ => preload
    end in
  match preload with
  | Str s =>
      inr (false, if decide (s = "") then Arr [] else Arr [Obj [("url", Str s)]])
  | Arr items =>
      match every_has_url items with
      | inl e => inl e
      | inr true =>
          inr (false, Arr (filter (λ p, url_not_empty p = true) items))
      | inr false => inr (true, Arr [])
      end
  | _ => inr (true, Arr [])
  end.

(** *** convertToElectron *)

(** a && b, !a *)
Definition js_and (a b : JS) : JS := if truthy a then b else a.
Definition js_not (a : JS) : JS := Bool (negb (truthy a)).

(** a < b for operands that are numbers, as those convertToElectron
    compares are: validate answers with a number under every name whose
    default is a number.  Of other operands, which JavaScript would first
    convert, nothing is stated: every use of [less] below is on numbers. *)
Definition less (a b : JS) : bool :=
  match a, b with
  | Num x, Num y => lt x y
  | _, _ => false
  end.

(** v !== -1 *)
Definition is_not_minus_one (v : JS) : bool :=
  match v with
  | Num (Finite q) => negb (QArith_base.Qeq_bool q (QArith_base.inject_Z (-1)))
  | _ => true
  end.

(** The height (the width) of the window from the validated minimum,
    maximum and default. *)
Definition fit (min max default : JS) : JS :=
  if less default min then min
  else if is_not_minus_one max && less max default then max
  else default.

(** key in v *)
Definition has_property (key : string) (v : JS) : Thrown + bool :=
  match v with
  | Obj ms => inr (bool_decide (is_Some (assoc key ms)))
  | Arr items =>
      inr (bool_decide (key = "length") ||
           bool_decide (is_Some (index_of key (length items))))
  | _ => (* the message goes on with the value searched *)
      inl (Err ("Cannot use 'in' operator to search for '" +:+ key +:+ "'"))
  end.

(** if (options.key !== undefined) { newOptions.key = options.key; } *)
Definition copy_defined (key : string) (options newOptions : JS) : JS :=
  match get options key with
  | Undefined => newOptions
  | v => set key v newOptions
  end.

(** newOptions.key = value, the value read off newOptions itself *)
Definition assign (key : string) (value : JS → JS) (newOptions : JS) : JS :=
  set key (value newOptions) newOptions.

Definition container_options (newOptions : JS) : JS :=
  let o := newOptions in
  let o := assign "resizable"
             (λ o, js_and (get o "resize") (get o "resizable")) o in
  let o := assign "show"
             (λ o, js_and (get o "autoShow") (js_not (get o "waitForPageLoad")))
             o in
  let o := assign "skipTaskbar" (λ o, js_not (get o "showTaskbarIcon")) o in
  let o := assign "title" (λ o, get o "name") o in
  let o := assign "height"
             (λ o, fit (get o "minHeight") (get o "maxHeight")
                       (get o "defaultHeight")) o in
  let o := assign "width"
             (λ o, fit (get o "minWidth") (get o "maxWidth")
                       (get o "defaultWidth")) o in
  let o := assign "center" (λ o, get o "defaultCentered") o in
  if truthy (get o "center") then o
  else assign "y" (λ o, get o "defaultTop")
              (assign "x" (λ o, get o "defaultLeft") o).

(** v === false *)
Definition is_false (v : JS) : bool :=
  match v with
  | Bool false => true
  | _ => false
  end.

Definition webPreferences (H : Host) (newOptions : JS) : JS :=
  let wp := Obj [("nodeIntegration", Bool false);
                 ("plugins", get newOptions "plugins")] in
  if disable_web_security H || is_false (get newOptions "webSecurity")
  then set "webSecurity" (Bool false) wp
  else wp.

(** newOptions as it is before it is serialized, with whether
    normalizePreload logged its warning. *)
Definition electron_options (H : Host) (options : JS) : Thrown + (bool * JS) :=
  match validateOptions H options with
  | inl e => inl e
  | inr newOptions =>
      let o := if inContainer H then container_options newOptions
               else newOptions in
      let o := set "enableLargerThanScreen" (Bool true) o in
      let o := set "enable-plugins" (Bool true) o in
      let o := set "webPreferences" (webPreferences H o) o in
      let o := copy_defined "message" options o in
      let o := copy_defined "customData" options o in
      let o := copy_defined "permissions" options o in
      match has_property "preload" options with
      | inl e => inl e
      | inr has_preload =>
          match (if has_preload
                 then match normalizePreload (get options "preload") with
                      | inl e => inl e
                      | inr (w, p) => inr (w, set "preload" p o)
                      end
                 else inr (false, o)) with
          | inl e => inl e
          | inr (w, o) =>
              let plugin := get options "plugin" in
              let o := set "plugin" (if truthy plugin then plugin else Arr [])
                           o in
              inr (w, copy_defined "customRequestHeaders" options o)
          end
      end
  end.

(** JSON.parse(JSON.stringify(v)): a member that is undefined is left out,
    an item that is undefined becomes null, and so does a number that is
    not finite. *)
Fixpoint roundtrip (v : JS) : JS :=
  match v with
  | Num (Finite _) => v
  | Num _ => Null
  | Arr items =>
      Arr ((fix items' (l : list JS) : list JS :=
              match l with
              | [] => []
              | x :: l' =>
                  match roundtrip x with
                  | Undefined => Null
                  | y => y
                  end :: items' l'
              end) items)
  | Obj ms =>
      Obj ((fix members' (l : list (string * JS)) : list (string * JS) :=
              match l with
              | [] => []
              | (k, x) :: l' =>
                  match roundtrip x with
                  | Undefined => members' l'
                  | y => (k, y) :: members' l'
                  end
              end) ms)
  | _ => v
  end.

Inductive Output :=
| AsString (s : string)
| AsObject (v : JS).

Definition convertToElectron (H : Host) (options : JS) (returnAsString : bool)
  : Thrown + (bool * Output) :=
  match electron_options H options with
  | inl e => inl e
  | inr (w, newOptions) =>
      inr (w, if returnAsString then AsString (JSON_stringify H newOptions)
              else AsObject (roundtrip newOptions))
  end.

(** *** What the theorems speak of *)

(** A base whose objects, at every depth, are plain records: distinct
    names, no array-like object, no array and no null. *)
Fixpoint record (base : JS) : bool :=
  match base with
  | Obj ms =>
      bool_decide (NoDup (fst <$> ms)) &&
      bool_decide (array_like (Obj ms) = None) &&
      (fix all (l : list (string * JS)) : bool :=
         match l with
         | [] => true
         | (_, v) :: l' =>
             (if decide (typeof v = TObject) then record v else true) && all l'
         end) ms
  | _ => false
  end.

(** No name of the base, at any depth, is an inherited one. *)
Fixpoint own_names (base : JS) : bool :=
  match base with
  | Obj ms =>
      (fix all (l : list (string * JS)) : bool :=
         match l with
         | [] => true
         | (k, v) :: l' => negb (inherited k) && own_names v && all l'
         end) ms
  | Arr items =>
      (fix all (l : list JS) : bool :=
         match l with
         | [] => true
         | v :: l' => own_names v && all l'
         end) items
  | _ => true
  end.

Definition is_object (o : JS) : Prop := ∃ ms, o = Obj ms.

(** The members electron_options sets after the container options. *)
Definition late_keys : list string :=
  ["enableLargerThanScreen"; "enable-plugins"; "webPreferences"; "message";
   "customData"; "permissions"; "preload"; "plugin"; "customRequestHeaders"].

(** newOptions after the block for the container. *)
Definition placed (H : Host) (v : JS) : JS :=
  if inContainer H then container_options v else v.

Definition members (o : JS) : list (string * JS) :=
  match o with
  | Obj ms => ms
  | _ => []
  end.

(** An item normalizePreload lets through: an object whose url is a string
    that is not empty. *)
Definition preload_item (p : JS) : Prop :=
  typeof p = TObject ∧ ∃ s, get p "url" = Str s ∧ s ≠ "".
End ConvertOptions.


(** ** Windows to convert *)

Module Window.
Import ConvertOptions.

Definition host : Host :=
  {| DEFAULT_RESIZE_REGION_BOTTOM_RIGHT_CORNER := num 9;
     DEFAULT_RESIZE_REGION_SIZE := num 7;
     inContainer := true;
     disable_web_security := false;
     JSON_stringify := λ _, "{}" |}.

Definition defaults : JS := five0BaseOptions (num 9) (num 7).

(** A centered window that asks for a height of at least 200 and at most
    150, with a legacy preload and a plugins option that is not a
    boolean. *)
Definition chart : JS :=
  Obj [("name", Str "chart"); ("defaultHeight", num 100);
       ("minHeight", num 200); ("maxHeight", num 150);
       ("defaultCentered", Bool true); ("webSecurity", Bool false);
       ("plugins", Str "yes"); ("message", Str "hi");
       ("preload", Str "a.js")].

(** A window too high and too narrow for its bounds. *)
Definition tall : JS :=
  Obj [("defaultHeight", num 1000); ("minHeight", num 200);
       ("maxHeight", num 600); ("defaultWidth", num 100);
       ("minWidth", num 300); ("frame", Str "no"); ("extra", num 1)].

Definition validated (options : JS) : JS :=
  validate_defined defaults options.

(** newOptions before it is serialized, and the object answered. *)
Definition newOptions (options : JS) : JS :=
  match electron_options host options with
  | inr (_, o) => o
  | inl _ => Undefined
  end.

Definition converted (options : JS) : JS := roundtrip (newOptions options).

(** A small base: a leaf and a nested record. *)
Definition base : list (string * JS) :=
  [("frame", Bool true); ("accelerator", Obj [("zoom", Bool false)])].

Definition scripts : JS :=
  Arr [Obj [("url", Str "a.js")]; Obj [("url", Str "")];
       Obj [("url", Str "b.js"); ("optional", Bool true)]].
End Window.

(** * Fetching the manifest (fetchOptions)

    fetchOptions finds the manifest named on the command line, over the
    network or on disk, and falls back on the local copy when that copy
    allows offline access.  What it reads from outside is given by a
    [World]; what it does (log lines, calls of the two callbacks) is
    written to a trace, in the order it happens once the file system and
    the fetcher have answered. *)

Module FetchOptions.
Import ConvertOptions.

Record World := mkWorld {
  JSON_parse : string → Thrown + JS;
  (* fs.readFileSync(path): the contents, or the error thrown *)
  fs_readFileSync : JS → Thrown + string;
  (* path.resolve(filePath) for a string *)
  path_resolve : string → string;
  (* what fs.readFile(normalizedPath, 'utf8', ...) calls back with: an error
     or the data *)
  fs_readFile : string → Thrown + string;
  (* the data of 'fetch-complete' when its status is 'success' *)
  fetch : string → option string;
  regex_isURL : string → bool;
  regex_isURI : string → bool;
  regex_uriToPath : string → string }.

Inductive Line :=
| Requested (filePath : JS)
| Normalized (normalizedPath : string)
| ContentsFrom (source : string)
| Data (data : string)
| Fetching (url : string)
| FallingBack (configUrl : JS)
| Caught (err : Thrown).

Inductive Event :=
| Log (line : Line)                        (* log.writeToLog(1, line, true) *)
| Complete (configObject configUrl : JS)   (* onComplete({configObject, configUrl}) *)
| Error (err : Thrown).                    (* onError(err) *)

(** A run writes a trace and returns or throws. *)
Definition Run (A : Type) : Type := list Event * (Thrown + A).

Definition ret {A} (a : A) : Run A := ([], inr a).
Definition throw {A} (e : Thrown) : Run A := ([], inl e).
Definition tell (e : Event) : Run unit := ([e], inr tt).
Definition lift {A} (r : Thrown + A) : Run A := ([], r).

Definition bind {A B} (m : Run A) (k : A → Run B) : Run B :=
  match snd m with
  | inl e => (fst m, inl e)
  | inr a => (fst m ++ fst (k a), snd (k a))
  end.

Definition try_catch {A} (m : Run A) (handler : Thrown → Run A) : Run A :=
  match snd m with
  | inl e => (fst m ++ fst (handler e), snd (handler e))
  | inr a => m
  end.

Definition then_ {A} (m : Run unit) (k : Run A) : Run A := bind m (λ _, k).

(** A callback of the caller: not a function, or a function that returns
    or throws. *)
Definition Callback (A : Type) : Type := option (A → option Thrown).

Section Fetch.
Variable W : World.
Variable onComplete : Callback (JS * JS).
Variable onError : Callback Thrown.

Definition call_onComplete (configObject configUrl : JS) : Run unit :=
  match onComplete with
  | None => throw (Err "onComplete is not a function")
  | Some f =>
      then_ (tell (Complete configObject configUrl))
            (match f (configObject, configUrl) with
             | Some e => throw e
             | None => ret tt
             end)
  end.

Definition call_onError (err : Thrown) : Run unit :=
  match onError with
  | None => throw (Err "onError is not a function")
  | Some f =>
      then_ (tell (Error err))
            (match f err with
             | Some e => throw e
             | None => ret tt
             end)
  end.

Definition readFile (filePath : JS) (done : JS → Run unit)
           (onError : Thrown → Run unit) : Run unit :=
  then_ (tell (Log (Requested filePath)))
    match filePath with
    | Str p =>
        let normalizedPath := path_resolve W p in
        then_ (tell (Log (Normalized normalizedPath)))
          match fs_readFile W normalizedPath with
          | inl err => onError err
          | inr data =>
              then_ (tell (Log (ContentsFrom normalizedPath)))
             (then_ (tell (Log (Data data)))
                match JSON_parse W data with
                | inl e => onError e
                | inr config => done config
                end)
          end
    | _ => throw (Err "Path must be a string")
    end.

Definition getURL (url : string) (done : JS → Run unit)
           (onError : Thrown → Run unit) : Run unit :=
  then_ (tell (Log (Fetching url)))
    match fetch W url with
    | None => onError (Err ("Could not retrieve " +:+ url))
    | Some data =>
        then_ (tell (Log (ContentsFrom url)))
       (then_ (tell (Log (Data data)))
          (try_catch (bind (lift (JSON_parse W data)) done)
             (λ _, onError (Err ("Error parsing JSON from " +:+ url)))))
    end.

Definition fetchLocalConfig (configUrl : JS)
           (successCallback : JS → JS → Run unit)
           (errorCallback : Thrown → Run unit) : Run unit :=
  then_ (tell (Log (FallingBack configUrl)))
        (readFile configUrl (λ configObject, successCallback configObject configUrl)
                  errorCallback).

(** v[key], which throws on undefined and null *)
Definition read (v : JS) (key : string) : Thrown + JS :=
  if nullish v
  then inl (Err ("Cannot read property '" +:+ key +:+ "' of " +:+ nullish_name v))
  else inr (get v key).

(** a || b *)
Definition js_or (a b : JS) : JS := if truthy a then a else b.

(** configUrl.replace with the pattern of every double quote and the
    empty string *)
Definition double_quote : Ascii.ascii := Ascii.ascii_of_nat 34.

Fixpoint remove_quotes (s : string) : string :=
  match s with
  | EmptyString => EmptyString
  | String c s' =>
      if decide (c = double_quote) then remove_quotes s'
      else String c (remove_quotes s')
  end.

(** Whether the local copy allows offline access, with the log line of the
    catch. *)
Definition offline_access (localConfigPath : JS) : Run bool :=
  if truthy localConfigPath then
    try_catch
      (bind (lift (fs_readFileSync W localConfigPath)) (λ text,
       bind (lift (JSON_parse W text)) (λ localConfig,
       bind (lift (read localConfig "offlineAccess")) (λ flag,
       ret (truthy flag)))))
      (λ err, then_ (tell (Log (Caught err))) (ret false))
  else ret false.

Definition fetchOptions (argo : JS) : Run unit :=
  bind (lift (read argo "startup-url")) (λ startup_url,
  let configUrl := js_or startup_url (get argo "config") in
  let localConfigPath := get argo "local-startup-url" in
  bind (offline_access localConfigPath) (λ offlineAccess,
  let errorCallback (err : Thrown) : Run unit :=
    if offlineAccess
    then fetchLocalConfig localConfigPath call_onComplete call_onError
    else call_onError err in
  let configUrl := match configUrl with
                   | Str s => s
                   | _ => ""
                   end in
  let configUrl := remove_quotes configUrl in
  if decide (configUrl = "") then
    match onError with
    | Some _ => call_onError (Err "missing runtime argument --startup-url")
    | None => ret tt
    end
  else if regex_isURL W configUrl then
    getURL configUrl
           (λ configObject, call_onComplete configObject (Str configUrl))
           errorCallback
  else
    let filepath := if regex_isURI W configUrl
                    then regex_uriToPath W configUrl else configUrl in
    readFile (Str filepath)
             (λ configObject, call_onComplete configObject (Str configUrl))
             errorCallback)).
End Fetch.

(** The calls of the two callbacks in a trace. *)
Definition report_of (e : Event) : option Event :=
  match e with
  | Log _ => None
  | _ => Some e
  end.

Definition reports (tr : list Event) : list Event := omap report_of tr.

(** What is read from outside, by the fetcher or from disk. *)
Definition reading_of (e : Event) : option Line :=
  match e with
  | Log (Requested p) => Some (Requested p)
  | Log (Fetching u) => Some (Fetching u)
  | _ => None
  end.

Definition readings (tr : list Event) : list Line := omap reading_of tr.

(** The run returns after exactly one call of a callback. *)
Definition once (m : Run unit) : Prop :=
  ∃ r, reports (fst m) = [r] ∧ snd m = inr tt.

(** The run writes log lines only and returns. *)
Definition quiet {A} (m : Run A) : Prop :=
  reports (fst m) = [] ∧ ∃ a, snd m = inr a.

(** A callback that is a function and never throws. *)
Definition returns {A} (c : Callback A) : Prop :=
  ∃ f, c = Some f ∧ ∀ a, f a = None.
End FetchOptions.


(** ** A process to start *)

Module Startup.
Import ConvertOptions FetchOptions.

Definition manifest : JS :=
  Obj [("startup_app", Obj [("uuid", Str "chart")]);
       ("offlineAccess", Bool true)].

Definition parse (text : string) : Thrown + JS :=
  if decide (text = "manifest") then inr manifest
  else inl (Err "Unexpected token").

(** One file on disk, app.json, and one manifest on the network. *)
Definition world : World :=
  {| JSON_parse := parse;
     fs_readFileSync := λ p,
       match p with
       | Str s => if decide (s = "app.json") then inr "manifest"
                  else inl (Err "ENOENT")
       | _ => inl (Err "ENOENT")
       end;
     path_resolve := λ p, p;
     fs_readFile := λ p,
       if decide (p = "app.json") then inr "manifest" else inl (Err "ENOENT");
     fetch := λ url,
       if decide (url = "https://example.com/up.json") then Some "manifest"
       else None;
     regex_isURL := String.prefix "http";
     regex_isURI := String.prefix "file:";
     regex_uriToPath := λ s, s |}.


Definition down : JS :=
  Obj [("startup-url", Str "https://example.com/down.json");
       ("local-startup-url", Str "app.json")].

Definition unnamed : JS := Obj [("local-startup-url", Str "app.json")].

Definition listens {A} : Callback A := Some (λ _, None).
End Startup.

(** ** Running the operations *)

Ltac run :=
  cbv beta iota delta [bind ret throw lift gets modify effect writeToLog
                       try_catch toString raised caught];
  cbn [fst snd set_messageIdToCallback set_heap set_guids set_timers
       set_clock set_trace appended messageIdToCallback events sessionId
       heap guids timers clock trace from_option Datatypes.id].

Ltac proj :=
  cbn [fst snd trace appended set_trace messageIdToCallback
       set_messageIdToCallback].

Section Handler.
Variable E : Env.

Lemma appended_nil s : appended s [] = s.
Proof. destruct s. unfold appended, set_trace. cbn. by rewrite app_nil_r. Qed.

Lemma appended_app s tr1 tr2 :
  appended (appended s tr1) tr2 = appended s (tr1 ++ tr2).
Proof. unfold appended, set_trace. cbn. by rewrite app_assoc. Qed.

Lemma call_user_appended f arg s :
  call_user E f arg s =
    (appended s [Call (CbUser f) arg],
     match user_function E f arg with
     | Some e => Throw e
     | None => Return tt
     end).
Proof.
  unfold call_user. run. by destruct (user_function E f arg).
Qed.

Lemma downloadRuntime_response_appended callback arg s :
  ∃ tr o, downloadRuntime_response E callback arg s = (appended s tr, o).
Proof.
  unfold downloadRuntime_response. run.
  destruct (response_payload arg) as [e|pl]; run.
  { exists [], (Throw e). by rewrite appended_nil. }
  destruct (get_prop pl "error") as [e|err]; run.
  { exists [], (Throw e). by rewrite appended_nil. }
  destruct (truthy_json err).
  - destruct (to_string E (default JNull err)) as [e|msg]; run.
    + exists [], (Throw e). by rewrite appended_nil.
    + rewrite call_user_appended. eauto.
  - rewrite call_user_appended. eauto.
Qed.

Lemma invoke_appended cb arg s :
  ∃ tr o, invoke E cb arg s = (appended s (Call cb arg :: tr), o).
Proof.
  destruct cb as [|f|f]; unfold invoke.
  - by exists [], (Return tt).
  - rewrite call_user_appended. eauto.
  - run.
    destruct (downloadRuntime_response_appended f arg
                (appended s [Call (CbDownloadRuntime f) arg])) as (tr & o & H).
    rewrite H, appended_app. destruct o; eauto.
Qed.

Lemma call_listeners_appended fs arg s :
  ∃ o, call_listeners E fs arg s =
         (appended s (map (λ f, Call (CbUser f) arg) (entered E fs arg)), o).
Proof.
  revert s. induction fs as [|f fs IH]; intros s; cbn [call_listeners entered].
  - exists (Return tt). by rewrite appended_nil.
  - run. rewrite call_user_appended.
    destruct (user_function E f arg) as [e|].
    + by exists (Throw e).
    + destruct (IH (appended s [Call (CbUser f) arg])) as [o ->].
      rewrite appended_app. by exists o.
Qed.

Lemma entered_all fs arg :
  (∀ f, f ∈ fs → user_function E f arg = None) → entered E fs arg = fs.
Proof.
  induction fs as [|f fs IH]; intros H; cbn [entered]; [done|].
  rewrite H by apply list_elem_of_here.
  rewrite IH; [done|]. intros g Hg. apply H. by apply list_elem_of_further.
Qed.

Lemma emit_appended event arg s :
  ∃ o, emit E event arg s =
         (appended s (map (λ f, Call (CbUser f) (ArgData arg))
                          (entered E (default [] (events s !! event))
                                     (ArgData arg))), o).
Proof.
  unfold emit. run.
  destruct (default [] (events s !! event)) as [|f fs] eqn:Hls.
  - cbn [entered map]. rewrite appended_nil. destruct (decide _); eauto.
  - destruct (call_listeners_appended (f :: fs) (ArgData arg) s) as [o ->].
    destruct o; eauto.
Qed.

Lemma has_messageId ms v :
  assoc "messageId" ms = Some v → _has (JObj ms) "messageId" = true.
Proof. intros H. unfold _has. rewrite H. by apply bool_decide_eq_true. Qed.

Lemma lacks_messageId ms :
  assoc "messageId" ms = None → _has (JObj ms) "messageId" = false.
Proof.
  intros H. unfold _has. rewrite H. apply bool_decide_eq_false.
  by intros [? ?].
Qed.

(** C8: a parsed object without a messageId field is logged and dropped:
    the handler writes its two entry lines and 'messageId not found in
    response.', calls no pending callback and no listener and changes
    nothing else, whatever else the object carries (broadcast, topic,
    payload.action). *)
Theorem no_messageId_unroutable (s : Bus) (hwnd : Z) (data : string) ms :
  JSON_parse E data = inr (JObj ms) →
  assoc "messageId" ms = None →
  onMessage E hwnd data s =
    (appended s [Log Level1 (LogReceivedFrom hwnd);
                 Log Level1 (LogData data);
                 Log Level1 LogNoMessageId],
     Return tt).
Proof.
  intros Hparse Hnone.
  unfold onMessage, onMessage_body. run.
  rewrite Hparse. run.
  rewrite (lacks_messageId _ Hnone). run.
  by rewrite !appended_app.
Qed.

Lemma get_prop_Err v key e : get_prop v key = inl e → ∃ m, e = Err m.
Proof. destruct v as [[]|]; cbn; intros [= <-]; eauto. Qed.

Lemma to_string_Err j e : to_string E j = inl e → ∃ m, e = Err m.
Proof.
  destruct j; cbn [to_string]; try done;
    (destruct (toStringOther E _); cbn; intros [= <-]; eauto).
Qed.

Lemma response_payload_Err arg e :
  response_payload arg = inl e → ∃ m, e = Err m.
Proof.
  unfold response_payload. destruct arg; try (intros [= <-]; by eauto);
    try apply get_prop_Err.
Qed.

(** What reaches the catch is an Error of the handler's own making or a
    value a function of the caller threw. *)
Lemma invoke_thrown cb arg s e :
  snd (invoke E cb arg s) = Throw e →
  (∃ m, e = Err m) ∨ thrown_by_caller E e.
Proof.
  destruct cb as [|f|f]; unfold invoke.
  - done.
  - rewrite call_user_appended. cbn [snd].
    destruct (user_function E f arg) as [e'|] eqn:Hf; [|done].
    intros [= <-]. right. by exists f, arg.
  - unfold downloadRuntime_response. run.
    destruct (response_payload arg) as [e'|pl] eqn:Hpl; run.
    { intros [= <-]. left. by apply (response_payload_Err arg). }
    destruct (get_prop pl "error") as [e'|err] eqn:Herr; run.
    { intros [= <-]. left. by apply (get_prop_Err pl "error"). }
    destruct (truthy_json err).
    + destruct (to_string E (default JNull err)) as [e'|msg] eqn:Hs; run.
      * intros [= <-]. left. by apply (to_string_Err (default JNull err)).
      * rewrite call_user_appended. cbn [snd].
        destruct (user_function E f (ArgError msg)) as [e'|] eqn:Hf; [|done].
        intros [= <-]. right. by exists f, (ArgError msg).
    + rewrite call_user_appended. cbn [snd].
      destruct (user_function E f ArgNone) as [e'|] eqn:Hf; [|done].
      intros [= <-]. right. by exists f, ArgNone.
Qed.

Lemma call_listeners_thrown fs arg s e :
  snd (call_listeners E fs arg s) = Throw e → thrown_by_caller E e.
Proof.
  revert s. induction fs as [|f fs IH]; intros s; cbn [call_listeners].
  - done.
  - run. rewrite call_user_appended.
    destruct (user_function E f arg) as [e'|] eqn:Hf.
    + intros [= <-]. by exists f, arg.
    + apply IH.
Qed.

Lemma emit_thrown event arg s e :
  snd (emit E event arg s) = Throw e →
  (∃ m, e = Err m) ∨ thrown_by_caller E e.
Proof.
  unfold emit. run.
  destruct (default [] (events s !! event)) as [|f fs] eqn:Hls.
  - destruct (decide _); [|done]. intros [= <-]. eauto.
  - pose proof (call_listeners_thrown (f :: fs) (ArgData arg) s e) as H.
    destruct (call_listeners E (f :: fs) (ArgData arg) s) as [s1 [[]|e']];
      [done|]. intros [= <-]. right. by apply H.
Qed.

(** How the handler ends on what reached its catch. *)
Lemma caught_appended e s :
  ((∃ m, e = Err m) ∨ thrown_by_caller E e) →
  ∃ tr o, caught e s = (appended s tr, o) ∧
          (o = Return tt ∨
           ∃ error, o = Throw (Err error) ∧
                    thrown_by_caller E (NoMessage error)).
Proof.
  intros He. destruct e as [m|error]; unfold caught; run.
  - eexists _, _. split; [reflexivity|]. by left.
  - exists [], (Throw (Err error)). rewrite appended_nil.
    split; [done|]. right. exists error. split; [done|].
    by destruct He as [[m [=]]|He].
Qed.

(** The handler leaves the state as it was but for the trace and, when a
    pending entry was addressed and its callback returned, that entry.  It
    returns, unless a function of a caller threw null or undefined: then
    the TypeError of the catch leaves the handler. *)
Lemma onMessage_shape (s : Bus) (hwnd : Z) (data : string) :
  ∃ tr o,
    (onMessage E hwnd data s = (appended s tr, o) ∨
     ∃ key cb,
       response_key E data = Some key ∧
       messageIdToCallback s !! key = Some cb ∧
       o = Return tt ∧
       onMessage E hwnd data s =
         (set_messageIdToCallback (delete key (messageIdToCallback s))
            (appended s tr), Return tt)) ∧
    (o = Return tt ∨
     ∃ error, o = Throw (Err error) ∧ thrown_by_caller E (NoMessage error)).
Proof.
  unfold onMessage, onMessage_body, response_key. run.
  destruct (JSON_parse E data) as [m|dataObj]; run.
  { rewrite !appended_app. eexists _, _. split; [by left|by left]. }
  destruct (_has dataObj "messageId") eqn:Hhas; run.
  2: { rewrite !appended_app. eexists _, _. split; [by left|by left]. }
  destruct (get_prop (Some dataObj) "broadcast") as [e|bc] eqn:Hbc; run.
  { apply get_prop_Err in Hbc as [m ->]. run. rewrite !appended_app.
    eexists _, _. split; [by left|by left]. }
  destruct (to_string E (dataObj_messageId dataObj)) as [e|key] eqn:Hkey; run.
  { apply to_string_Err in Hkey as [m ->]. run. rewrite !appended_app.
    eexists _, _. split; [by left|by left]. }
  destruct (messageIdToCallback s !! key) as [cb|] eqn:Hcb.
  - match goal with |- context [invoke E cb ?a ?st] =>
      pose proof (invoke_thrown cb a st) as Hth;
      destruct (invoke_appended cb a st) as (tr & o & Hinv) end.
    rewrite Hinv in Hth |- *. cbn [snd] in Hth.
    destruct o as [[]|[m|error]]; run; rewrite !appended_app.
    + eexists _, (Return tt). split; [|by left].
      right. exists key, cb. proj. eauto.
    + eexists _, _. split; [by left|by left].
    + eexists _, _. split; [by left|]. right. exists error. split; [done|].
      by destruct (Hth _ eq_refl) as [[m [=]]|H].
  - destruct (truthy_json bc).
    + destruct (get_prop (Some dataObj) "topic") as [e|tp] eqn:Htp; run.
      { apply get_prop_Err in Htp as [m ->]. run. rewrite !appended_app.
        eexists _, _. split; [by left|by left]. }
      destruct (get_prop (Some dataObj) "payload") as [e|pl] eqn:Hpl; run.
      { apply get_prop_Err in Hpl as [m ->]. run. rewrite !appended_app.
        eexists _, _. split; [by left|by left]. }
      destruct (get_prop pl "action") as [e|ac] eqn:Hac; run.
      { apply get_prop_Err in Hac as [m ->]. run. rewrite !appended_app.
        eexists _, _. split; [by left|by left]. }
      destruct (truthy_json tp && truthy_json pl && truthy_json ac).
      * match goal with |- context [emit E ?ev ?a ?st] =>
          pose proof (emit_thrown ev a st) as Hth;
          destruct (emit_appended ev a st) as (o & Hem) end.
        rewrite Hem in Hth |- *. cbn [snd] in Hth.
        destruct o as [b|[m|error]]; run; rewrite !appended_app.
        -- eexists _, _. split; [by left|by left].
        -- eexists _, _. split; [by left|by left].
        -- eexists _, _. split; [by left|]. right. exists error.
           split; [done|]. by destruct (Hth _ eq_refl) as [[m [=]]|H].
      * destruct (to_string E dataObj) as [e|text] eqn:Htext; run.
        -- apply to_string_Err in Htext as [m ->]. run. rewrite !appended_app.
           eexists _, _. split; [by left|by left].
        -- rewrite !appended_app. eexists _, _. split; [by left|by left].
    + run. rewrite !appended_app. eexists _, _. split; [by left|by left].
Qed.

Lemma onMessage_table (s : Bus) (hwnd : Z) (data : string) :
  let s' := fst (onMessage E hwnd data s) in
  (∀ k, response_key E data ≠ Some k →
        messageIdToCallback s' !! k = messageIdToCallback s !! k) ∧
  ((∀ k, response_key E data = Some k →
         messageIdToCallback s !! k = None) →
   messageIdToCallback s' = messageIdToCallback s).
Proof.
  destruct (onMessage_shape s hwnd data)
    as (tr & o & [H|(key & cb & Hk & Hcb & _ & H)] & _);
    cbv zeta; rewrite H; proj.
  - done.
  - split.
    + intros k Hne. rewrite lookup_delete_ne; [done|congruence].
    + intros Hnone. specialize (Hnone key Hk). congruence.
Qed.

(** X30: every error of the handler's own making is contained.  Whatever the
    transport delivers, the handler returns as long as no function of a
    caller throws null or undefined: what does not parse, what lacks a
    field that is read, a callback or a listener that throws an Error are
    all logged by the catch.  Only the entry the message addresses can
    leave the table; a message that does not parse, has no messageId or
    addresses no pending entry leaves the whole table as it was. *)
Theorem onMessage_contained (s : Bus) (hwnd : Z) (data : string) :
  (∀ f arg error, user_function E f arg ≠ Some (NoMessage error)) →
  ∃ s', onMessage E hwnd data s = (s', Return tt) ∧
    (∀ k, response_key E data ≠ Some k →
          messageIdToCallback s' !! k = messageIdToCallback s !! k) ∧
    ((∀ k, response_key E data = Some k →
           messageIdToCallback s !! k = None) →
     messageIdToCallback s' = messageIdToCallback s).
Proof.
  intros Hsafe. pose proof (onMessage_table s hwnd data) as Htable.
  destruct (onMessage_shape s hwnd data) as (tr & o & Hshape & Ho).
  assert (Hret : snd (onMessage E hwnd data s) = Return tt).
  { destruct Ho as [->|(error & -> & f & arg & Hf)].
    - by destruct Hshape as [->|(? & ? & _ & _ & _ & ->)].
    - by destruct (Hsafe f arg error). }
  destruct (onMessage E hwnd data s) as [s' o']. cbn [fst snd] in *.
  subst o'. by exists s'.
Qed.

(** C5 (the code at the failing input): a pending callback that throws
    null or undefined takes the handler down.  The catch reads [e.message]
    of what was thrown, which throws a TypeError of its own, and that one
    leaves the handler; the log line of the catch is not written and the
    entry stays in the table. *)
Theorem thrown_null_escapes (s : Bus) (hwnd : Z) (data : string) ms id key f
        error :
  JSON_parse E data = inr (JObj ms) →
  assoc "messageId" ms = Some id →
  to_string E id = inr key →
  messageIdToCallback s !! key = Some (CbUser f) →
  user_function E f (ArgData (JObj ms)) = Some (NoMessage error) →
  onMessage E hwnd data s =
    (appended s [Log Level1 (LogReceivedFrom hwnd);
                 Log Level1 (LogData data);
                 Call (CbUser f) (ArgData (JObj ms))],
     Throw (Err error)).
Proof.
  intros Hparse Hid Hkey Hcb Hf.
  unfold onMessage, onMessage_body, delete_callback. run.
  rewrite Hparse. run.
  rewrite (has_messageId _ _ Hid). run.
  unfold dataObj_messageId. rewrite Hid. cbn [get_prop]. run.
  rewrite Hkey. run. rewrite Hcb. unfold invoke.
  rewrite call_user_appended, Hf, !appended_app. by run.
Qed.
End Handler.

Section Publish.
Variable E : Env.

Lemma fresh_unused (h : gmap loc Obj) : h !! fresh (dom h) = None.
Proof. apply not_elem_of_dom, is_fresh. Qed.

Lemma fresh_other (h : gmap loc Obj) l o : h !! l = Some o → fresh (dom h) ≠ l.
Proof. intros H Heq. rewrite <- Heq in H. by rewrite fresh_unused in H. Qed.

Lemma object_at_insert_ne (h : gmap loc Obj) l l' o :
  l ≠ l' → object_at (<[l := o]> h) l' = object_at h l'.
Proof. intros H. unfold object_at. by rewrite lookup_insert_ne. Qed.

Lemma object_at_insert_eq (h : gmap loc Obj) l o :
  object_at (<[l := o]> h) l = o.
Proof. unfold object_at. by rewrite lookup_insert_eq. Qed.

(** C6: given anything that is not an object (undefined, null, a
    boolean, a number, a string, a function) publish writes the error line
    'Argument must be an object' and returns false; nothing is sent and the
    table, like the rest of the state, is as before. *)
Theorem publish_non_object (s : Bus) (msg : Value) (callback : option Callback) :
  (∀ l, msg ≠ VObj l) →
  publish E msg callback s =
    (appended s [Log LevelERROR LogNotObject], Return false).
Proof.
  intros H. unfold publish.
  destruct msg as [| |b|n|t|l|l]; cbn [truthy typeof_object negb];
    rewrite ?orb_true_r; try reflexivity.
  by destruct (H l).
Qed.

Lemma recordCallbackInfo_spec cb ttl envelope s :
  recordCallbackInfo (Some cb) ttl envelope s =
    (set_timers (timers s ++ armed (clock s) ttl envelope)
       (set_messageIdToCallback
          (<[messageId envelope := cb]> (messageIdToCallback s)) s),
     Return tt).
Proof.
  unfold recordCallbackInfo, armed, setTimeout. run.
  destruct ttl; run; try reflexivity;
    destruct s; unfold set_timers, set_messageIdToCallback; cbn;
    by rewrite app_nil_r.
Qed.

Lemma object_at_Some (h : gmap loc Obj) l o : h !! l = Some o → object_at h l = o.
Proof. intros H. unfold object_at. by rewrite H. Qed.

(** The state publish reaches before it logs the envelope and hands it to
    the transport. *)
Lemma publish_steps (s : Bus) l o callback :
  heap s !! l = Some o →
  let envelope :=
    mkEnvelope (default VUndefined (o !! "topic"))
               (app_generateGUID E (guids s)) (fresh (dom (heap s))) in
  let registered :=
    mkBus (<[messageId envelope := default CbNoop callback]>
             (messageIdToCallback s))
          (events s) (sessionId s)
          (<[payload envelope := delete "topic" (o ∪ process_metadata E)]>
             (heap s))
          (S (guids s))
          (timers s ++ armed (clock s) (default VUndefined (o !! "timeToLive"))
                             envelope)
          (clock s) (trace s) in
  publish E (VObj l) callback s =
    transport_send E envelope
      (appended registered [Log Level1 (LogEnvelope envelope)]).
Proof.
  intros Hl envelope registered.
  unfold publish. cbn [truthy typeof_object negb orb].
  unfold alloc, Object_assign, delete_property, generateGUID. run.
  rewrite recordCallbackInfo_spec. run.
  unfold get_field, own_props.
  rewrite !(object_at_insert_ne (heap s) (fresh (dom (heap s))) l)
    by apply (fresh_other _ _ _ Hl).
  rewrite !object_at_insert_eq, !insert_insert_eq.
  rewrite (object_at_Some _ _ _ Hl).
  reflexivity.
Qed.

Lemma transport_send_spec envelope s :
  transport_send E envelope s =
    (appended s [Send envelope (transport_publish E envelope)],
     Return (transport_publish E envelope)).
Proof. reflexivity. Qed.

Lemma publish_spec (s : Bus) l o callback :
  heap s !! l = Some o →
  let envelope :=
    mkEnvelope (default VUndefined (o !! "topic"))
               (app_generateGUID E (guids s)) (fresh (dom (heap s))) in
  publish E (VObj l) callback s =
    (mkBus (<[messageId envelope := default CbNoop callback]>
              (messageIdToCallback s))
           (events s) (sessionId s)
           (<[payload envelope := delete "topic" (o ∪ process_metadata E)]>
              (heap s))
           (S (guids s))
           (timers s ++ armed (clock s) (default VUndefined (o !! "timeToLive"))
                              envelope)
           (clock s)
           (trace s ++ [Log Level1 (LogEnvelope envelope);
                        Send envelope (transport_publish E envelope)]),
     Return (transport_publish E envelope)).
Proof.
  intros Hl envelope. rewrite (publish_steps s l o callback Hl).
  rewrite transport_send_spec. unfold appended, set_trace. cbn.
  by rewrite <- app_assoc.
Qed.

Lemma process_metadata_processId :
  process_metadata E !! "processId" = Some (VNum (process_pid E)).
Proof. unfold process_metadata. apply lookup_insert_eq. Qed.

Lemma process_metadata_runtimeVersion :
  process_metadata E !! "runtimeVersion" = Some (processVersions_openfin E).
Proof.
  unfold process_metadata.
  etrans; [by apply lookup_insert_ne|apply lookup_singleton_eq].
Qed.

Lemma process_metadata_other k :
  k ≠ "processId" → k ≠ "runtimeVersion" → process_metadata E !! k = None.
Proof.
  intros Hp Hr. unfold process_metadata.
  etrans; [by apply lookup_insert_ne|by apply lookup_singleton_ne].
Qed.

(** C3: publish of an object builds the envelope {topic: the message's
    topic, messageId: the next GUID of app.generateGUID, payload: a new
    object}; the payload holds every field of the message but topic, with
    processId (process.pid) and runtimeVersion (process.versions.openfin)
    for the names the message does not set, and nothing else.
    The callback (the no-op when none is given) is in the table under the
    messageId before the envelope is logged and handed to the transport,
    and what the transport answers is returned. *)
Theorem publish_sends_envelope (s : Bus) l o callback :
  heap s !! l = Some o →
  let envelope :=
    mkEnvelope (default VUndefined (o !! "topic"))
               (app_generateGUID E (guids s)) (fresh (dom (heap s))) in
  let body := delete "topic" (o ∪ process_metadata E) in
  ∃ registered,
    publish E (VObj l) callback s =
      transport_send E envelope
        (appended registered [Log Level1 (LogEnvelope envelope)]) ∧
    trace registered = trace s ∧
    guids registered = S (guids s) ∧
    messageIdToCallback registered !! messageId envelope =
      Some (default CbNoop callback) ∧
    heap s !! payload envelope = None ∧
    heap registered !! payload envelope = Some body ∧
    snd (publish E (VObj l) callback s) =
      Return (transport_publish E envelope) ∧
    trace (fst (publish E (VObj l) callback s)) =
      trace s ++ [Log Level1 (LogEnvelope envelope);
                  Send envelope (transport_publish E envelope)] ∧
    body !! "topic" = None ∧
    (∀ k v, k ≠ "topic" → o !! k = Some v → body !! k = Some v) ∧
    (∀ k, k ≠ "topic" → o !! k = None →
          body !! k = process_metadata E !! k) ∧
    (o !! "processId" = None →
     body !! "processId" = Some (VNum (process_pid E))) ∧
    (o !! "runtimeVersion" = None →
     body !! "runtimeVersion" = Some (processVersions_openfin E)) ∧
    (∀ k, k ≠ "processId" → k ≠ "runtimeVersion" → o !! k = None →
          body !! k = None).
Proof.
  intros Hl envelope body.
  assert (Hmeta : ∀ k, k ≠ "topic" → o !! k = None →
            body !! k = process_metadata E !! k).
  { intros k Hk Hv. unfold body.
    rewrite lookup_delete_ne by done.
    by rewrite lookup_union_r. }
  eexists. split; [apply (publish_steps s l o callback Hl)|].
  rewrite (publish_spec s l o callback Hl). cbn.
  repeat split.
  - by rewrite lookup_insert_eq.
  - apply fresh_unused.
  - by rewrite lookup_insert_eq.
  - unfold body. by rewrite lookup_delete_eq.
  - intros k v Hk Hv. unfold body.
    rewrite lookup_delete_ne by done.
    by rewrite (lookup_union_Some_l _ _ _ _ Hv).
  - exact Hmeta.
  - intros Ho. rewrite Hmeta by done. apply process_metadata_processId.
  - intros Ho. rewrite Hmeta by done.
    apply process_metadata_runtimeVersion.
  - intros k Hp Hr Ho. destruct (decide (k = "topic")) as [->|Hk].
    + unfold body. by rewrite lookup_delete_eq.
    + rewrite Hmeta by done. by apply process_metadata_other.
Qed.

(** C10: publish writes to no object it was given.  The message, and every
    other object that was in the heap, holds after the call exactly the
    properties it held before, topic included: the copy is a new object,
    and only the copy loses its topic and takes the process metadata. *)
Theorem publish_leaves_message (s : Bus) l o callback :
  heap s !! l = Some o →
  ∀ l' o', heap s !! l' = Some o' →
           heap (fst (publish E (VObj l) callback s)) !! l' = Some o'.
Proof.
  intros Hl l' o' Hl'. rewrite (publish_spec s l o callback Hl). cbn.
  rewrite lookup_insert_ne; [done|]. by apply (fresh_other _ _ _ Hl').
Qed.
End Publish.

Lemma calls_app tr1 tr2 : calls (tr1 ++ tr2) = calls tr1 ++ calls tr2.
Proof. apply omap_app. Qed.

Lemma calls_map_Call (fs : list nat) arg :
  calls (map (λ f, Call (CbUser f) arg) fs) = map (λ f, (CbUser f, arg)) fs.
Proof. induction fs as [|f fs IH]; cbn; [done|]. by rewrite <- IH. Qed.

Ltac calls_done :=
  rewrite ?calls_app, ?calls_map_Call; cbn;
  rewrite ?app_nil_r, <- ?app_assoc; done.

Section Correlation.
Variable E : Env.

(** *** Time to live *)

Lemma run_timer_nothing t s : run_timer E t s = (s, Return tt).
Proof. reflexivity. Qed.

Lemma run_timers_nothing ts s : run_timers E ts s = s.
Proof. revert s. induction ts as [|t ts IH]; intros s; cbn; [done|apply IH]. Qed.

Lemma elapse_spec ms s :
  elapse E ms s =
    set_timers (filter (λ t, timer_due (clock s + ms) t = false) (timers s))
               (set_clock (clock s + ms)%Z s).
Proof. unfold elapse. by rewrite run_timers_nothing. Qed.

Lemma elapses_quiet (waits : list Z) s :
  trace (foldl (λ st ms, elapse E ms st) s waits) = trace s ∧
  messageIdToCallback (foldl (λ st ms, elapse E ms st) s waits) =
    messageIdToCallback s.
Proof.
  revert s. induction waits as [|ms waits IH]; intros s; cbn [foldl]; [done|].
  destruct (IH (elapse E ms s)) as [-> ->]. by rewrite elapse_spec.
Qed.

(** Had the closure been bound to the bus, as the arrow function of the
    'message' handler is, a timer that finds its entry would call the
    callback with the expiry notice and remove the entry. *)
Lemma timer_closure_bound t cb s :
  messageIdToCallback s !! timer_messageId t = Some cb →
  timer_closure E ThisBus t s =
    match invoke E cb (ArgExpired (timer_timeToLive t) (timer_envelope t)) s with
    | (s1, Return _) =>
        (set_messageIdToCallback
           (delete (timer_messageId t) (messageIdToCallback s1)) s1,
         Return tt)
    | (s1, Throw e) => (s1, Throw e)
    end.
Proof.
  intros H. unfold timer_closure, this_messageIdToCallback, delete_callback.
  run. rewrite H.
  by destruct (invoke E cb _ s) as [s1 [[]|e]].
Qed.

(** C2: a request published with timeToLive T arms a timer of T*1000 ms
    under its messageId, but the timer never delivers: its closure is a
    [function() {...}] that looks the table up on [this], which is the
    Timeout object when the timer runs it, so [_.has] answers false.
    However much time passes without a response, in however many turns of
    the timer queue, no callback is called and the entry stays in the
    table. *)
Theorem timeToLive_never_delivered (s : Bus) l o callback (T : Z)
        (waits : list Z) :
  heap s !! l = Some o →
  o !! "timeToLive" = Some (VNum T) →
  let s1 := fst (publish E (VObj l) callback s) in
  let s2 := foldl (λ st ms, elapse E ms st) s1 waits in
  let id := app_generateGUID E (guids s) in
  (∃ envelope,
     timers s1 = timers s ++ [mkTimer (clock s) (T * 1000) id T envelope]) ∧
  trace s2 = trace s1 ∧
  messageIdToCallback s2 !! id = Some (default CbNoop callback).
Proof.
  intros Hl Httl s1 s2 id. subst s2.
  destruct (elapses_quiet waits s1) as [-> ->]. subst s1.
  rewrite (publish_spec E s l o callback Hl). cbn.
  rewrite Httl. cbn. split; [by eexists|].
  split; [done|]. by rewrite lookup_insert_eq.
Qed.

(** *** Responses *)

Lemma onMessage_response s hwnd data ms id key cb :
  JSON_parse E data = inr (JObj ms) →
  assoc "messageId" ms = Some id →
  to_string E id = inr key →
  messageIdToCallback s !! key = Some cb →
  onMessage E hwnd data s =
    match invoke E cb (ArgData (JObj ms))
                 (appended s [Log Level1 (LogReceivedFrom hwnd);
                              Log Level1 (LogData data)]) with
    | (s1, Return _) =>
        (set_messageIdToCallback (delete key (messageIdToCallback s1)) s1,
         Return tt)
    | (s1, Throw e) => caught e s1
    end.
Proof.
  intros Hparse Hid Hkey Hcb.
  unfold onMessage, onMessage_body, delete_callback. run.
  rewrite Hparse. run.
  rewrite (has_messageId _ _ Hid). run.
  unfold dataObj_messageId. rewrite Hid. cbn [get_prop]. run.
  rewrite Hkey. run. rewrite Hcb, !appended_app. cbn [app].
  by destruct (invoke E cb _ _) as [s1 [[]|e]].
Qed.

Lemma onMessage_unmatched s hwnd data ms id key :
  JSON_parse E data = inr (JObj ms) →
  assoc "messageId" ms = Some id →
  to_string E id = inr key →
  messageIdToCallback s !! key = None →
  let s0 := appended s [Log Level1 (LogReceivedFrom hwnd);
                        Log Level1 (LogData data)] in
  onMessage E hwnd data s =
    if truthy_json (assoc "broadcast" ms) then
      match get_prop (assoc "payload" ms) "action" with
      | inl e => caught e s0
      | inr action =>
          if truthy_json (assoc "topic" ms) &&
             truthy_json (assoc "payload" ms) && truthy_json action
          then
            match emit E (route_rvmMessageBus E "broadcast"
                            (assoc "topic" ms) action)
                       (default JNull (assoc "payload" ms)) s0 with
            | (s1, Return _) => (s1, Return tt)
            | (s1, Throw e) => caught e s1
            end
          else
            match to_string E (JObj ms) with
            | inr text =>
                (appended s0 [Log Level1 (LogInvalidBroadcast text)], Return tt)
            | inl e => caught e s0
            end
      end
    else
      (appended s0 [Log Level1 (LogNoOneWaiting key)], Return tt).
Proof.
  intros Hparse Hid Hkey Hcb s0. subst s0.
  unfold onMessage, onMessage_body. run.
  rewrite Hparse. run.
  rewrite (has_messageId _ _ Hid). run.
  unfold dataObj_messageId. rewrite Hid. cbn [get_prop]. run.
  rewrite Hkey. run. rewrite Hcb, !appended_app. cbn [app].
  destruct (truthy_json (assoc "broadcast" ms)); run.
  2: { by rewrite !appended_app. }
  destruct (get_prop (assoc "payload" ms) "action") as [e|action]; run.
  { destruct e; unfold caught; run; by rewrite ?appended_app. }
  destruct (_ && _).
  - by destruct (emit E _ _ _) as [s1 [b|e]].
  - cbn [to_string].
    destruct (toStringOther E (JObj ms)); unfold caught; run;
      by rewrite ?appended_app.
Qed.

Lemma get_prop_throws pl key e :
  get_prop pl key = inl e → truthy_json pl = false.
Proof. by destruct pl as [[]|]. Qed.

(** C4 (amended): a parsed message whose messageId addresses no pending
    entry and whose broadcast field is truthy calls the listeners of the
    channel route.rvmMessageBus('broadcast', topic, action), in the order
    they subscribed and each with the payload, up to the first listener
    that throws (all of them when none throws), and calls nothing else,
    when topic, payload and payload.action are all truthy.  When one of
    them is missing or falsy (an empty string is) the handler writes one
    more log line and calls nothing.  The table is untouched. *)
Theorem broadcast_routed s hwnd data ms id key :
  JSON_parse E data = inr (JObj ms) →
  assoc "messageId" ms = Some id →
  to_string E id = inr key →
  messageIdToCallback s !! key = None →
  truthy_json (assoc "broadcast" ms) = true →
  let topic := assoc "topic" ms in
  let payload := assoc "payload" ms in
  let action := match get_prop payload "action" with
                | inr a => a
                | inl _ => None
                end in
  let channel := route_rvmMessageBus E "broadcast" topic action in
  let listeners := default [] (events s !! channel) in
  let arg := ArgData (default JNull payload) in
  let s' := fst (onMessage E hwnd data s) in
  messageIdToCallback s' = messageIdToCallback s ∧
  (if truthy_json topic && truthy_json payload && truthy_json action then
     calls (trace s') =
       calls (trace s) ++ map (λ f, (CbUser f, arg)) (entered E listeners arg) ∧
     ((∀ f, f ∈ listeners → user_function E f arg = None) →
      entered E listeners arg = listeners)
   else
     ∃ line, trace s' = trace s ++ [Log Level1 (LogReceivedFrom hwnd);
                                    Log Level1 (LogData data);
                                    Log Level1 line]).
Proof.
  intros Hparse Hid Hkey Hcb Hbc topic payload action channel listeners arg s'.
  subst s' arg listeners channel action topic payload.
  rewrite (onMessage_unmatched s hwnd data ms id key Hparse Hid Hkey Hcb).
  rewrite Hbc.
  destruct (get_prop (assoc "payload" ms) "action") as [e|action] eqn:Hac.
  - destruct (get_prop_Err _ _ _ Hac) as [m ->].
    rewrite (get_prop_throws _ _ _ Hac), andb_false_r. unfold caught. run.
    split; [done|]. rewrite <- app_assoc. eauto.
  - destruct (_ && _ && _).
    + split; [|split; [|apply entered_all]].
      * match goal with |- context [emit E ?ev ?a ?st] =>
          destruct (emit_appended E ev a st) as (o & ->) end.
        by destruct o as [b|[m|error]].
      * match goal with |- context [emit E ?ev ?a ?st] =>
          destruct (emit_appended E ev a st) as (o & ->) end.
        destruct o as [b|[m|error]]; unfold caught; run; proj; calls_done.
    + destruct (to_string E (JObj ms)) as [e|text] eqn:Hs;
        [apply to_string_Err in Hs as [m ->]|]; unfold caught; run;
        (split; [done|]); rewrite <- app_assoc; eauto.
Qed.

Lemma invoke_returns cb arg s :
  snd (invoke E cb arg s) = Return tt →
  ∃ tr, invoke E cb arg s = (appended s (Call cb arg :: tr), Return tt) ∧
        match cb with
        | CbDownloadRuntime f => ∃ a, tr = [Call (CbUser f) a]
        | _ => tr = []
        end.
Proof.
  destruct cb as [|f|f]; unfold invoke.
  - intros _. by exists [].
  - rewrite call_user_appended. cbn [snd].
    destruct (user_function E f arg); [done|]. intros _. by exists [].
  - unfold downloadRuntime_response. run.
    destruct (response_payload arg) as [e|pl]; run; [done|].
    destruct (get_prop pl "error") as [e|err]; run; [done|].
    destruct (truthy_json err).
    + destruct (to_string E (default JNull err)) as [e|msg]; run; [done|].
      rewrite call_user_appended, appended_app. cbn [snd app].
      destruct (user_function E f (ArgError msg)); [done|]. intros _.
      eexists. split; [reflexivity|]. by eexists.
    + rewrite call_user_appended, appended_app. cbn [snd app].
      destruct (user_function E f ArgNone); [done|]. intros _.
      eexists. split; [reflexivity|]. by eexists.
Qed.

(** X1: a pending callback that returns is called once, by a response
    that is not marked as a broadcast.  The response that addresses it
    calls it with the parsed message, this once and no more (the closure
    of downloadRuntime calls the caller's function once in turn), removes
    the entry and returns; the same response again, finding no entry,
    calls nothing, changes nothing in the table and returns. *)
Lemma response_delivered_once s hwnd data ms id key cb :
  JSON_parse E data = inr (JObj ms) →
  assoc "messageId" ms = Some id →
  to_string E id = inr key →
  messageIdToCallback s !! key = Some cb →
  truthy_json (assoc "broadcast" ms) = false →
  (∀ s0, snd (invoke E cb (ArgData (JObj ms)) s0) = Return tt) →
  let s1 := fst (onMessage E hwnd data s) in
  let s2 := fst (onMessage E hwnd data s1) in
  messageIdToCallback s1 = delete key (messageIdToCallback s) ∧
  (∃ rest, calls (trace s1) =
             calls (trace s) ++ (cb, ArgData (JObj ms)) :: rest ∧
           match cb with
           | CbDownloadRuntime f => ∃ a, rest = [(CbUser f, a)]
           | _ => rest = []
           end) ∧
  snd (onMessage E hwnd data s) = Return tt ∧
  messageIdToCallback s2 = messageIdToCallback s1 ∧
  calls (trace s2) = calls (trace s1) ∧
  snd (onMessage E hwnd data s1) = Return tt.
Proof.
  intros Hparse Hid Hkey Hcb Hbc Hret s1 s2. subst s2 s1.
  rewrite (onMessage_response s hwnd data ms id key cb Hparse Hid Hkey Hcb).
  match goal with |- context [invoke E cb ?a ?st] =>
    destruct (invoke_returns cb a st (Hret st)) as (tr & Hinv & Htr) end.
  rewrite Hinv. proj.
  split; [done|]. split.
  { exists (calls tr). split; [calls_done|].
    destruct cb as [|f|f]; [by subst tr|by subst tr|].
    destruct Htr as [a ->]. by exists a. }
  split; [done|].
  match goal with |- context [onMessage E hwnd data ?st] =>
    rewrite (onMessage_unmatched st hwnd data ms id key Hparse Hid Hkey)
      by (proj; apply lookup_delete_eq) end.
  rewrite Hbc. proj. split; [done|]. split; [calls_done|done].
Qed.

(** C1 (the code at the failing input): the closure downloadRuntime
    registers throws a TypeError on a response without payload.  The
    handler's catch swallows it, and the [delete] that follows the call in
    the try block is never reached: the entry stays, and the same
    response again calls the pending callback a second time. *)
Theorem throwing_callback_called_again s hwnd data ms key f :
  JSON_parse E data = inr (JObj ms) →
  assoc "messageId" ms = Some (JStr key) →
  assoc "payload" ms = None →
  messageIdToCallback s !! key = Some (CbDownloadRuntime f) →
  let s1 := fst (onMessage E hwnd data s) in
  let s2 := fst (onMessage E hwnd data s1) in
  messageIdToCallback s1 !! key = Some (CbDownloadRuntime f) ∧
  calls (trace s2) =
    calls (trace s) ++ [(CbDownloadRuntime f, ArgData (JObj ms));
                        (CbDownloadRuntime f, ArgData (JObj ms))] ∧
  messageIdToCallback s2 !! key = Some (CbDownloadRuntime f).
Proof.
  intros Hparse Hid Hpl Hcb s1 s2.
  assert (Hone : ∀ s, messageIdToCallback s !! key = Some (CbDownloadRuntime f) →
            messageIdToCallback (fst (onMessage E hwnd data s)) !! key
              = Some (CbDownloadRuntime f) ∧
            calls (trace (fst (onMessage E hwnd data s))) =
              calls (trace s) ++ [(CbDownloadRuntime f, ArgData (JObj ms))]).
  { intros s0 H0.
    rewrite (onMessage_response s0 hwnd data ms (JStr key) key
               (CbDownloadRuntime f) Hparse Hid eq_refl H0).
    unfold invoke, downloadRuntime_response, response_payload. run.
    cbn [get_prop]. rewrite Hpl. cbn [get_prop]. proj.
    split; [done|]. calls_done. }
  subst s2 s1.
  destruct (Hone s Hcb) as [H1 H1'].
  destruct (Hone _ H1) as [H2 H2'].
  split; [done|]. split; [|done].
  rewrite H2', H1'. by rewrite <- app_assoc.
Qed.
End Correlation.

Section DownloadRuntime.
Variable E : Env.

Lemma own_props_alloc (h : gmap loc Obj) v o :
  wf_value h v → own_props (<[fresh (dom h) := o]> h) v = own_props h v.
Proof.
  intros Hwf.
  destruct v as [| | | | |l|l]; try done; cbn in *; destruct Hwf as [o' Ho'];
    apply object_at_insert_ne, (fresh_other _ _ _ Ho').
Qed.


End DownloadRuntime.

Ltac fields :=
  cbn [fst snd set_messageIdToCallback set_heap set_guids set_timers
       set_clock set_trace appended messageIdToCallback events sessionId
       heap guids timers clock trace].

Section EventLoop.
Variable E : Env.

Lemma advances_refl s s' :
  sessionId s' = sessionId s → guids s' = guids s →
  messageIdToCallback s' = messageIdToCallback s →
  advances E s s'.
Proof. intros H1 H2 H3. split; [done|]. left. eauto. Qed.

(** [advances] looks at three fields only. *)
Lemma advances_from s0 s s' :
  sessionId s0 = sessionId s → guids s0 = guids s →
  messageIdToCallback s0 = messageIdToCallback s →
  advances E s0 s' → advances E s s'.
Proof. unfold advances. by intros -> -> ->. Qed.

Lemma publish_advances msg callback s :
  advances E s (fst (publish E msg callback s)).
Proof.
  unfold publish.
  destruct (negb (truthy msg) || negb (typeof_object msg)).
  { run. by apply advances_refl. }
  unfold alloc, Object_assign, delete_property, generateGUID, transport_send.
  run. rewrite recordCallbackInfo_spec. run.
  split; [done|]. right. split; [done|]. eauto.
Qed.

Lemma registerLicenseInfo_advances licInfo sourceUrl s :
  advances E s (fst (registerLicenseInfo E licInfo sourceUrl s)).
Proof.
  unfold registerLicenseInfo, alloc, Object_assign. run.
  eapply advances_from; [| | |apply publish_advances]; done.
Qed.

Lemma downloadRuntime_advances options f s :
  advances E s (fst (downloadRuntime E options f s)).
Proof.
  unfold downloadRuntime, alloc, Object_assign. run.
  match goal with |- context [publish E ?v ?c ?st] =>
    pose proof (publish_advances v c st) as H;
    destruct (publish E v c st) as [s1 [[]|e]]
  end; cbn [fst negb] in *;
    try rewrite call_user_appended;
    (eapply advances_from; [| | |apply H]; done).
Qed.

Lemma onMessage_advances hwnd data s :
  advances E s (fst (onMessage E hwnd data s)).
Proof.
  destruct (onMessage_shape E s hwnd data)
    as (tr & o & [->|(key & cb & _ & _ & _ & ->)] & _).
  - by apply advances_refl.
  - split; [done|]. left. split; [done|]. right. by exists key.
Qed.

Lemma step_advances s t : advances E s (step E s t).
Proof.
  destruct t; cbn [step].
  - apply publish_advances.
  - apply registerLicenseInfo_advances.
  - apply downloadRuntime_advances.
  - by apply advances_refl.
  - apply onMessage_advances.
  - rewrite elapse_spec. by apply advances_refl.
Qed.

(** No task writes the static sessionId. *)
Lemma sessionId_constant ts s : sessionId (run_tasks E s ts) = sessionId s.
Proof.
  revert s. induction ts as [|t ts IH]; intros s; cbn; [done|].
  unfold run_tasks in IH. rewrite IH. apply step_advances.
Qed.

Lemma step_guid_keys s t : guid_keys E s → guid_keys E (step E s t).
Proof.
  intros Hinv. destruct (step_advances s t) as [_ H].
  destruct H as [[Hg [Ht|[key Ht]]]|[Hg [cb Ht]]]; intros k; rewrite Ht, Hg.
  - apply Hinv.
  - intros Hk. apply Hinv.
    destruct (decide (key = k)) as [->|Hne].
    + rewrite lookup_delete_eq in Hk. by destruct Hk.
    + by rewrite lookup_delete_ne in Hk.
  - destruct (decide (app_generateGUID E (guids s) = k)) as [<-|Hne].
    + intros _. exists (guids s). split; [lia|done].
    + rewrite lookup_insert_ne by done. intros Hk.
      destruct (Hinv k Hk) as (n & Hn & ->). exists n. split; [lia|done].
Qed.

Lemma reachable_guid_keys ts :
  guid_keys E (run_tasks E (new_RVMMessageBus E) ts).
Proof.
  unfold run_tasks.
  assert (H0 : guid_keys E (new_RVMMessageBus E)).
  { intros k [cb Hk]. cbn in Hk. by rewrite lookup_empty in Hk. }
  revert H0. generalize (new_RVMMessageBus E).
  induction ts as [|t ts IH]; intros s Hs; cbn; [done|].
  apply IH. by apply step_guid_keys.
Qed.

(** The messageId publish draws is fresh: with a generator that never
    repeats itself, no entry of the table is under the next GUID, in any
    state the process can reach. *)
Lemma next_messageId_unused ts :
  Inj (=) (=) (app_generateGUID E) →
  let s := run_tasks E (new_RVMMessageBus E) ts in
  messageIdToCallback s !! app_generateGUID E (guids s) = None.
Proof.
  intros Hinj s.
  destruct (messageIdToCallback s !! app_generateGUID E (guids s)) eqn:H;
    [|done].
  destruct (reachable_guid_keys ts _ (mk_is_Some _ _ H)) as (n & Hn & Heq).
  apply Hinj in Heq. fold s in Hn. lia.
Qed.
End EventLoop.

(** Lookups in an object literal. *)
Ltac literal :=
  repeat (rewrite lookup_insert_eq || rewrite lookup_insert_ne by done ||
          rewrite lookup_singleton_eq || rewrite lookup_singleton_ne by done).

Section RegisterLicenseInfo.
Variable E : Env.

Lemma wf_value_alloc (h : gmap loc Obj) v l o :
  wf_value h v → wf_value (<[l := o]> h) v.
Proof.
  destruct v as [| | | | |l'|l']; try done; cbn; intros [o' Ho'];
    (destruct (decide (l = l')) as [->|Hne];
     [rewrite lookup_insert_eq|rewrite lookup_insert_ne by done]; eauto).
Qed.

Lemma lookup_alloc (h : gmap loc Obj) l o o' :
  h !! l = Some o → <[fresh (dom h) := o']> h !! l = Some o.
Proof.
  intros H. rewrite lookup_insert_ne; [done|]. by apply (fresh_other _ _ _ H).
Qed.

(** C9: registerLicenseInfo publishes, for every licenseInfo and
    sourceUrl, the message made of topic 'application-event', type
    'started', the sourceUrl (null when not given), the static sessionId
    and a data object of null defaults (parentApp.uuid, licenseKey,
    client.type, client.version, client.pid, uuid), overlaid with the own
    properties of licenseInfo, and returns what publish returns.  The
    overlay is Object.assign's: a property of licenseInfo replaces the
    default of the same name, so for a LicenseInfo, whose only property is
    data, the other four are as listed.  The static sessionId is not
    written, by this call or by any task after it. *)
Theorem registerLicenseInfo_publishes (s : Bus) licInfo sourceUrl :
  wf_value (heap s) licInfo →
  let overrides := own_props (heap s) licInfo in
  let s' := fst (registerLicenseInfo E licInfo sourceUrl s) in
  ∃ envelope data parentApp client,
    let message : Obj :=
      overrides ∪
      {[ "topic" := VStr "application-event"; "type" := VStr "started";
         "sourceUrl" := default_arg VNull sourceUrl;
         "sessionId" := VStr (sessionId s); "data" := VObj data ]} in
    let body := delete "topic" (message ∪ process_metadata E) in
    snd (registerLicenseInfo E licInfo sourceUrl s) =
      Return (transport_publish E envelope) ∧
    trace s' = trace s ++ [Log Level1 (LogEnvelope envelope);
                           Send envelope (transport_publish E envelope)] ∧
    topic envelope = default VUndefined (message !! "topic") ∧
    messageId envelope = app_generateGUID E (guids s) ∧
    heap s' !! payload envelope = Some body ∧
    heap s' !! data =
      Some {[ "parentApp" := VObj parentApp; "licenseKey" := VNull;
              "client" := VObj client; "uuid" := VNull ]} ∧
    heap s' !! parentApp = Some {[ "uuid" := VNull ]} ∧
    heap s' !! client =
      Some {[ "type" := VNull; "version" := VNull; "pid" := VNull ]} ∧
    sessionId s' = sessionId s ∧
    (∀ ts, sessionId (run_tasks E s' ts) = sessionId s) ∧
    ((∀ k, k ≠ "data" → overrides !! k = None) →
     topic envelope = VStr "application-event" ∧
     body !! "type" = Some (VStr "started") ∧
     body !! "sourceUrl" = Some (default_arg VNull sourceUrl) ∧
     body !! "sessionId" = Some (VStr (sessionId s)) ∧
     body !! "data" = Some (default (VObj data) (overrides !! "data"))).
Proof.
  intros Hwf overrides s'. subst s'.
  unfold registerLicenseInfo, alloc, Object_assign. run.
  set (h0 := heap s) in *.
  set (a1 := fresh (dom h0)).
  set (h1 := <[a1 := _]> h0).
  set (a2 := fresh (dom h1)).
  set (h2 := <[a2 := _]> h1).
  set (a3 := fresh (dom h2)).
  set (h3 := <[a3 := _]> h2).
  set (a4 := fresh (dom h3)).
  assert (Hwf3 : wf_value h3 licInfo) by (by do 3 apply wf_value_alloc).
  assert (Hov : own_props (<[a4 := {[ "topic" := VStr "application-event";
                  "type" := VStr "started";
                  "sourceUrl" := default_arg VNull sourceUrl;
                  "sessionId" := VStr (sessionId s); "data" := VObj a3 ]}]> h3)
                  licInfo = overrides).
  { unfold a4. rewrite own_props_alloc by done.
    unfold h3, a3. rewrite own_props_alloc by (by do 2 apply wf_value_alloc).
    unfold h2, a2. rewrite own_props_alloc by (by apply wf_value_alloc).
    unfold h1, a1. by rewrite own_props_alloc. }
  rewrite Hov, object_at_insert_eq, insert_insert_eq.
  set (message := overrides ∪ _).
  match goal with |- context [publish E (VObj ?m) ?c ?st] =>
    rewrite (publish_spec E st m message c)
      by (cbn [heap set_heap]; apply lookup_insert_eq)
  end.
  cbn [fst snd heap set_heap messageIdToCallback events sessionId guids
       timers clock trace topic messageId payload].
  exists (mkEnvelope (default VUndefined (message !! "topic"))
                     (app_generateGUID E (guids s))
                     (fresh (dom (<[a4 := message]> h3)))), a3, a1, a2.
  cbn [topic messageId payload].
  assert (H1 : h3 !! a1 = Some {[ "uuid" := VNull ]}).
  { unfold h3, a3, h2, a2. do 2 apply lookup_alloc. apply lookup_insert_eq. }
  assert (H2 : h3 !! a2 = Some {[ "type" := VNull; "version" := VNull;
                                  "pid" := VNull ]}).
  { unfold h3, a3. apply lookup_alloc. apply lookup_insert_eq. }
  repeat split.
  - apply lookup_insert_eq.
  - apply lookup_alloc. unfold a4. apply lookup_alloc. apply lookup_insert_eq.
  - apply lookup_alloc. unfold a4. by apply lookup_alloc.
  - apply lookup_alloc. unfold a4. by apply lookup_alloc.
  - intros ts. by rewrite sessionId_constant.
  - unfold message. rewrite lookup_union_r by (apply H; done). by literal.
  - rewrite lookup_delete_ne by done. apply lookup_union_Some_l.
    unfold message. rewrite lookup_union_r by (apply H; done). by literal.
  - rewrite lookup_delete_ne by done. apply lookup_union_Some_l.
    unfold message. rewrite lookup_union_r by (apply H; done). by literal.
  - rewrite lookup_delete_ne by done. apply lookup_union_Some_l.
    unfold message. rewrite lookup_union_r by (apply H; done). by literal.
  - rewrite lookup_delete_ne by done. apply lookup_union_Some_l.
    unfold message. destruct (overrides !! "data") as [v|] eqn:Hd.
    + by apply lookup_union_Some_l.
    + rewrite lookup_union_r by done. by literal.
Qed.
End RegisterLicenseInfo.

(** ** The bus at work on a concrete process *)

Lemma no_messageId_unroutable_witness :
  onMessage (Demo.env true) 0 "no-id" Demo.subscribed =
    (appended Demo.subscribed [Log Level1 (LogReceivedFrom 0);
                               Log Level1 (LogData "no-id");
                               Log Level1 LogNoMessageId],
     Return tt).
Proof.
  apply (no_messageId_unroutable (Demo.env true) Demo.subscribed 0 "no-id"
           Demo.no_id); reflexivity.
Defined.

Lemma publish_non_object_witness :
  publish (Demo.env true) VNull None Demo.requesting =
    (appended Demo.requesting [Log LevelERROR LogNotObject], Return false) ∧
  publish (Demo.env true) (VStr "string") None Demo.requesting =
    (appended Demo.requesting [Log LevelERROR LogNotObject], Return false).
Proof.
  split; apply (publish_non_object (Demo.env true)); intros l; discriminate.
Defined.

Lemma publish_sends_envelope_witness :
  heap Demo.requesting !! Demo.msg = Some Demo.get_list ∧
  trace (fst (publish (Demo.env true) (VObj Demo.msg) (Some (CbUser 7))
                Demo.requesting)) =
    [Log Level1 (LogEnvelope (mkEnvelope (VStr "app-assets") "guid-1" 2%positive));
     Send (mkEnvelope (VStr "app-assets") "guid-1" 2%positive) true] ∧
  snd (publish (Demo.env true) (VObj Demo.msg) (Some (CbUser 7))
         Demo.requesting) = Return true ∧
  delete "topic" (Demo.get_list ∪ process_metadata (Demo.env true))
    !! "processId" = Some (VNum 4242) ∧
  delete "topic" (Demo.get_list ∪ process_metadata (Demo.env true))
    !! "runtimeVersion" = Some (VStr "8.56.30.42").
Proof.
  assert (H : heap Demo.requesting !! Demo.msg = Some Demo.get_list)
    by (vm_compute; reflexivity).
  split; [exact H|].
  destruct (publish_sends_envelope (Demo.env true) Demo.requesting Demo.msg
              Demo.get_list (Some (CbUser 7)) H)
    as (registered & _ & _ & _ & _ & _ & _ & Hret & Htrace & _ & _ & _ &
        Hpid & Hversion & _).
  split; [exact Htrace|]. split; [exact Hret|].
  split; [apply Hpid|apply Hversion]; vm_compute; reflexivity.
Defined.

Lemma thrown_null_escapes_witness :
  messageIdToCallback Demo.rude_requesting !! "guid-1" = Some (CbUser 7) ∧
  snd (onMessage Demo.rude 0 "no-payload" Demo.rude_requesting) =
    Throw (Err "Cannot read property 'message' of null") ∧
  messageIdToCallback
    (fst (onMessage Demo.rude 0 "no-payload" Demo.rude_requesting))
    !! "guid-1" = Some (CbUser 7).
Proof.
  assert (Hcb : messageIdToCallback Demo.rude_requesting !! "guid-1" =
                Some (CbUser 7)) by (vm_compute; reflexivity).
  split; [exact Hcb|].
  rewrite (thrown_null_escapes Demo.rude Demo.rude_requesting 0 "no-payload"
             Demo.no_payload (JStr "guid-1") "guid-1" 7
             "Cannot read property 'message' of null"
             eq_refl eq_refl eq_refl Hcb eq_refl).
  split; [reflexivity|exact Hcb].
Defined.

Lemma publish_leaves_message_witness :
  heap (fst (publish (Demo.env true) (VObj Demo.msg) None Demo.requesting))
    !! Demo.msg = Some Demo.get_list.
Proof.
  apply (publish_leaves_message (Demo.env true) Demo.requesting Demo.msg
           Demo.get_list None); vm_compute; reflexivity.
Defined.

Lemma timeToLive_never_delivered_witness :
  trace (elapse (Demo.env true) 5000
           (fst (publish (Demo.env true) (VObj Demo.msg) (Some (CbUser 7))
                   Demo.requesting))) =
    trace (fst (publish (Demo.env true) (VObj Demo.msg) (Some (CbUser 7))
                  Demo.requesting)) ∧
  messageIdToCallback
    (elapse (Demo.env true) 5000
       (fst (publish (Demo.env true) (VObj Demo.msg) (Some (CbUser 7))
               Demo.requesting))) !! "guid-1" = Some (CbUser 7).
Proof.
  assert (H : heap Demo.requesting !! Demo.msg = Some Demo.get_list)
    by (vm_compute; reflexivity).
  assert (Httl : Demo.get_list !! "timeToLive" = Some (VNum 5))
    by (vm_compute; reflexivity).
  destruct (timeToLive_never_delivered (Demo.env true) Demo.requesting
              Demo.msg Demo.get_list (Some (CbUser 7)) 5 [5000%Z] H Httl)
    as (_ & Htrace & Htable).
  split; [exact Htrace|exact Htable].
Defined.

Lemma throwing_callback_called_again_witness :
  calls (trace (fst (onMessage (Demo.env true) 0 "no-payload"
                       (fst (onMessage (Demo.env true) 0 "no-payload"
                               (Demo.downloading true)))))) =
    [(CbDownloadRuntime 7, ArgData (JObj Demo.no_payload));
     (CbDownloadRuntime 7, ArgData (JObj Demo.no_payload))] ∧
  messageIdToCallback
    (fst (onMessage (Demo.env true) 0 "no-payload"
            (fst (onMessage (Demo.env true) 0 "no-payload"
                    (Demo.downloading true))))) !! "guid-1" =
    Some (CbDownloadRuntime 7).
Proof.
  assert (H : messageIdToCallback (Demo.downloading true) !! "guid-1" =
              Some (CbDownloadRuntime 7)) by (vm_compute; reflexivity).
  destruct (throwing_callback_called_again (Demo.env true)
              (Demo.downloading true) 0 "no-payload" Demo.no_payload "guid-1" 7
              eq_refl eq_refl eq_refl H) as (_ & Hcalls & Htable).
  split; [exact Hcalls|exact Htable].
Defined.

Lemma broadcast_routed_witness :
  calls (trace (fst (onMessage (Demo.env true) 0 "crashed" Demo.subscribed))) =
    [(CbUser 3, ArgData (JObj [("action", JStr "crashed");
                               ("uuid", JStr "u1")]))].
Proof.
  assert (H : messageIdToCallback Demo.subscribed !! "x" = None)
    by (vm_compute; reflexivity).
  destruct (broadcast_routed (Demo.env true) Demo.subscribed 0 "crashed"
              Demo.crashed (JStr "x") "x" eq_refl eq_refl eq_refl H eq_refl)
    as [_ [Hcalls _]].
  rewrite Hcalls. vm_compute. reflexivity.
Defined.

(** C4 as stated fails: this broadcast has its topic, its payload and its
    payload.action, the action being the empty string, and a listener waits
    on the channel of ('broadcast', 'application-event', ''); the handler
    calls nobody. *)
Lemma broadcast_empty_action_dropped :
  JSON_parse (Demo.env true) "empty-action" = inr (JObj Demo.empty_action) ∧
  messageIdToCallback Demo.subscribed !! "x" = None ∧
  assoc "broadcast" Demo.empty_action = Some (JBool true) ∧
  assoc "topic" Demo.empty_action = Some (JStr "application-event") ∧
  assoc "payload" Demo.empty_action = Some (JObj [("action", JStr "")]) ∧
  get_prop (assoc "payload" Demo.empty_action) "action" = inr (Some (JStr "")) ∧
  events Demo.subscribed
    !! route_rvmMessageBus (Demo.env true) "broadcast"
         (Some (JStr "application-event")) (Some (JStr "")) = Some [4] ∧
  calls (trace (fst (onMessage (Demo.env true) 0 "empty-action"
                       Demo.subscribed))) = [].
Proof. repeat split; vm_compute; reflexivity. Qed.



Lemma registerLicenseInfo_publishes_witness :
  ∃ envelope,
    snd (registerLicenseInfo (Demo.env true) (VObj 1%positive)
           (VStr "http://app") Demo.licensed) =
      Return (transport_publish (Demo.env true) envelope) ∧
    topic envelope = VStr "application-event" ∧
    messageId envelope = "guid-1" ∧
    object_at (heap (fst (registerLicenseInfo (Demo.env true) (VObj 1%positive)
                            (VStr "http://app") Demo.licensed)))
              (payload envelope) =
      {[ "type" := VStr "started"; "sourceUrl" := VStr "http://app";
         "sessionId" := VStr "guid-0"; "data" := VObj 2%positive;
         "processId" := VNum 4242; "runtimeVersion" := VStr "8.56.30.42" ]}.
Proof.
  assert (Hwf : wf_value (heap Demo.licensed) (VObj 1%positive))
    by (eexists; vm_compute; reflexivity).
  destruct (registerLicenseInfo_publishes (Demo.env true) Demo.licensed
              (VObj 1%positive) (VStr "http://app") Hwf)
    as (envelope & data & parentApp & client & Hret & _ & Htopic & Hid &
        Hbody & _).
  exists envelope. split; [exact Hret|].
  split; [rewrite Htopic; vm_compute; reflexivity|].
  split; [exact Hid|].
  unfold object_at. rewrite Hbody. vm_compute. reflexivity.
Defined.

(** ** More about the bus *)

Lemma sends_app tr1 tr2 : sends (tr1 ++ tr2) = sends tr1 ++ sends tr2.
Proof. apply omap_app. Qed.

Lemma objects_kept_refl h : objects_kept h h.
Proof. by intros l o. Qed.

Lemma objects_kept_trans h1 h2 h3 :
  objects_kept h1 h2 → objects_kept h2 h3 → objects_kept h1 h3.
Proof. intros H12 H23 l o H. by apply H23, H12. Qed.

Lemma objects_kept_alloc (h : gmap loc Obj) o :
  objects_kept h (<[fresh (dom h) := o]> h).
Proof. intros l o' H. by apply lookup_alloc. Qed.

(** Writing to an address allocated since keeps the objects of before. *)
Lemma objects_kept_write (h0 h : gmap loc Obj) l o :
  h0 !! l = None → objects_kept h0 h → objects_kept h0 (<[l := o]> h).
Proof.
  intros Hl Hk l' o' H. rewrite lookup_insert_ne; [by apply Hk|].
  intros ->. congruence.
Qed.

Section Frames.
Variable E : Env.

Lemma call_user_quiet f arg s :
  sends (trace (fst (call_user E f arg s))) = sends (trace s).
Proof.
  rewrite call_user_appended. fields. rewrite sends_app. cbn.
  by rewrite app_nil_r.
Qed.

Lemma invoke_quiet cb arg s :
  ∃ tr o, invoke E cb arg s = (appended s tr, o) ∧ sends tr = [].
Proof.
  destruct cb as [|f|f]; unfold invoke.
  - by exists [Call CbNoop arg], (Return tt).
  - rewrite call_user_appended. eauto.
  - unfold downloadRuntime_response. run.
    destruct (response_payload arg) as [e|pl]; run; [eauto|].
    destruct (get_prop pl "error") as [e|err]; run; [eauto|].
    destruct (truthy_json err).
    + destruct (to_string E (default JNull err)) as [e|msg]; run; [eauto|].
      rewrite call_user_appended, appended_app. eauto.
    + rewrite call_user_appended, appended_app. eauto.
Qed.

Lemma sends_map_Call (fs : list nat) arg :
  sends (map (λ f, Call (CbUser f) arg) fs) = [].
Proof. by induction fs. Qed.

Lemma emit_quiet event arg s :
  ∃ tr o, emit E event arg s = (appended s tr, o) ∧ sends tr = [].
Proof.
  destruct (emit_appended E event arg s) as [o H].
  eexists _, o. split; [exact H|]. apply sends_map_Call.
Qed.

(** The handler changes the trace and, when a pending callback returned, the
    entry addressed; what it adds to the trace holds no send. *)
Lemma onMessage_quiet (s : Bus) (hwnd : Z) (data : string) :
  ∃ tr table o,
    onMessage E hwnd data s =
      (set_messageIdToCallback table (appended s tr), o) ∧
    sends tr = [].
Proof.
  assert (Hsame : ∀ tr, appended s tr =
            set_messageIdToCallback (messageIdToCallback s) (appended s tr))
    by by destruct s.
  assert (Hlogs : ∀ tr (o : Outcome unit), sends tr = [] →
            ∃ tr' table o',
              (appended s tr, o) =
                (set_messageIdToCallback table (appended s tr'), o') ∧
              sends tr' = []).
  { intros tr o Htr. exists tr, (messageIdToCallback s), o.
    by rewrite <- Hsame. }
  unfold onMessage, onMessage_body. run.
  destruct (JSON_parse E data) as [m|dataObj]; run.
  { rewrite !appended_app. by apply Hlogs. }
  destruct (_has dataObj "messageId") eqn:Hhas; run.
  2: { rewrite !appended_app. by apply Hlogs. }
  destruct (get_prop (Some dataObj) "broadcast") as [[m|er]|bc]; run;
    try (rewrite ?appended_app; by apply Hlogs).
  destruct (to_string E (dataObj_messageId dataObj)) as [[m|er]|key]; run;
    try (rewrite ?appended_app; by apply Hlogs).
  destruct (messageIdToCallback s !! key) as [cb|] eqn:Hcb.
  - match goal with |- context [invoke E cb ?a ?st] =>
      destruct (invoke_quiet cb a st) as (tr & o & -> & Hq) end.
    destruct o as [[]|[m|er]]; run; rewrite !appended_app.
    + eexists _, _, _. split; [reflexivity|]. by rewrite !sends_app, Hq.
    + apply Hlogs. by rewrite !sends_app, Hq.
    + apply Hlogs. by rewrite !sends_app, Hq.
  - destruct (truthy_json bc).
    + destruct (get_prop (Some dataObj) "topic") as [[m|er]|tp]; run;
        try (rewrite ?appended_app; by apply Hlogs).
      destruct (get_prop (Some dataObj) "payload") as [[m|er]|pl]; run;
        try (rewrite ?appended_app; by apply Hlogs).
      destruct (get_prop pl "action") as [[m|er]|ac]; run;
        try (rewrite ?appended_app; by apply Hlogs).
      destruct (truthy_json tp && truthy_json pl && truthy_json ac).
      * match goal with |- context [emit E ?ev ?a ?st] =>
          destruct (emit_quiet ev a st) as (tr & o & -> & Hq) end.
        destruct o as [b|[m|er]]; run; rewrite !appended_app;
          apply Hlogs; by rewrite !sends_app, Hq.
      * destruct (to_string E dataObj) as [[m|er]|text]; run;
          rewrite ?appended_app; by apply Hlogs.
    + run. rewrite !appended_app. by apply Hlogs.
Qed.

(** X2: the handler of incoming messages only logs, calls and removes: it
    hands nothing to the transport, arms no timer, draws no GUID, and leaves
    the heap, the listeners and the session identifier as they were. *)
Theorem onMessage_only_logs_and_calls (s : Bus) (hwnd : Z) (data : string) :
  let s' := fst (onMessage E hwnd data s) in
  sends (trace s') = sends (trace s) ∧
  timers s' = timers s ∧ guids s' = guids s ∧ heap s' = heap s ∧
  events s' = events s ∧ clock s' = clock s ∧ sessionId s' = sessionId s.
Proof.
  destruct (onMessage_quiet s hwnd data) as (tr & table & o & H & Hq).
  cbv zeta. rewrite H. fields. rewrite sends_app, Hq.
  by rewrite app_nil_r.
Qed.
End Frames.

Section Registrations.
Variable E : Env.

Lemma run_tasks_guid_keys s ts :
  guid_keys E s → guid_keys E (run_tasks E s ts).
Proof.
  unfold run_tasks. revert s.
  induction ts as [|t ts IH]; intros s Hs; cbn; [done|].
  apply IH. by apply step_guid_keys.
Qed.

(** X3: with a GUID generator that never repeats, publish never replaces a
    pending callback.  In every state reached from one whose keys are
    GUIDs already drawn, the messageId of the new envelope is not in the
    table: the table gains exactly that entry and keeps all it had. *)
Theorem publish_never_overwrites (s0 : Bus) ts l o callback :
  Inj (=) (=) (app_generateGUID E) →
  guid_keys E s0 →
  let s := run_tasks E s0 ts in
  heap s !! l = Some o →
  let id := app_generateGUID E (guids s) in
  let s' := fst (publish E (VObj l) callback s) in
  messageIdToCallback s !! id = None ∧
  messageIdToCallback s' = <[id := default CbNoop callback]> (messageIdToCallback s) ∧
  size (messageIdToCallback s') = S (size (messageIdToCallback s)) ∧
  (∀ key cb, messageIdToCallback s !! key = Some cb →
             messageIdToCallback s' !! key = Some cb).
Proof.
  intros Hinj Hkeys s Hl id s'.
  assert (Hnone : messageIdToCallback s !! id = None).
  { destruct (messageIdToCallback s !! id) eqn:H; [|done].
    destruct (run_tasks_guid_keys s0 ts Hkeys id (mk_is_Some _ _ H))
      as (n & Hn & Heq).
    apply Hinj in Heq. fold s in Hn. lia. }
  subst s'. rewrite (publish_spec E s l o callback Hl). fields.
  split; [done|]. split; [done|]. split.
  - by apply map_size_insert_None.
  - intros key cb Hkey. rewrite lookup_insert_ne; [done|].
    intros Heq. subst id. cbn in Heq. congruence.
Qed.

(** X4: publish followed by the response to it leaves the table as it was
    before the publish, when the callback returns: the entry made for the
    request, the no-op of a publish without callback included, is the one
    the response removes. *)
Theorem publish_then_response_restores_table (s : Bus) l o callback hwnd data ms :
  heap s !! l = Some o →
  messageIdToCallback s !! app_generateGUID E (guids s) = None →
  JSON_parse E data = inr (JObj ms) →
  assoc "messageId" ms = Some (JStr (app_generateGUID E (guids s))) →
  (∀ s0, snd (invoke E (default CbNoop callback) (ArgData (JObj ms)) s0) =
         Return tt) →
  let s1 := fst (publish E (VObj l) callback s) in
  let s2 := fst (onMessage E hwnd data s1) in
  messageIdToCallback s1 !! app_generateGUID E (guids s) =
    Some (default CbNoop callback) ∧
  messageIdToCallback s2 = messageIdToCallback s.
Proof.
  intros Hl Hnone Hparse Hid Hret s1 s2. subst s2 s1.
  rewrite (publish_spec E s l o callback Hl). cbn [fst].
  split; [cbn; by rewrite lookup_insert_eq|].
  match goal with |- context [onMessage E hwnd data ?st] =>
    rewrite (onMessage_response E st hwnd data ms _ _ (default CbNoop callback)
               Hparse Hid eq_refl) by (cbn; by rewrite lookup_insert_eq)
  end.
  match goal with |- context [invoke E ?cb ?a ?st] =>
    specialize (Hret st);
    destruct (invoke_appended E cb a st) as (tr & o' & Hinv) end.
  rewrite Hinv in Hret |- *. cbn in Hret. subst o'. fields.
  by rewrite delete_insert_id.
Qed.


(** X6: only a timeToLive that is a number arms a timer.  A message without
    timeToLive, or with one of another type (the string '5'), is published
    and registered all the same and no timer is set for it. *)
Theorem only_numeric_timeToLive_arms (s : Bus) l o callback :
  heap s !! l = Some o →
  (∀ T, o !! "timeToLive" ≠ Some (VNum T)) →
  let s' := fst (publish E (VObj l) callback s) in
  timers s' = timers s ∧
  messageIdToCallback s' !! app_generateGUID E (guids s) =
    Some (default CbNoop callback).
Proof.
  intros Hl Httl s'. subst s'.
  rewrite (publish_spec E s l o callback Hl). fields.
  split; [|by rewrite lookup_insert_eq].
  destruct (o !! "timeToLive") as [[| | |T| | |]|] eqn:H; cbn;
    try by rewrite app_nil_r.
  by destruct (Httl T).
Qed.
End Registrations.

Section CallerObjects.
Variable E : Env.

Lemma publish_keeps_objects msg callback s :
  objects_kept (heap s) (heap (fst (publish E msg callback s))).
Proof.
  unfold publish.
  destruct (negb (truthy msg) || negb (typeof_object msg)).
  { run. apply objects_kept_refl. }
  unfold alloc, Object_assign, delete_property, generateGUID, transport_send.
  run. rewrite recordCallbackInfo_spec. run.
  do 2 (apply objects_kept_write; [apply fresh_unused|]).
  apply objects_kept_alloc.
Qed.

Lemma alloc_assign_keeps_objects (h0 h : gmap loc Obj) o source :
  objects_kept h0 h →
  objects_kept h0
    (<[fresh (dom h) := own_props (<[fresh (dom h) := o]> h) source
                        ∪ object_at (<[fresh (dom h) := o]> h) (fresh (dom h))]>
       (<[fresh (dom h) := o]> h)).
Proof.
  intros Hk l o' Hl. rewrite insert_insert_eq.
  apply lookup_alloc. by apply Hk.
Qed.

Lemma registerLicenseInfo_keeps_objects licInfo sourceUrl s :
  objects_kept (heap s)
    (heap (fst (registerLicenseInfo E licInfo sourceUrl s))).
Proof.
  unfold registerLicenseInfo, alloc, Object_assign. run.
  eapply objects_kept_trans; [|apply publish_keeps_objects]. fields.
  apply alloc_assign_keeps_objects.
  do 2 (eapply objects_kept_trans; [|apply objects_kept_alloc]).
  apply objects_kept_alloc.
Qed.

Lemma downloadRuntime_keeps_objects options f s :
  objects_kept (heap s) (heap (fst (downloadRuntime E options f s))).
Proof.
  unfold downloadRuntime, alloc, Object_assign. run.
  match goal with |- context [publish E ?v ?c ?st] =>
    pose proof (publish_keeps_objects v c st) as H;
    destruct (publish E v c st) as [s1 [[]|e]]
  end; cbn [fst negb] in *; try rewrite call_user_appended; fields;
    (eapply objects_kept_trans; [|apply H]); fields;
    apply alloc_assign_keeps_objects, objects_kept_refl.
Qed.

Lemma step_keeps_objects s t : objects_kept (heap s) (heap (step E s t)).
Proof.
  destruct t; cbn [step].
  - apply publish_keeps_objects.
  - apply registerLicenseInfo_keeps_objects.
  - apply downloadRuntime_keeps_objects.
  - apply objects_kept_refl.
  - destruct (onMessage_quiet E s hwnd data) as (tr & table & o & -> & _).
    fields. apply objects_kept_refl.
  - rewrite elapse_spec. apply objects_kept_refl.
Qed.

(** X7: no operation of the bus writes to an object it did not allocate
    itself.  Over any sequence of publish, registerLicenseInfo,
    downloadRuntime, on, incoming messages and timers, every object that was
    in the heap at the start (a message, a licenseInfo, the options of a
    download) holds at the end the properties it held at the start. *)
Theorem tasks_keep_objects (s : Bus) ts :
  objects_kept (heap s) (heap (run_tasks E s ts)).
Proof.
  unfold run_tasks. revert s.
  induction ts as [|t ts IH]; intros s; cbn; [apply objects_kept_refl|].
  eapply objects_kept_trans; [apply step_keeps_objects|apply IH].
Qed.
End CallerObjects.


Section Pending.
Variable E : Env.

Lemma registers_from s0 s s' :
  guids s0 = guids s → messageIdToCallback s0 = messageIdToCallback s →
  registers E s0 s' → registers E s s'.
Proof. unfold registers. by intros -> ->. Qed.

Lemma publish_registers msg callback s :
  registers E s (fst (publish E msg callback s)).
Proof.
  unfold publish.
  destruct (negb (truthy msg) || negb (typeof_object msg)).
  { run. by left. }
  unfold alloc, Object_assign, delete_property, generateGUID, transport_send.
  run. rewrite recordCallbackInfo_spec. run.
  right. split; [done|]. eauto.
Qed.

Lemma registerLicenseInfo_registers licInfo sourceUrl s :
  registers E s (fst (registerLicenseInfo E licInfo sourceUrl s)).
Proof.
  unfold registerLicenseInfo, alloc, Object_assign. run.
  eapply registers_from; [| |apply publish_registers]; done.
Qed.

Lemma downloadRuntime_registers options f s :
  registers E s (fst (downloadRuntime E options f s)).
Proof.
  unfold downloadRuntime, alloc, Object_assign. run.
  match goal with |- context [publish E ?v ?c ?st] =>
    pose proof (publish_registers v c st) as H;
    destruct (publish E v c st) as [s1 [[]|e]]
  end; cbn [fst negb] in *;
    try rewrite call_user_appended;
    (eapply registers_from; [| |apply H]; done).
Qed.

Lemma registers_keeps s s' key cb :
  Inj (=) (=) (app_generateGUID E) → guid_keys E s →
  registers E s s' →
  messageIdToCallback s !! key = Some cb →
  messageIdToCallback s' !! key = Some cb.
Proof.
  intros Hinj Hkeys [[_ ->]|[_ [cb' ->]]] Hkey; [done|].
  rewrite lookup_insert_ne; [done|]. intros <-.
  destruct (Hkeys _ (mk_is_Some _ _ Hkey)) as (n & Hn & Heq).
  apply Hinj in Heq. lia.
Qed.

Lemma step_keeps_entry s t key cb :
  Inj (=) (=) (app_generateGUID E) → guid_keys E s →
  addresses E key t = false →
  messageIdToCallback s !! key = Some cb →
  messageIdToCallback (step E s t) !! key = Some cb.
Proof.
  intros Hinj Hkeys Ht Hkey. destruct t; cbn [step].
  - by apply (registers_keeps s _ key cb Hinj Hkeys (publish_registers _ _ s)).
  - by apply (registers_keeps s _ key cb Hinj Hkeys
                (registerLicenseInfo_registers _ _ s)).
  - by apply (registers_keeps s _ key cb Hinj Hkeys
                (downloadRuntime_registers _ _ s)).
  - done.
  - cbn [addresses] in Ht. apply bool_decide_eq_false in Ht.
    destruct (onMessage_shape E s hwnd data)
      as (tr & o & [->|(key' & cb' & Hr & _ & _ & ->)] & _); [done|].
    cbn. rewrite lookup_delete_ne; [done|]. by intros <-.
  - by rewrite elapse_spec.
Qed.

(** X8: an entry of the table lives until a message addresses it.  With a
    GUID generator that never repeats, over any sequence of publish,
    registerLicenseInfo, downloadRuntime, on, timers and incoming messages
    that address other keys or none, the callback registered under a key
    stays there: nothing replaces it and nothing expires it. *)
Theorem pending_until_addressed (s : Bus) ts key cb :
  Inj (=) (=) (app_generateGUID E) →
  guid_keys E s →
  forallb (λ t, negb (addresses E key t)) ts = true →
  messageIdToCallback s !! key = Some cb →
  messageIdToCallback (run_tasks E s ts) !! key = Some cb.
Proof.
  intros Hinj. unfold run_tasks. revert s.
  induction ts as [|t ts IH]; intros s Hkeys Hts Hkey; [done|].
  cbn [forallb] in Hts. apply andb_true_iff in Hts as [Ht Hts].
  apply negb_true_iff in Ht. cbn [foldl]. apply IH.
  - by apply step_guid_keys.
  - done.
  - by apply step_keeps_entry.
Qed.
End Pending.

(** ** The startup options of a manifest *)

Section StartupAppFacts.
Variable strict : bool.

Lemma get_field_written h appJson l key key' v :
  key ≠ key' →
  get_field (<[l := <[key := v]> (object_at h l)]> h) appJson key' =
    get_field h appJson key'.
Proof.
  intros Hne. unfold get_field. f_equal.
  destruct appJson as [| | | | |la|la]; try done; cbn [own_props];
    (destruct (decide (la = l)) as [->|Hl];
     [by rewrite object_at_insert_eq, lookup_insert_ne
     |by rewrite object_at_insert_ne]).
Qed.

Lemma getStartupAppOptions_object appJson h l opts :
  opts = VObj l ∨ opts = VFun l →
  get_field h appJson "startup_app" = opts →
  getStartupAppOptions strict appJson h = inr (assigned appJson h l, opts).
Proof.
  intros Hopts Hget. unfold getStartupAppOptions.
  assert (Happ : appJson ≠ VUndefined ∧ appJson ≠ VNull).
  { split; intros ->; unfold get_field in Hget; cbn [own_props] in Hget;
      rewrite lookup_empty in Hget; cbn in Hget; destruct Hopts; congruence. }
  assert (Hbody :
    (let opts := get_field h appJson "startup_app" in
     if truthy opts then
       match set_property strict opts "plugin"
               (get_field h appJson "plugin") h with
       | inl e => inl e
       | inr h1 =>
           match set_property strict opts "preload"
                   (get_field h1 appJson "preload") h1 with
           | inl e => inl e
           | inr h2 => inr (h2, opts)
           end
       end
     else inr (h, opts)) = inr (assigned appJson h l, opts)).
  { cbv zeta. rewrite Hget.
    assert (Hset : ∀ key v h0, set_property strict opts key v h0 =
                     inr (<[l := <[key := v]> (object_at h0 l)]> h0)).
    { intros. by destruct Hopts as [-> | ->]. }
    assert (Htruthy : truthy opts = true) by by destruct Hopts as [-> | ->].
    rewrite Htruthy, !Hset. rewrite get_field_written by done.
    unfold assigned. by rewrite object_at_insert_eq, insert_insert_eq. }
  destruct Happ. by destruct appJson.
Qed.

(** X9: the options getStartupAppOptions answers with are the manifest's own
    startup_app object, written in place: afterwards it carries the plugin
    and the preload of the manifest, whatever it had under these names of
    its own (undefined when the manifest has none), its other properties
    and every other object are as before. *)
Theorem getStartupAppOptions_writes appJson h l :
  get_field h appJson "startup_app" = VObj l →
  ∃ h', getStartupAppOptions strict appJson h = inr (h', VObj l) ∧
        get_field h' (VObj l) "plugin" = get_field h appJson "plugin" ∧
        get_field h' (VObj l) "preload" = get_field h appJson "preload" ∧
        (∀ key, key ≠ "plugin" → key ≠ "preload" →
                object_at h' l !! key = object_at h l !! key) ∧
        (∀ l', l' ≠ l → h' !! l' = h !! l').
Proof.
  intros Hget. exists (assigned appJson h l).
  split; [apply getStartupAppOptions_object; auto|].
  unfold assigned, get_field. cbn [own_props].
  rewrite !object_at_insert_eq. repeat split.
  - by rewrite lookup_insert_ne, lookup_insert_eq.
  - by rewrite lookup_insert_eq.
  - intros key Hpl Hpr. by rewrite !lookup_insert_ne.
  - intros l' Hl'. by rewrite lookup_insert_ne.
Qed.

Lemma assigned_again appJson h l :
  get_field h appJson "startup_app" = VObj l ∨
  get_field h appJson "startup_app" = VFun l →
  get_field (assigned appJson h l) appJson "startup_app" =
    get_field h appJson "startup_app" ∧
  assigned appJson (assigned appJson h l) l = assigned appJson h l.
Proof.
  intros Hget.
  assert (Hsame : ∀ key,
            get_field (assigned appJson h l) appJson key =
            get_field h appJson key).
  { intros key. unfold assigned, get_field.
    destruct appJson as [| | | | |la|la]; try done; cbn [own_props];
      (destruct (decide (la = l)) as [->|Hl];
       [|by rewrite object_at_insert_ne]);
      rewrite object_at_insert_eq;
      (destruct (decide (key = "preload")) as [->|Hpr];
       [by rewrite lookup_insert_eq|]);
      rewrite lookup_insert_ne by done;
      (destruct (decide (key = "plugin")) as [->|Hpl];
       [by rewrite lookup_insert_eq|]);
      by rewrite lookup_insert_ne. }
  split; [apply Hsame|].
  unfold assigned at 1. rewrite !Hsame.
  unfold assigned. rewrite object_at_insert_eq, insert_insert_eq.
  f_equal. apply map_eq. intros key.
  destruct (decide (key = "preload")) as [->|Hpr];
    [by rewrite !lookup_insert_eq|].
  rewrite !(lookup_insert_ne _ "preload") by done.
  destruct (decide (key = "plugin")) as [->|Hpl];
    [by rewrite !lookup_insert_eq|].
  by repeat (rewrite lookup_insert_ne by done).
Qed.

(** X10: getStartupAppOptions is idempotent: called again on the manifest it
    has written to, it answers with the same object and changes nothing
    more. *)
Theorem getStartupAppOptions_idempotent appJson h h' opts :
  getStartupAppOptions strict appJson h = inr (h', opts) →
  getStartupAppOptions strict appJson h' = inr (h', opts).
Proof.
  intros Hrun.
  assert (Hcases :
    (∃ l, (get_field h appJson "startup_app" = VObj l ∨
           get_field h appJson "startup_app" = VFun l)) ∨
    (h' = h)).
  { revert Hrun. unfold getStartupAppOptions.
    destruct appJson as [| | | | |la|la]; try done;
      (destruct (get_field h _ "startup_app") as [| |[]|z|str|l0|l0] eqn:Hget;
       cbn [truthy set_property]; try (by intros [= <- <-]; right);
       try (left; by eauto);
       try (destruct (negb _); [|by intros [= <- <-]; right]);
       try (destruct strict; [done|by intros [= <- <-]; right])). }
  destruct Hcases as [[l Hget]| ->]; [|done].
  assert (Hfirst : getStartupAppOptions strict appJson h =
                   inr (assigned appJson h l,
                        get_field h appJson "startup_app")).
  { destruct Hget as [Hget|Hget];
      apply getStartupAppOptions_object; rewrite ?Hget; auto. }
  rewrite Hfirst in Hrun. injection Hrun as <- <-.
  destruct (assigned_again appJson h l Hget) as [Hopts Hheap].
  rewrite <- Hheap at 2. rewrite <- Hopts.
  apply getStartupAppOptions_object; [|done].
  rewrite Hopts. destruct Hget as [-> | ->]; auto.
Qed.
End StartupAppFacts.

Lemma getStartupAppOptions_writes_witness :
  ∃ h', getStartupAppOptions true (VObj Manifest.app) Manifest.heap =
          inr (h', VObj Manifest.startup_app) ∧
        get_field h' (VObj Manifest.startup_app) "preload" =
          VStr "manifest.js" ∧
        get_field h' (VObj Manifest.startup_app) "plugin" = VUndefined.
Proof.
  assert (Hget : get_field Manifest.heap (VObj Manifest.app) "startup_app" =
                 VObj Manifest.startup_app) by (vm_compute; reflexivity).
  destruct (getStartupAppOptions_writes true (VObj Manifest.app) Manifest.heap
              Manifest.startup_app Hget) as (h' & Hrun & Hpl & Hpr & _).
  exists h'. split; [exact Hrun|]. split.
  - rewrite Hpr. vm_compute. reflexivity.
  - rewrite Hpl. vm_compute. reflexivity.
Defined.

Lemma getStartupAppOptions_idempotent_witness :
  getStartupAppOptions true (VObj Manifest.app)
    (assigned (VObj Manifest.app) Manifest.heap Manifest.startup_app) =
    inr (assigned (VObj Manifest.app) Manifest.heap Manifest.startup_app,
         VObj Manifest.startup_app).
Proof.
  assert (Hrun : getStartupAppOptions true (VObj Manifest.app) Manifest.heap =
                 inr (assigned (VObj Manifest.app) Manifest.heap
                        Manifest.startup_app, VObj Manifest.startup_app))
    by (vm_compute; reflexivity).
  exact (getStartupAppOptions_idempotent true (VObj Manifest.app) Manifest.heap
           _ _ Hrun).
Defined.

(** ** Window options *)

Section ConvertOptionsFacts.
Import ConvertOptions.

(** Induction on a value with the hypothesis for the items of an array and
    the members of an object. *)
Lemma JS_rect_nested (P : JS → Prop) :
  P Undefined → P Null → (∀ b, P (Bool b)) → (∀ x, P (Num x)) →
  (∀ s, P (Str s)) →
  (∀ items, Forall P items → P (Arr items)) →
  (∀ ms, Forall (λ m, P (snd m)) ms → P (Obj ms)) →
  ∀ v, P v.
Proof.
  intros HU HN HB HNum HS HA HO.
  fix IH 1. intros [| |b|x|s|items|ms].
  - exact HU.
  - exact HN.
  - apply HB.
  - apply HNum.
  - apply HS.
  - apply HA. induction items as [|v items IHitems]; constructor.
    + apply IH.
    + exact IHitems.
  - apply HO. induction ms as [|[k v] ms IHms]; constructor.
    + apply IH.
    + exact IHms.
Qed.

Lemma validate_Obj ms user :
  validate_defined (Obj ms) user =
    Obj ((λ key, (key, pick (validate_defined <$> assoc key ms) (get (Obj ms) key)
                            (get user key)))
           <$> each_keys (Obj ms)).
Proof.
  cbn [validate_defined]. f_equal. apply list_fmap_ext. intros _ key _.
  do 2 f_equal. clear. induction ms as [|[k v] ms IH]; [done|].
  cbn [assoc]. destruct (decide (key = k)); [done|apply IH].
Qed.

Lemma validate_is_object base user : ∃ ms, validate_defined base user = Obj ms.
Proof. destruct base; cbn [validate_defined]; eauto. Qed.

Lemma typeof_validate base user : typeof (validate_defined base user) = TObject.
Proof. by destruct (validate_is_object base user) as [ms ->]. Qed.

Lemma assoc_keyed {A} (f : string → A) (keys : list string) k :
  assoc k ((λ key, (key, f key)) <$> keys) =
    if decide (k ∈ keys) then Some (f k) else None.
Proof.
  induction keys as [|k' keys IH]; cbn [fmap list_fmap assoc].
  - by rewrite decide_False by apply not_elem_of_nil.
  - destruct (decide (k = k')) as [->|Hne].
    + by rewrite decide_True by apply list_elem_of_here.
    + rewrite IH. destruct (decide (k ∈ keys)) as [Hin|Hnin].
      * by rewrite decide_True by by apply list_elem_of_further.
      * rewrite decide_False; [done|]. by intros [?|?]%elem_of_cons.
Qed.

Lemma fst_keyed {A} (f : string → A) (keys : list string) :
  fst <$> ((λ key, (key, f key)) <$> keys) = keys.
Proof. induction keys as [|k keys IH]; cbn; [done|]. by rewrite IH. Qed.

Lemma elem_of_keys {A} (ms : list (string * A)) k :
  k ∈ fst <$> ms ↔ is_Some (assoc k ms).
Proof.
  induction ms as [|[k' v] ms IH]; cbn [fmap list_fmap assoc fst].
  - split; [by intros ?%not_elem_of_nil|by intros [? ?]].
  - destruct (decide (k = k')) as [->|Hne].
    + split; [eauto|]. intros _. apply list_elem_of_here.
    + rewrite elem_of_cons, IH. split; [by intros [?|?]|by right].
Qed.

(** What validate gives under a name, for a base that is an object and is
    not array-like. *)
Lemma get_validate ms user k :
  array_like (Obj ms) = None →
  get (validate_defined (Obj ms) user) k =
    match assoc k ms with
    | Some b => pick (Some (validate_defined b)) b (get user k)
    | None => Undefined
    end.
Proof.
  intros Hal. rewrite validate_Obj. cbn [each_keys get]. rewrite Hal.
  rewrite assoc_keyed.
  destruct (assoc k ms) as [b|] eqn:Hk.
  - rewrite decide_True by (apply elem_of_keys; eauto). done.
  - rewrite decide_False; [done|]. rewrite elem_of_keys, Hk. by intros [? ?].
Qed.

Lemma validate_shape ms user :
  array_like (Obj ms) = None →
  (∃ ms', validate_defined (Obj ms) user = Obj ms' ∧ fst <$> ms' = fst <$> ms) ∧
  (∀ k, typeof (get (validate_defined (Obj ms) user) k) = typeof (get (Obj ms) k)) ∧
  (∀ k b, assoc k ms = Some b →
          get (validate_defined (Obj ms) user) k =
            if decide (typeof b = TObject) then validate_defined b (or_empty (get user k))
            else if decide (typeof (get user k) = typeof b) then get user k
            else b) ∧
  (∀ k, assoc k ms = None → get (validate_defined (Obj ms) user) k = Undefined).
Proof.
  intros Hal. split; [|split; [|split]].
  - rewrite validate_Obj. eexists. split; [reflexivity|].
    cbn [each_keys]. rewrite Hal. apply fst_keyed.
  - intros k. rewrite (get_validate ms user k Hal). cbn [get].
    destruct (assoc k ms) as [b|]; [|done]. cbn. unfold pick.
    destruct (decide (typeof b = TObject)) as [Hb|Hb].
    + cbn. by rewrite typeof_validate.
    + by destruct (decide _).
  - intros k b Hk. by rewrite (get_validate ms user k Hal), Hk.
  - intros k Hk. by rewrite (get_validate ms user k Hal), Hk.
Qed.

Lemma validate_not_nullish base user :
  nullish user = false → validate base user = inr (validate_defined base user).
Proof. intros Hu. unfold validate. rewrite Hu. by destruct (each_keys base). Qed.

Lemma or_empty_not_nullish v : nullish (or_empty v) = false.
Proof.
  unfold or_empty. destruct (truthy v) eqn:Hv; [|done]. by destruct v.
Qed.

(** X11: for a base object that is not array-like and has, at any depth, no
    inherited name, validate throws for a user that is undefined or null
    as soon as the base has a name, and answers otherwise with the names of the base and
    nothing else, under each name with a value of the type the base has
    there: a nested object validated in turn against user[key] || {}, and
    else the value of the user when its typeof is that of the base's, the
    base's own otherwise.  What the user has under other names is
    dropped. *)
Theorem validate_keeps_shape ms user :
  array_like (Obj ms) = None →
  own_names (Obj ms) = true →
  (nullish user = true → ms ≠ [] → ∃ e, validate (Obj ms) user = inl e) ∧
  (nullish user = false →
   ∃ r, validate (Obj ms) user = inr r ∧
     (∃ ms', r = Obj ms' ∧ fst <$> ms' = fst <$> ms) ∧
     (∀ k b, assoc k ms = Some b → typeof (get r k) = typeof b) ∧
     (∀ k b, assoc k ms = Some b →
        if decide (typeof b = TObject)
        then validate b (or_empty (get user k)) = inr (get r k)
        else get r k = if decide (typeof (get user k) = typeof b)
                       then get user k else b)).
Proof.
  intros Hal _. split.
  - intros Hu Hms. unfold validate. cbn [each_keys]. rewrite Hal, Hu.
    destruct ms as [|[k v] ms]; [done|]. cbn. eauto.
  - intros Hu. exists (validate_defined (Obj ms) user).
    split; [by apply validate_not_nullish|].
    destruct (validate_shape ms user Hal) as (Hnames & Htypes & Hsome & _).
    split; [exact Hnames|]. split.
    + intros k b Hk. rewrite Htypes. cbn [get]. by rewrite Hk.
    + intros k b Hk. rewrite (Hsome k b Hk).
      destruct (decide (typeof b = TObject)); [|done].
      apply validate_not_nullish, or_empty_not_nullish.
Qed.

Lemma record_Obj ms :
  record (Obj ms) = true ↔
    NoDup (fst <$> ms) ∧ array_like (Obj ms) = None ∧
    Forall (λ m, typeof (snd m) = TObject → record (snd m) = true) ms.
Proof.
  cbn [record]. rewrite !andb_true_iff, !bool_decide_eq_true.
  assert (Hall : ∀ l : list (string * JS),
            (fix all (l : list (string * JS)) : bool :=
               match l with
               | [] => true
               | (_, v) :: l' =>
                   (if decide (typeof v = TObject) then record v else true)
                   && all l'
               end) l = true ↔
            Forall (λ m, typeof (snd m) = TObject → record (snd m) = true) l).
  { induction l as [|[k v] l IH]; [split; [constructor|done]|].
    rewrite andb_true_iff, IH, Forall_cons. cbn [snd].
    destruct (decide (typeof v = TObject)); [split; [intros [? ?]; split; auto|intros [H ?]; split; auto]|split; [intros [_ ?]; split; [done|auto]|intros [_ ?]; auto]]. }
  rewrite Hall. tauto.
Qed.

Lemma assoc_NoDup {A} (ms : list (string * A)) k v :
  NoDup (fst <$> ms) → (k, v) ∈ ms → assoc k ms = Some v.
Proof.
  induction ms as [|[k' v'] ms IH]; intros Hnd Hin.
  - by apply not_elem_of_nil in Hin.
  - apply NoDup_cons in Hnd as [Hk' Hnd]. cbn [assoc].
    apply elem_of_cons in Hin as [[= -> ->]|Hin].
    + by rewrite decide_True.
    + rewrite decide_False; [by apply IH|].
      intros ->. apply Hk'. apply list_elem_of_fmap. by exists (k', v).
Qed.

Lemma keyed_members {A} (f : string → A) (ms : list (string * A)) :
  (∀ k v, (k, v) ∈ ms → f k = v) →
  (λ key, (key, f key)) <$> (fst <$> ms) = ms.
Proof.
  induction ms as [|[k v] ms IH]; intros H; [done|].
  cbn [fmap list_fmap fst]. rewrite (H k v) by apply list_elem_of_here.
  f_equal. apply IH. intros k' v' Hin. apply H. by apply list_elem_of_further.
Qed.

Lemma keyed_ext {A} (f g : string → A) (keys : list string) :
  (∀ k, k ∈ keys → f k = g k) →
  (λ key, (key, f key)) <$> keys = (λ key, (key, g key)) <$> keys.
Proof.
  intros H. apply list_fmap_ext. intros i k Hk. f_equal. apply H.
  by apply list_elem_of_lookup_2 in Hk.
Qed.

Lemma validate_of_empty base :
  record base = true → validate_defined base (Obj []) = base.
Proof.
  induction base as [| | | | | |ms IH] using JS_rect_nested; try done.
  intros (Hnd & Hal & Hrec)%record_Obj.
  rewrite validate_Obj. cbn [each_keys]. rewrite Hal. f_equal.
  apply keyed_members. intros k b Hin.
  rewrite (assoc_NoDup ms k b Hnd Hin). cbn [fmap option_fmap option_map get].
  rewrite (assoc_NoDup ms k b Hnd Hin). cbn. unfold pick.
  rewrite Forall_forall in IH, Hrec.
  destruct (decide (typeof b = TObject)) as [Hb|Hb].
  - cbn. apply (IH (k, b) Hin), (Hrec (k, b) Hin Hb).
  - destruct (decide _) as [Heq|]; [|done]. by destruct b.
Qed.

(** X12: validating nothing gives the base: for a base of plain records
    without inherited names, validate(base, {}) is the base itself. *)
Theorem validate_empty_is_base base :
  record base = true → own_names base = true →
  validate base (Obj []) = inr base.
Proof.
  intros Hrec _. rewrite validate_not_nullish by done.
  f_equal. by apply validate_of_empty.
Qed.

Lemma or_empty_object v : typeof v = TObject → v ≠ Null → or_empty v = v.
Proof. by destruct v. Qed.

Lemma validate_twice base user :
  record base = true →
  validate_defined base (validate_defined base user) = validate_defined base user.
Proof.
  revert user.
  induction base as [| | | | | |ms IH] using JS_rect_nested; try done.
  intros user (Hnd & Hal & Hrec)%record_Obj.
  etrans; [apply validate_Obj|]. etrans; [|symmetry; apply validate_Obj].
  f_equal. apply keyed_ext. intros k Hk.
  cbn [each_keys] in Hk. rewrite Hal in Hk.
  apply list_elem_of_fmap in Hk as ([k' b] & -> & Hin). cbn [fst].
  rewrite (get_validate ms user k' Hal), (assoc_NoDup ms k' b Hnd Hin).
  cbn [fmap option_fmap option_map get].
  rewrite (assoc_NoDup ms k' b Hnd Hin). cbn [from_option Datatypes.id].
  rewrite Forall_forall in IH, Hrec. unfold pick.
  destruct (decide (typeof b = TObject)) as [Hb|Hb].
  - cbn [from_option Datatypes.id].
    destruct (validate_is_object b (or_empty (get user k'))) as [ms' Hv].
    rewrite or_empty_object by by rewrite Hv.
    apply (IH (k', b) Hin), (Hrec (k', b) Hin Hb).
  - destruct (decide (typeof (get user k') = typeof b)) as [Heq|Hne].
    + by rewrite decide_True.
    + by rewrite decide_True.
Qed.

(** X13: validate is idempotent: for a base of plain records without
    inherited names and a user that is not undefined or null, validate
    answers, and validating what it answered gives the same again. *)
Theorem validate_idempotent base user :
  record base = true → own_names base = true → nullish user = false →
  ∃ r, validate base user = inr r ∧ validate base r = inr r.
Proof.
  intros Hrec _ Hu. exists (validate_defined base user).
  split; [by apply validate_not_nullish|].
  destruct (validate_is_object base user) as [ms Hms].
  rewrite validate_not_nullish by by rewrite Hms.
  f_equal. by apply validate_twice.
Qed.

(** *** Reading and writing members *)

Lemma assoc_set_member_eq k v ms : assoc k (set_member k v ms) = Some v.
Proof.
  induction ms as [|[k' x] ms IH]; cbn [set_member assoc].
  - by rewrite decide_True.
  - destruct (decide (k = k')) as [->|Hne]; cbn [assoc].
    + by rewrite decide_True.
    + by rewrite decide_False.
Qed.

Lemma assoc_set_member_ne k k' v ms :
  k ≠ k' → assoc k' (set_member k v ms) = assoc k' ms.
Proof.
  intros Hne. induction ms as [|[k0 x] ms IH]; cbn [set_member assoc].
  - by rewrite decide_False.
  - destruct (decide (k = k0)) as [->|Hne0]; cbn [assoc].
    + by rewrite !decide_False.
    + by destruct (decide (k' = k0)).
Qed.

Ltac simpl_members :=
  cbn [get set members];
  repeat (rewrite assoc_set_member_eq || rewrite assoc_set_member_ne by done).

Lemma get_set_eq k v ms : get (set k v (Obj ms)) k = v.
Proof. cbn [set get]. by rewrite assoc_set_member_eq. Qed.

Lemma get_set_ne k k' v ms :
  k ≠ k' → get (set k v (Obj ms)) k' = get (Obj ms) k'.
Proof. intros H. cbn [set get]. by rewrite assoc_set_member_ne. Qed.

Lemma set_member_new k v ms :
  assoc k ms = None → set_member k v ms = ms ++ [(k, v)].
Proof.
  induction ms as [|[k' x] ms IH]; cbn [set_member assoc]; [done|].
  destruct (decide (k = k')); [done|]. intros H. by rewrite IH.
Qed.

Lemma assoc_app_new {A} k k' (v : A) ms :
  k ≠ k' → assoc k' (ms ++ [(k, v)]) = assoc k' ms.
Proof.
  intros Hne. induction ms as [|[k0 x] ms IH]; cbn [app assoc].
  - by rewrite decide_False.
  - by destruct (decide (k' = k0)).
Qed.

Lemma record_set_leaf k v ms :
  record (Obj ms) = true → assoc k ms = None → k ≠ "length" →
  typeof v ≠ TObject → record (set k v (Obj ms)) = true.
Proof.
  intros (Hnd & Hal & Hrec)%record_Obj Hk Hlen Hv. cbn [set].
  rewrite (set_member_new k v ms Hk). apply record_Obj. split; [|split].
  - rewrite fmap_app. apply NoDup_app. split; [done|]. split.
    + intros k' Hin Hk'. cbn in Hk'. apply list_elem_of_singleton in Hk'.
      subst k'. apply elem_of_keys in Hin as [x Hx]. rewrite Hk in Hx. discriminate.
    + apply NoDup_singleton.
  - unfold array_like in *. cbn [get] in *.
    by rewrite (assoc_app_new k "length" v ms Hlen).
  - apply Forall_app. split; [done|]. by constructor.
Qed.

(** *** The 5.0 defaults *)

Lemma five0_record c z :
  typeof c ≠ TObject → typeof z ≠ TObject →
  record (five0BaseOptions c z) = true.
Proof.
  intros Hc Hz. apply record_Obj. split; [|split].
  - apply (bool_decide_unpack _). vm_compute. exact I.
  - reflexivity.
  - repeat constructor; cbn [snd typeof]; try discriminate; intros _;
      try (vm_compute; reflexivity).
    apply record_Obj. split; [|split].
    + apply (bool_decide_unpack _). vm_compute. exact I.
    + reflexivity.
    + by repeat constructor.
Qed.

Lemma five0_no_rawWindowOpen c z :
  get (five0BaseOptions c z) "rawWindowOpen" = Undefined.
Proof. reflexivity. Qed.

Lemma five0_members c z :
  ∃ ms, five0BaseOptions c z = Obj ms ∧
        assoc "length" ms = None ∧ assoc "rawWindowOpen" ms = None.
Proof. eexists. split; [reflexivity|]. split; reflexivity. Qed.

Lemma get_set_other k k' v o : k ≠ k' → get (set k v o) k' = get o k'.
Proof. intros Hne. destruct o; try done. by apply get_set_ne. Qed.

Section Validated.
Variable H : Host.

(** The base validateOptions validates against: the defaults, with the
    rawWindowOpen of the options when that is truthy. *)
Lemma validateOptions_base options v :
  validateOptions H options = inr v →
  ∃ ms, v = validate_defined (Obj ms) options ∧
        array_like (Obj ms) = None ∧
        (∀ k, k ≠ "rawWindowOpen" → get (Obj ms) k = get (defaults H) k) ∧
        Obj ms = (if truthy (get options "rawWindowOpen")
                  then set "rawWindowOpen" (get options "rawWindowOpen") (defaults H)
                  else (defaults H)).
Proof.
  unfold validateOptions, defaults.
  destruct (five0_members (DEFAULT_RESIZE_REGION_BOTTOM_RIGHT_CORNER H)
              (DEFAULT_RESIZE_REGION_SIZE H)) as (ms & Hms & Hlen & Hraw).
  rewrite !Hms. destruct (nullish options) eqn:Hn; [done|].
  rewrite validate_not_nullish by done. intros [= <-].
  destruct (truthy (get options "rawWindowOpen")).
  - cbn [set]. eexists. split; [reflexivity|]. split; [|split; [|reflexivity]].
    + unfold array_like. cbn [get].
      by rewrite assoc_set_member_ne, Hlen by done.
    + intros k Hk. cbn [get]. by rewrite assoc_set_member_ne by done.
  - exists ms. split; [done|]. split; [|done].
    unfold array_like. cbn [get]. by rewrite Hlen.
Qed.

Lemma validateOptions_typeof options v k :
  validateOptions H options = inr v → k ≠ "rawWindowOpen" →
  typeof (get v k) = typeof (get (defaults H) k).
Proof.
  intros Hv Hk.
  destruct (validateOptions_base options v Hv) as (ms & -> & Hal & Hget & _).
  destruct (validate_shape ms options Hal) as (_ & Htypes & _).
  by rewrite Htypes, Hget.
Qed.

(** X14: whatever the options, validateOptions answers with a value of the
    type of the default under every name of the defaults (a boolean where
    the default is a boolean, a number where it is a number, an object
    where it is an object) and with undefined under every other name but
    rawWindowOpen. *)
Theorem validateOptions_types options v :
  validateOptions H options = inr v →
  ∀ k, k ≠ "rawWindowOpen" → typeof (get v k) = typeof (get (defaults H) k).
Proof. intros Hv k Hk. by apply (validateOptions_typeof options). Qed.

(** X15: options that say nothing are given the defaults as they stand. *)
Theorem validateOptions_defaults :
  typeof (DEFAULT_RESIZE_REGION_BOTTOM_RIGHT_CORNER H) ≠ TObject →
  typeof (DEFAULT_RESIZE_REGION_SIZE H) ≠ TObject →
  validateOptions H (Obj []) = inr (defaults H).
Proof.
  intros Hc Hz. unfold validateOptions.
  cbn [nullish get assoc from_option truthy].
  rewrite validate_not_nullish by done. f_equal.
  apply validate_of_empty. by apply five0_record.
Qed.

(** X16: validateOptions is idempotent on options whose rawWindowOpen is not
    an object: what it answers validates to itself. *)
Theorem validateOptions_idempotent options v :
  typeof (DEFAULT_RESIZE_REGION_BOTTOM_RIGHT_CORNER H) ≠ TObject →
  typeof (DEFAULT_RESIZE_REGION_SIZE H) ≠ TObject →
  typeof (get options "rawWindowOpen") ≠ TObject →
  validateOptions H options = inr v →
  validateOptions H v = inr v.
Proof.
  intros Hc Hz Hraw Hv.
  pose proof (five0_record _ _ Hc Hz) as Hrec. fold (defaults H) in Hrec.
  destruct (validateOptions_base options v Hv) as (ms & -> & Hal & Hget & Hms).
  destruct (validate_is_object (Obj ms) options) as [ms' Hms'].
  unfold validateOptions. rewrite Hms'. cbn [nullish].
  rewrite validate_not_nullish by done. rewrite <- Hms'.
  fold (defaults H). f_equal.
  destruct (five0_members (DEFAULT_RESIZE_REGION_BOTTOM_RIGHT_CORNER H)
              (DEFAULT_RESIZE_REGION_SIZE H)) as (ms0 & Hms0 & Hlen & Hnone).
  fold (defaults H) in Hms0.
  destruct (validate_shape ms options Hal) as (_ & _ & Hsome & Hnone').
  destruct (truthy (get options "rawWindowOpen")) eqn:Htr.
  - assert (Hin : assoc "rawWindowOpen" ms = Some (get options "rawWindowOpen")).
    { rewrite Hms0 in Hms. cbn [set] in Hms. injection Hms as ->.
      apply assoc_set_member_eq. }
    rewrite (Hsome _ _ Hin), decide_False, decide_True by done.
    rewrite Htr, <- Hms. apply validate_twice.
    rewrite Hms, Hms0. apply record_set_leaf; try done. by rewrite <- Hms0.
  - assert (Hin : assoc "rawWindowOpen" ms = None).
    { rewrite Hms0 in Hms. by injection Hms as ->. }
    rewrite (Hnone' _ Hin). cbn [truthy]. rewrite <- Hms.
    apply validate_twice. by rewrite Hms.
Qed.
End Validated.

(** *** convertToElectron *)

Lemma lt_irrefl x : lt x x = false.
Proof.
  destruct x as [| |q|]; try done. cbn.
  apply negb_false_iff, QArith_base.Qle_bool_iff, QArith_base.Qle_refl.
Qed.

Lemma less_irrefl v : less v v = false.
Proof. destruct v; try done. apply lt_irrefl. Qed.

(** The size fit chooses is not below the minimum and, when there is a
    maximum, not above it, as long as the maximum is not below the
    minimum. *)
Lemma fit_within min max default :
  (is_not_minus_one max = true → less max min = false) →
  less (fit min max default) min = false ∧
  (is_not_minus_one max = true → less max (fit min max default) = false).
Proof.
  intros Hmm. unfold fit.
  destruct (less default min) eqn:Hlow.
  - split; [apply less_irrefl|done].
  - destruct (is_not_minus_one max) eqn:Hmax; cbn [andb].
    + destruct (less max default) eqn:Hhigh.
      * split; [by apply Hmm|]. intros _. apply less_irrefl.
      * done.
    + done.
Qed.

Lemma is_object_set k v o : is_object o → is_object (set k v o).
Proof. intros [ms ->]. cbn. by eexists. Qed.

Lemma is_object_copy_defined k options o :
  is_object o → is_object (copy_defined k options o).
Proof.
  intros Ho. unfold copy_defined.
  destruct (get options k); try done; by apply is_object_set.
Qed.

Lemma get_members o k : get o k = default Undefined (assoc k (members o)) ∨ ¬ is_object o.
Proof. destruct o; try (right; by intros [? ?]). by left. Qed.

Lemma get_object o k :
  is_object o → get o k = default Undefined (assoc k (members o)).
Proof. by intros [ms ->]. Qed.

Lemma members_set_ne k k' v o :
  k ≠ k' → assoc k' (members (set k v o)) = assoc k' (members o).
Proof. intros Hne. destruct o; try done. by apply assoc_set_member_ne. Qed.

Lemma members_set_eq k v o :
  is_object o → assoc k (members (set k v o)) = Some v.
Proof. intros [ms ->]. apply assoc_set_member_eq. Qed.

Lemma members_copy_defined key options o k :
  key ≠ k →
  assoc k (members (copy_defined key options o)) = assoc k (members o).
Proof.
  intros Hne. unfold copy_defined.
  destruct (get options key); try done; by apply members_set_ne.
Qed.

Lemma is_object_assign k f o : is_object o → is_object (assign k f o).
Proof. apply is_object_set. Qed.

Lemma get_assign_ne k k' f o : k ≠ k' → get (assign k f o) k' = get o k'.
Proof. apply get_set_other. Qed.

Lemma get_assign_eq k f o : is_object o → get (assign k f o) k = f o.
Proof. intros [ms ->]. apply get_set_eq. Qed.

Lemma members_assign_ne k k' f o :
  k ≠ k' → assoc k' (members (assign k f o)) = assoc k' (members o).
Proof. apply members_set_ne. Qed.

Lemma members_assign_eq k f o :
  is_object o → assoc k (members (assign k f o)) = Some (f o).
Proof. apply members_set_eq. Qed.

Ltac through_assign :=
  repeat first
    [ rewrite members_assign_ne by done
    | rewrite get_assign_ne by done
    | rewrite members_assign_eq by (repeat apply is_object_assign; done)
    | rewrite get_assign_eq by (repeat apply is_object_assign; done) ];
  cbv beta.

Lemma is_object_container_options o :
  is_object o → is_object (container_options o).
Proof.
  intros Ho. unfold container_options.
  destruct (truthy _); repeat apply is_object_assign; done.
Qed.

Section Converted.
Variable H : Host.

Lemma electron_options_members options v w o :
  validateOptions H options = inr v →
  electron_options H options = inr (w, o) →
  is_object o ∧
  (∀ k, k ∉ late_keys → assoc k (members o) = assoc k (members (placed H v))) ∧
  assoc "webPreferences" (members o) = Some (webPreferences H (placed H v)).
Proof.
  intros Hv. unfold electron_options. rewrite Hv. fold (placed H v).
  assert (Hp : is_object (placed H v)).
  { unfold placed. destruct (validateOptions_base H options v Hv) as (ms & -> & _).
    destruct (inContainer H); [apply is_object_container_options|];
      apply validate_is_object. }
  assert (Hwp : webPreferences H (set "enable-plugins" (Bool true)
                  (set "enableLargerThanScreen" (Bool true) (placed H v))) =
                webPreferences H (placed H v)).
  { unfold webPreferences. by rewrite !get_set_other by done. }
  rewrite Hwp.
  destruct (has_property "preload" options) as [e|has]; [done|].
  assert (Hlate : ∀ k, k ∉ late_keys →
            "enableLargerThanScreen" ≠ k ∧ "enable-plugins" ≠ k ∧
            "webPreferences" ≠ k ∧ "message" ≠ k ∧ "customData" ≠ k ∧
            "permissions" ≠ k ∧ "preload" ≠ k ∧ "plugin" ≠ k ∧
            "customRequestHeaders" ≠ k).
  { intros k Hk. repeat split; intros <-; apply Hk; unfold late_keys;
      repeat (apply list_elem_of_here || apply list_elem_of_further). }
  destruct has.
  - destruct (normalizePreload (get options "preload")) as [e|[w' p]]; [done|].
    intros [= <- <-]. split; [|split].
    + repeat (apply is_object_copy_defined || apply is_object_set). done.
    + intros k (?&?&?&?&?&?&?&?&?)%Hlate.
      by rewrite !members_copy_defined, !members_set_ne,
        !members_copy_defined, !members_set_ne by done.
    + rewrite !members_copy_defined, !members_set_ne,
        !members_copy_defined by done.
      apply members_set_eq. by repeat apply is_object_set.
  - intros [= <- <-]. split; [|split].
    + repeat (apply is_object_copy_defined || apply is_object_set). done.
    + intros k (?&?&?&?&?&?&?&?&?)%Hlate.
      by rewrite !members_copy_defined, !members_set_ne,
        !members_copy_defined, !members_set_ne by done.
    + rewrite !members_copy_defined, !members_set_ne,
        !members_copy_defined by done.
      apply members_set_eq. by repeat apply is_object_set.
Qed.

Lemma container_options_members v :
  is_object v →
  let o := container_options v in
  assoc "height" (members o) =
    Some (fit (get v "minHeight") (get v "maxHeight") (get v "defaultHeight")) ∧
  assoc "width" (members o) =
    Some (fit (get v "minWidth") (get v "maxWidth") (get v "defaultWidth")) ∧
  assoc "center" (members o) = Some (get v "defaultCentered") ∧
  (if truthy (get v "defaultCentered")
   then assoc "x" (members o) = assoc "x" (members v) ∧
        assoc "y" (members o) = assoc "y" (members v)
   else assoc "x" (members o) = Some (get v "defaultLeft") ∧
        assoc "y" (members o) = Some (get v "defaultTop")) ∧
  get o "webSecurity" = get v "webSecurity" ∧
  get o "plugins" = get v "plugins".
Proof.
  intros Hv o. subst o. unfold container_options.
  rewrite get_assign_eq by (repeat apply is_object_assign; done).
  rewrite !get_assign_ne by done.
  destruct (truthy (get v "defaultCentered"));
    repeat split; through_assign; done.
Qed.

Lemma roundtrip_Undefined x : roundtrip x = Undefined → x = Undefined.
Proof. destruct x as [| | |[]| | |]; done. Qed.

Lemma members_roundtrip ms k x :
  assoc k ms = Some x → roundtrip x ≠ Undefined →
  assoc k (members (roundtrip (Obj ms))) = Some (roundtrip x).
Proof.
  induction ms as [|[k' y] ms IH]; [done|].
  cbn [assoc]. destruct (decide (k = k')) as [->|Hne].
  - intros [= ->] Hx. cbn [roundtrip members].
    destruct (roundtrip x) eqn:Hr; try done; cbn [assoc];
      by rewrite decide_True.
  - intros Hk Hx. specialize (IH Hk Hx). cbn [roundtrip members] in *.
    destruct (roundtrip y); cbn [assoc]; rewrite ?decide_False by done; done.
Qed.

Lemma members_roundtrip_None ms k :
  assoc k ms = None → assoc k (members (roundtrip (Obj ms))) = None.
Proof.
  induction ms as [|[k' y] ms IH]; [done|].
  cbn [assoc]. destruct (decide (k = k')) as [->|Hne]; [done|].
  intros Hk. specialize (IH Hk). cbn [roundtrip members] in *.
  destruct (roundtrip y); cbn [assoc]; rewrite ?decide_False by done; done.
Qed.

Lemma get_roundtrip o k x :
  is_object o → assoc k (members o) = Some x → roundtrip x ≠ Undefined →
  get (roundtrip o) k = roundtrip x.
Proof.
  intros [ms ->] Hk Hx. pose proof (members_roundtrip ms k x Hk Hx) as Hr.
  cbn [roundtrip members get] in *. by rewrite Hr.
Qed.

Lemma get_roundtrip_None o k :
  is_object o → assoc k (members o) = None → get (roundtrip o) k = Undefined.
Proof.
  intros [ms ->] Hk. pose proof (members_roundtrip_None ms k Hk) as Hr.
  cbn [roundtrip members get] in *. by rewrite Hr.
Qed.

Lemma members_get o k x :
  is_object o → get o k = x → x ≠ Undefined → assoc k (members o) = Some x.
Proof.
  intros [ms ->]. cbn [get members]. destruct (assoc k ms); cbn; congruence.
Qed.

Lemma typeof_fit min max default :
  typeof min = TNumber → typeof max = TNumber → typeof default = TNumber →
  typeof (fit min max default) = TNumber.
Proof. intros. unfold fit. by repeat destruct (_ : bool). Qed.

Lemma typeof_roundtrip_defined x : typeof x ≠ TUndefined → roundtrip x ≠ Undefined.
Proof. intros Hx Hr. apply roundtrip_Undefined in Hr. by subst. Qed.

(** What convertToElectron answers with when asked for an object. *)
Lemma convertToElectron_object options w r :
  convertToElectron H options false = inr (w, AsObject r) →
  ∃ v o, validateOptions H options = inr v ∧
         electron_options H options = inr (w, o) ∧ r = roundtrip o.
Proof.
  unfold convertToElectron.
  destruct (electron_options H options) as [e|[w' o]] eqn:He; [done|].
  intros [= <- <-]. unfold electron_options in He.
  destruct (validateOptions H options) as [e|v] eqn:Hv; [done|].
  by exists v, o.
Qed.

Lemma converted_member options w r v k x :
  validateOptions H options = inr v →
  convertToElectron H options false = inr (w, AsObject r) →
  k ∉ late_keys →
  assoc k (members (placed H v)) = Some x → typeof x ≠ TUndefined →
  get r k = roundtrip x.
Proof.
  intros Hv (v' & o & Hv' & Ho & ->)%convertToElectron_object Hk Hx Hdef.
  rewrite Hv in Hv'. injection Hv' as <-.
  destruct (electron_options_members options v w o Hv Ho) as (Hobj & Hkeep & _).
  apply get_roundtrip; [done| |by apply typeof_roundtrip_defined].
  by rewrite Hkeep.
Qed.

Lemma not_late k : bool_decide (k ∈ late_keys) = false → k ∉ late_keys.
Proof. by intros ?%bool_decide_eq_false. Qed.

Lemma validateOptions_is_object options v :
  validateOptions H options = inr v → is_object v.
Proof.
  intros (ms & -> & _)%validateOptions_base. apply validate_is_object.
Qed.

(** The value validateOptions gives a name of the defaults whose default
    is not an object. *)
Lemma validateOptions_leaf options v k b :
  validateOptions H options = inr v → k ≠ "rawWindowOpen" →
  get (defaults H) k = b → typeof b ≠ TObject → b ≠ Undefined →
  get v k = if decide (typeof (get options k) = typeof b) then get options k
            else b.
Proof.
  intros Hv Hk Hb Hleaf Hdef.
  destruct (validateOptions_base H options v Hv) as (ms & -> & Hal & Hget & _).
  destruct (validate_shape ms options Hal) as (_ & _ & Hsome & _).
  assert (Hin : assoc k ms = Some b).
  { apply (members_get (Obj ms)); [by eexists| |done]. by rewrite Hget. }
  by rewrite (Hsome k b Hin), decide_False.
Qed.

Lemma less_number a b : less a b = true → typeof a = TNumber ∧ typeof b = TNumber.
Proof. destruct a; try done. by destruct b. Qed.

Lemma placed_size options w o v :
  inContainer H = true →
  validateOptions H options = inr v →
  electron_options H options = inr (w, o) →
  is_object o ∧
  assoc "height" (members o) =
    Some (fit (get v "minHeight") (get v "maxHeight") (get v "defaultHeight")) ∧
  assoc "width" (members o) =
    Some (fit (get v "minWidth") (get v "maxWidth") (get v "defaultWidth")) ∧
  typeof (fit (get v "minHeight") (get v "maxHeight") (get v "defaultHeight"))
    = TNumber ∧
  typeof (fit (get v "minWidth") (get v "maxWidth") (get v "defaultWidth"))
    = TNumber.
Proof.
  intros Hin Hv Ho.
  pose proof (validateOptions_is_object options v Hv) as Hobj.
  destruct (container_options_members v Hobj) as (Hhe & Hwi & _).
  destruct (electron_options_members options v w o Hv Ho) as (Hobj' & Hkeep & _).
  assert (Hnum : ∀ k, k ≠ "rawWindowOpen" →
            typeof (get (defaults H) k) = TNumber → typeof (get v k) = TNumber).
  { intros k Hk <-. by apply (validateOptions_typeof H options). }
  split; [done|].
  rewrite !Hkeep by by apply not_late. unfold placed. rewrite Hin.
  split; [done|]. split; [done|].
  split; apply typeof_fit; by apply Hnum.
Qed.

(** X17: in the container the height convertToElectron gives newOptions is a
    number, the validated default height brought between the validated
    minimum and maximum: [height < minHeight] is false and, unless the
    maximum is -1 (none), [height > maxHeight] is false, as long as a
    maximum that is given is not below the minimum; and likewise for the
    width.  The object answered carries both as JSON gives them back
    (null for a number that is not finite). *)
Theorem converted_size_within options w o v :
  inContainer H = true →
  validateOptions H options = inr v →
  electron_options H options = inr (w, o) →
  (is_not_minus_one (get v "maxHeight") = true →
   less (get v "maxHeight") (get v "minHeight") = false) →
  (is_not_minus_one (get v "maxWidth") = true →
   less (get v "maxWidth") (get v "minWidth") = false) →
  (typeof (get o "height") = TNumber ∧
   less (get o "height") (get v "minHeight") = false ∧
   (is_not_minus_one (get v "maxHeight") = true →
    less (get v "maxHeight") (get o "height") = false)) ∧
  (typeof (get o "width") = TNumber ∧
   less (get o "width") (get v "minWidth") = false ∧
   (is_not_minus_one (get v "maxWidth") = true →
    less (get v "maxWidth") (get o "width") = false)) ∧
  (∀ r, convertToElectron H options false = inr (w, AsObject r) →
        get r "height" = roundtrip (get o "height") ∧
        get r "width" = roundtrip (get o "width")).
Proof.
  intros Hin Hv Ho Hh Hw.
  destruct (placed_size options w o v Hin Hv Ho)
    as (Hobj & Hhe & Hwi & Hth & Htw).
  assert (Hoh : get o "height" =
            fit (get v "minHeight") (get v "maxHeight") (get v "defaultHeight")).
  { by rewrite (get_object o "height" Hobj), Hhe. }
  assert (How : get o "width" =
            fit (get v "minWidth") (get v "maxWidth") (get v "defaultWidth")).
  { by rewrite (get_object o "width" Hobj), Hwi. }
  destruct (fit_within _ _ (get v "defaultHeight") Hh) as [Hh1 Hh2].
  destruct (fit_within _ _ (get v "defaultWidth") Hw) as [Hw1 Hw2].
  rewrite Hoh, How. split; [done|]. split; [done|].
  intros r Hr.
  destruct (convertToElectron_object options w r Hr)
    as (v' & o' & _ & Ho' & ->).
  rewrite Ho in Ho'. injection Ho' as <-. rewrite <- Hoh, <- How. split.
  - apply (get_roundtrip o "height"); [done| |].
    + by rewrite Hhe, Hoh.
    + apply typeof_roundtrip_defined. by rewrite Hoh, Hth.
  - apply (get_roundtrip o "width"); [done| |].
    + by rewrite Hwi, How.
    + apply typeof_roundtrip_defined. by rewrite How, Htw.
Qed.

(** X18: a minimum above the maximum wins: when the validated default height
    is below the minimum, the height is the minimum, whatever the
    maximum. *)
Theorem converted_height_minimum_wins options w r v :
  inContainer H = true →
  validateOptions H options = inr v →
  convertToElectron H options false = inr (w, AsObject r) →
  less (get v "defaultHeight") (get v "minHeight") = true →
  get r "height" = roundtrip (get v "minHeight").
Proof.
  intros Hin Hv Hr Hlow.
  pose proof (validateOptions_is_object options v Hv) as Hobj.
  destruct (container_options_members v Hobj) as (Hhe & _).
  unfold fit in Hhe. rewrite Hlow in Hhe.
  apply (converted_member options w r v); try done.
  - by apply not_late.
  - unfold placed. by rewrite Hin.
  - apply less_number in Hlow as [_ ->]. done.
Qed.

(** The names of what validateOptions answers with are those of the
    defaults, and rawWindowOpen. *)
Lemma validateOptions_absent options v k :
  validateOptions H options = inr v → k ≠ "rawWindowOpen" →
  assoc k (members (defaults H)) = None → assoc k (members v) = None.
Proof.
  intros Hv Hk Hd.
  destruct (validateOptions_base H options v Hv) as (ms & -> & Hal & _ & Hms).
  destruct (validate_shape ms options Hal) as ((ms' & -> & Hfst) & _).
  cbn [members]. destruct (assoc k ms') eqn:Hk'; [|done].
  assert (His : is_Some (assoc k ms)).
  { apply elem_of_keys. rewrite <- Hfst. apply elem_of_keys. eauto. }
  assert (Hsame : assoc k (members (Obj ms)) = assoc k (members (defaults H))).
  { rewrite Hms. destruct (truthy _); [|done]. by apply members_set_ne. }
  change (members (Obj ms)) with ms in Hsame.
  rewrite Hsame, Hd in His. by destruct His.
Qed.

(** X19: in the container the window is placed at the validated defaultLeft
    and defaultTop unless it is centered, and then the object answered has
    no x and no y. *)
Theorem converted_position options w r v :
  inContainer H = true →
  validateOptions H options = inr v →
  convertToElectron H options false = inr (w, AsObject r) →
  get r "center" = get v "defaultCentered" ∧
  if truthy (get v "defaultCentered")
  then get r "x" = Undefined ∧ get r "y" = Undefined
  else get r "x" = roundtrip (get v "defaultLeft") ∧
       get r "y" = roundtrip (get v "defaultTop").
Proof.
  intros Hin Hv Hr.
  pose proof (validateOptions_is_object options v Hv) as Hobj.
  destruct (container_options_members v Hobj) as (_ & _ & Hc & Hxy & _).
  assert (Hty : ∀ k, k ≠ "rawWindowOpen" →
            typeof (get v k) = typeof (get (defaults H) k)).
  { intros k Hk. by apply (validateOptions_typeof H options). }
  assert (Hcen : ∃ b, get v "defaultCentered" = Bool b).
  { specialize (Hty "defaultCentered"). cbn in Hty.
    destruct (get v "defaultCentered"); try (by discriminate Hty); eauto. }
  destruct Hcen as [b Hb]. split.
  - rewrite (converted_member options w r v "center" (get v "defaultCentered")
               Hv Hr); [by rewrite Hb|by apply not_late| |by rewrite Hb].
    unfold placed. by rewrite Hin.
  - destruct (truthy (get v "defaultCentered")).
    + destruct Hxy as [Hx Hy].
      destruct (convertToElectron_object options w r Hr)
        as (v' & o & Hv' & Ho & ->).
      destruct (electron_options_members options v w o Hv Ho)
        as (Hobj' & Hkeep & _).
      split; apply get_roundtrip_None; try done.
      * rewrite Hkeep by by apply not_late. unfold placed. rewrite Hin, Hx.
        by apply (validateOptions_absent options).
      * rewrite Hkeep by by apply not_late. unfold placed. rewrite Hin, Hy.
        by apply (validateOptions_absent options).
    + destruct Hxy as [Hx Hy]. split.
      * apply (converted_member options w r v); try done.
        -- by apply not_late.
        -- unfold placed. by rewrite Hin.
        -- by rewrite Hty.
      * apply (converted_member options w r v); try done.
        -- by apply not_late.
        -- unfold placed. by rewrite Hin.
        -- by rewrite Hty.
Qed.

Lemma get_placed options v k :
  validateOptions H options = inr v →
  k = "webSecurity" ∨ k = "plugins" →
  get (placed H v) k = get v k.
Proof.
  intros Hv Hk. unfold placed. destruct (inContainer H); [|done].
  pose proof (validateOptions_is_object options v Hv) as Hobj.
  destruct (container_options_members v Hobj) as (_ & _ & _ & _ & Hws & Hpl).
  by destruct Hk as [->| ->].
Qed.

(** X20: the webPreferences of the answer never turn node integration on;
    they carry the plugins option when it is a boolean and false
    otherwise; and they turn web security off exactly when the runtime was
    started with disable-web-security or the webSecurity option is the
    boolean false, and say nothing of it otherwise. *)
Theorem converted_webPreferences options w r :
  convertToElectron H options false = inr (w, AsObject r) →
  get r "webPreferences" =
    Obj ([("nodeIntegration", Bool false);
          ("plugins",
           if decide (typeof (get options "plugins") = TBoolean)
           then get options "plugins" else Bool false)] ++
         if disable_web_security H || is_false (get options "webSecurity")
         then [("webSecurity", Bool false)] else []).
Proof.
  intros (v & o & Hv & Ho & ->)%convertToElectron_object.
  destruct (electron_options_members options v w o Hv Ho) as (Hobj & _ & Hwp).
  assert (Hpl : get v "plugins" =
            if decide (typeof (get options "plugins") = TBoolean)
            then get options "plugins" else Bool false).
  { by apply (validateOptions_leaf options v "plugins" (Bool false)). }
  assert (Hws : is_false (get v "webSecurity") =
                is_false (get options "webSecurity")).
  { rewrite (validateOptions_leaf options v "webSecurity" (Bool true)) by done.
    destruct (decide (typeof (get options "webSecurity") = typeof (Bool true)))
      as [|Hne]; [done|].
    by destruct (get options "webSecurity") as [| |[]| | | |]. }
  assert (Hval : webPreferences H (placed H v) =
            Obj ([("nodeIntegration", Bool false);
                  ("plugins", get v "plugins")] ++
                 if disable_web_security H || is_false (get options "webSecurity")
                 then [("webSecurity", Bool false)] else [])).
  { unfold webPreferences.
    rewrite !(get_placed options) by auto. rewrite Hws.
    by destruct (_ || _). }
  rewrite (get_roundtrip o "webPreferences" _ Hobj Hwp).
  - rewrite Hval, Hpl.
    destruct (decide _) as [Hb|_].
    + destruct (get options "plugins"); try done. by destruct (_ || _).
    + by destruct (_ || _).
  - rewrite Hval. by destruct (_ || _).
Qed.

(** X21: convertToElectron answers only for options that are an object or an
    array: undefined and null fail where rawWindowOpen is read, a
    boolean, number or string where [in] looks for the preload. *)
Theorem convertToElectron_needs_object options returnAsString w r :
  convertToElectron H options returnAsString = inr (w, r) →
  (∃ ms, options = Obj ms) ∨ (∃ items, options = Arr items).
Proof.
  unfold convertToElectron, electron_options, validateOptions.
  destruct options as [| |b|x|s|items|ms]; cbn [nullish]; try done;
    try (rewrite validate_not_nullish by done; cbn [has_property]; done);
    eauto.
Qed.

Lemma get_copy_defined_ne key options o k :
  key ≠ k → get (copy_defined key options o) k = get o k.
Proof.
  intros Hne. unfold copy_defined.
  destruct (get options key); try done; by apply get_set_other.
Qed.

Lemma get_copy_defined_eq key options o :
  is_object o → get o key = Undefined →
  get (copy_defined key options o) key = get options key.
Proof.
  intros [ms ->] Hk. unfold copy_defined.
  destruct (get options key); try done; apply get_set_eq.
Qed.

Lemma get_placed_absent options v k :
  validateOptions H options = inr v →
  bool_decide (k ∈ ["message"; "customData"; "permissions";
                    "customRequestHeaders"]) = true →
  get (placed H v) k = Undefined.
Proof.
  intros Hv Hk%bool_decide_eq_true.
  pose proof (validateOptions_is_object options v Hv) as Hobj.
  assert (Hget : ∀ k', k' ≠ "rawWindowOpen" →
            assoc k' (members (defaults H)) = None → get v k' = Undefined).
  { intros k' Hne Hk'. rewrite (get_object v k' Hobj).
    by rewrite (validateOptions_absent options v k' Hv). }
  unfold placed, container_options.
  repeat (apply elem_of_cons in Hk as [->|Hk];
          [destruct (inContainer H); [destruct (truthy _)|];
           rewrite ?get_assign_ne by done; by apply Hget|]).
  by apply not_elem_of_nil in Hk.
Qed.

Ltac through_set :=
  repeat first
    [ rewrite get_copy_defined_ne by done
    | rewrite get_set_other by done ].

(** X22: message, customData, permissions and customRequestHeaders pass
    through convertToElectron as the options have them, of whatever type
    they are, and the plugin does when it is truthy and is an empty array
    otherwise. *)
Theorem converted_passes_through options w o :
  electron_options H options = inr (w, o) →
  get o "message" = get options "message" ∧
  get o "customData" = get options "customData" ∧
  get o "permissions" = get options "permissions" ∧
  get o "customRequestHeaders" = get options "customRequestHeaders" ∧
  get o "plugin" = (if truthy (get options "plugin") then get options "plugin"
                    else Arr []).
Proof.
  unfold electron_options.
  destruct (validateOptions H options) as [e|v] eqn:Hv; [done|].
  fold (placed H v).
  assert (Hp : is_object (placed H v)).
  { unfold placed. pose proof (validateOptions_is_object options v Hv).
    destruct (inContainer H); [by apply is_object_container_options|done]. }
  pose proof (get_placed_absent options v "message" Hv eq_refl) as Hm.
  pose proof (get_placed_absent options v "customData" Hv eq_refl) as Hc.
  pose proof (get_placed_absent options v "permissions" Hv eq_refl) as Hpe.
  pose proof (get_placed_absent options v "customRequestHeaders" Hv eq_refl)
    as Hh.
  destruct (has_property "preload" options) as [e|has]; [done|].
  intros Ho.
  assert (Hshape : ∃ o', is_object o' ∧
            (∀ k, k ≠ "preload" →
               get o' k =
               get (copy_defined "permissions" options
                     (copy_defined "customData" options
                       (copy_defined "message" options
                         (set "webPreferences"
                            (webPreferences H
                               (set "enable-plugins" (Bool true)
                                  (set "enableLargerThanScreen" (Bool true)
                                     (placed H v))))
                            (set "enable-plugins" (Bool true)
                               (set "enableLargerThanScreen" (Bool true)
                                  (placed H v))))))) k) ∧
            o = copy_defined "customRequestHeaders" options
                  (set "plugin" (if truthy (get options "plugin")
                                 then get options "plugin" else Arr []) o')).
  { revert Ho. destruct has.
    - destruct (normalizePreload (get options "preload")) as [e|[w' p]];
        [done|].
      intros [= <- <-]. eexists. split; [|split; [|reflexivity]].
      + repeat (apply is_object_copy_defined || apply is_object_set). done.
      + intros k Hk. by rewrite get_set_other.
    - intros [= <- <-]. eexists. split; [|split; [|reflexivity]].
      + repeat (apply is_object_copy_defined || apply is_object_set). done.
      + done. }
  destruct Hshape as (o' & Hobj & Hsame & ->). clear Ho.
  repeat split.
  - through_set. rewrite Hsame by done. through_set.
    apply get_copy_defined_eq; [by repeat apply is_object_set|].
    by through_set.
  - through_set. rewrite Hsame by done. through_set.
    apply get_copy_defined_eq.
    + repeat (apply is_object_copy_defined || apply is_object_set). done.
    + by through_set.
  - through_set. rewrite Hsame by done.
    apply get_copy_defined_eq.
    + repeat (apply is_object_copy_defined || apply is_object_set). done.
    + by through_set.
  - apply get_copy_defined_eq; [by apply is_object_set|].
    through_set. rewrite Hsame by done. by through_set.
  - through_set. destruct Hobj as [ms ->]. apply get_set_eq.
Qed.
End Converted.

Lemma every_has_url_true items :
  every_has_url items = inr true ↔
  Forall (λ p, typeof p = TObject ∧ typeof (get p "url") = TString) items.
Proof.
  induction items as [|p items IH]; [done|]. cbn [every_has_url].
  rewrite Forall_cons, <- IH. clear IH.
  destruct (decide (typeof p = TObject)) as [Hp|Hp].
  - destruct (decide (typeof (get p "url") = TString)) as [Hu|Hu].
    + destruct p; try done; by split; [|intros [_ ?]].
    + destruct p; try done; by split; [|intros [[_ ?] _]].
  - by split; [|intros [[? _] _]].
Qed.

Lemma url_not_empty_item p :
  typeof p = TObject → typeof (get p "url") = TString →
  url_not_empty p = true → preload_item p.
Proof.
  intros Hp Hu He. split; [done|]. unfold url_not_empty in He.
  destruct (get p "url") as [| | | |s| |]; try done.
  exists s. split; [done|]. intros ->. done.
Qed.

Lemma preload_item_kept p :
  preload_item p →
  typeof p = TObject ∧ typeof (get p "url") = TString ∧ url_not_empty p = true.
Proof.
  intros (Hp & s & Hs & Hne). unfold url_not_empty. rewrite Hs.
  repeat split; try done. cbn. by rewrite bool_decide_eq_false_2.
Qed.

Lemma normalizePreload_items preload w p :
  normalizePreload preload = inr (w, p) →
  ∃ items, p = Arr items ∧ Forall preload_item items ∧
           (w = true → items = []).
Proof.
  assert (Hbad : ∀ w p, (inr (true, Arr []) : Thrown + (bool * JS)) = inr (w, p) →
            ∃ items, p = Arr items ∧ Forall preload_item items ∧
                     (w = true → items = [])).
  { intros ? ? [= <- <-]. by exists []. }
  assert (Hstr : ∀ s w p,
            (inr (false, if decide (s = "") then Arr []
                         else Arr [Obj [("url", Str s)]])
               : Thrown + (bool * JS)) = inr (w, p) →
            ∃ items, p = Arr items ∧ Forall preload_item items ∧
                     (w = true → items = [])).
  { intros s ? ? [= <- <-]. destruct (decide (s = "")) as [->|Hs].
    - by exists [].
    - eexists. split; [done|]. split; [|done].
      constructor; [|done]. split; [done|]. by exists s. }
  unfold normalizePreload.
  destruct preload as [| |[]|x|s|items|ms]; try apply Hbad; try apply Hstr.
  destruct (every_has_url items) as [e|[]] eqn:Hall; [done| |apply Hbad].
  intros [= <- <-]. eexists. split; [done|]. split; [|done].
  apply every_has_url_true in Hall. apply Forall_forall.
  intros p [Hkeep Hin]%list_elem_of_filter.
  rewrite Forall_forall in Hall. destruct (Hall p Hin) as [Hp Hu].
  by apply url_not_empty_item.
Qed.

(** X23: whatever it is given, normalizePreload answers with an array of
    objects whose url is a string that is not empty, and with the empty
    array when it logs its warning. *)
Theorem normalizePreload_answers preload w p :
  normalizePreload preload = inr (w, p) →
  ∃ items, p = Arr items ∧ Forall preload_item items ∧
           (w = true → items = []).
Proof. apply normalizePreload_items. Qed.

(** X24: what normalizePreload answers with is in the modern form: given to
    normalizePreload again it comes back as it is, without a warning. *)
Theorem normalizePreload_idempotent preload w p :
  normalizePreload preload = inr (w, p) →
  normalizePreload p = inr (false, p).
Proof.
  intros (items & -> & Hitems & _)%normalizePreload_items.
  unfold normalizePreload.
  assert (Hall : every_has_url items = inr true).
  { apply every_has_url_true. eapply Forall_impl; [exact Hitems|].
    intros p Hp. apply preload_item_kept in Hp. tauto. }
  rewrite Hall. do 3 f_equal. clear Hall.
  induction Hitems as [|p items Hp _ IH]; [done|].
  rewrite filter_cons_True; [|by apply preload_item_kept in Hp as (_ & _ & ?)].
  by f_equal.
Qed.

Lemma every_has_url_app good rest :
  every_has_url good = inr true →
  every_has_url (good ++ rest) = every_has_url rest.
Proof.
  induction good as [|p good IH]; [done|]. cbn [app every_has_url].
  destruct (decide (typeof p = TObject)); [|done].
  destruct (decide (typeof (get p "url") = TString)).
  - destruct p; try done; apply IH.
  - destruct p; done.
Qed.

(** X25: a null among the items of the preload array makes normalizePreload
    throw where it reads the url, when the items before it are objects
    with a url that is a string; an item that is undefined, a number or a
    string there gives the warning and the empty array. *)
Theorem normalizePreload_null_item good rest bad :
  every_has_url good = inr true →
  typeof bad ≠ TObject →
  normalizePreload (Arr (good ++ Null :: rest)) =
    inl (Err "Cannot read property 'url' of null") ∧
  normalizePreload (Arr (good ++ bad :: rest)) = inr (true, Arr []).
Proof.
  intros Hgood Hbad. unfold normalizePreload.
  rewrite !every_has_url_app by done. cbn [every_has_url].
  by rewrite decide_True, decide_False.
Qed.
End ConvertOptionsFacts.

(** ** Fetching the manifest *)

Section FetchOptionsFacts.
Import ConvertOptions FetchOptions.

Lemma reports_app tr1 tr2 : reports (tr1 ++ tr2) = reports tr1 ++ reports tr2.
Proof. apply omap_app. Qed.

Lemma readings_app tr1 tr2 :
  readings (tr1 ++ tr2) = readings tr1 ++ readings tr2.
Proof. apply omap_app. Qed.

Lemma then_tell {A} e (m : Run A) : then_ (tell e) m = (e :: fst m, snd m).
Proof. reflexivity. Qed.

Lemma bind_ret {A B} (a : A) (k : A → Run B) : bind (ret a) k = k a.
Proof. unfold bind, ret. cbn [fst snd app]. by destruct (k a). Qed.

Lemma bind_lift {A B} (a : A) (k : A → Run B) : bind (lift (inr a)) k = k a.
Proof. apply bind_ret. Qed.

Lemma once_log line m : once m → once (then_ (tell (Log line)) m).
Proof. intros Hm. by rewrite then_tell. Qed.

Lemma once_bind {A} (m : Run A) k tr a :
  m = (tr, inr a) → reports tr = [] → once (k a) → once (bind m k).
Proof.
  intros -> Hq (r & Hr & Hret).
  exists r. unfold bind. cbn [fst snd]. by rewrite reports_app, Hq, Hr.
Qed.

Lemma try_parse_once (parsed : Thrown + JS) (done : JS → Run unit)
      (h : Thrown → Run unit) :
  (∀ c, once (done c)) → (∀ e, once (h e)) →
  once (try_catch (bind (lift parsed) done) h).
Proof.
  intros Hdone Hh. destruct parsed as [e|config].
  - destruct (Hh e) as (r & Hr & Hret). by exists r.
  - destruct (Hdone config) as (r & Hr & Hret).
    unfold try_catch, bind, lift. cbn [fst snd app].
    destruct (done config) as [tr o]. cbn [fst snd] in *. subst o.
    by exists r.
Qed.

Section Callbacks.
Variable W : World.
Variable onComplete : Callback (JS * JS).
Variable onError : Callback Thrown.

Lemma call_onError_once err :
  returns onError → once (call_onError onError err).
Proof.
  intros (f & -> & Hf). exists (Error err).
  unfold call_onError. by rewrite then_tell, Hf.
Qed.

Lemma call_onComplete_once configObject configUrl :
  returns onComplete → once (call_onComplete onComplete configObject configUrl).
Proof.
  intros (f & -> & Hf). exists (Complete configObject configUrl).
  unfold call_onComplete. by rewrite then_tell, Hf.
Qed.

Lemma readFile_once p done onErr :
  (∀ c, once (done c)) → (∀ e, once (onErr e)) →
  once (readFile W (Str p) done onErr).
Proof.
  intros Hdone Herr. unfold readFile. do 2 apply once_log.
  destruct (fs_readFile W (path_resolve W p)) as [err|data]; [apply Herr|].
  do 2 apply once_log.
  destruct (JSON_parse W data); [apply Herr|apply Hdone].
Qed.

Lemma getURL_once url done onErr :
  (∀ c, once (done c)) → (∀ e, once (onErr e)) →
  once (getURL W url done onErr).
Proof.
  intros Hdone Herr. unfold getURL. apply once_log.
  destruct (fetch W url) as [data|]; [|apply Herr].
  do 2 apply once_log. by apply try_parse_once.
Qed.

Lemma offline_access_result localConfigPath :
  ∃ tr b, offline_access W localConfigPath = (tr, inr b) ∧
          reports tr = [] ∧ readings tr = [] ∧
          (b = true → truthy localConfigPath = true).
Proof.
  unfold offline_access.
  destruct (truthy localConfigPath); [|by exists [], false].
  unfold try_catch, bind, lift, then_, bind, tell, ret. cbn [fst snd].
  destruct (fs_readFileSync W localConfigPath) as [e|text]; cbn [fst snd app];
    [by eexists _, _|].
  destruct (JSON_parse W text) as [e|localConfig]; cbn [fst snd app];
    [by eexists _, _|].
  destruct (read localConfig "offlineAccess"); cbn [fst snd app];
    by eexists _, _.
Qed.

Lemma fetchLocalConfig_once p :
  returns onComplete → returns onError →
  once (fetchLocalConfig W (Str p) (call_onComplete onComplete)
                         (call_onError onError)).
Proof.
  intros Hc He. unfold fetchLocalConfig. apply once_log.
  apply readFile_once.
  - intros c. by apply call_onComplete_once.
  - intros e. by apply call_onError_once.
Qed.

(** X26: fetchOptions reports once.  With callbacks that are functions and
    do not throw, and a local-startup-url that is a string when it is
    given, every run calls exactly one of onComplete and onError, exactly
    once, and returns: whether the manifest is fetched or read, found or
    not, well-formed or not, with or without the offline copy, and also
    when no startup url is given. *)
Theorem fetchOptions_reports_once argo :
  returns onComplete → returns onError →
  nullish argo = false →
  (truthy (get argo "local-startup-url") = true →
   typeof (get argo "local-startup-url") = TString) →
  once (fetchOptions W onComplete onError argo).
Proof.
  intros Hc He Hargo Hlocal. unfold fetchOptions, read. rewrite Hargo.
  eapply once_bind; [reflexivity|done|].
  destruct (offline_access_result (get argo "local-startup-url"))
    as (tr & offlineAccess & Hoff & Hq & _ & Htrue).
  eapply once_bind; [exact Hoff|exact Hq|].
  assert (Hfall : ∀ err,
            once (if offlineAccess
                  then fetchLocalConfig W (get argo "local-startup-url")
                         (call_onComplete onComplete) (call_onError onError)
                  else call_onError onError err)).
  { intros err. destruct offlineAccess; [|by apply call_onError_once].
    specialize (Hlocal (Htrue eq_refl)).
    destruct (get argo "local-startup-url"); try discriminate Hlocal.
    by apply fetchLocalConfig_once. }
  destruct (decide _).
  - pose proof He as (f & Heq & _). rewrite Heq. cbv iota beta.
    rewrite <- Heq. by apply call_onError_once.
  - destruct (regex_isURL W _).
    + apply getURL_once; [|done]. intros c. by apply call_onComplete_once.
    + apply readFile_once; [|done]. intros c. by apply call_onComplete_once.
Qed.
Lemma remove_quotes_nonempty url : remove_quotes url ≠ "" → url ≠ "".
Proof. by intros H ->. Qed.

Lemma get_not_nullish v key s : get v key = Str s → nullish v = false.
Proof. by destruct v. Qed.

Lemma truthy_Str s : s ≠ "" → truthy (Str s) = true.
Proof. intros Hs. cbn. by rewrite bool_decide_eq_false_2. Qed.

(** The run up to the choice of the source, for a startup url that is a
    string with more to it than double quotes. *)
Lemma fetchOptions_startup_url argo url :
  get argo "startup-url" = Str url → remove_quotes url ≠ "" →
  fetchOptions W onComplete onError argo =
    bind (offline_access W (get argo "local-startup-url")) (λ offlineAccess,
      let errorCallback (err : Thrown) : Run unit :=
        if offlineAccess
        then fetchLocalConfig W (get argo "local-startup-url")
               (call_onComplete onComplete) (call_onError onError)
        else call_onError onError err in
      let configUrl := remove_quotes url in
      if regex_isURL W configUrl then
        getURL W configUrl
          (λ configObject, call_onComplete onComplete configObject (Str configUrl))
          errorCallback
      else
        readFile W (Str (if regex_isURI W configUrl
                         then regex_uriToPath W configUrl else configUrl))
          (λ configObject, call_onComplete onComplete configObject (Str configUrl))
          errorCallback).
Proof.
  intros Hurl Hne. unfold fetchOptions, read.
  rewrite (get_not_nullish _ _ _ Hurl), Hurl.
  unfold bind at 1. cbn [lift fst snd app]. unfold js_or.
  rewrite (truthy_Str url (remove_quotes_nonempty url Hne)).
  destruct (offline_access W (get argo "local-startup-url")) as [tr [e|b]];
    unfold bind; cbn [fst snd]; [done|].
  by rewrite decide_False.
Qed.

Lemma offline_access_allowed local text localConfig :
  local ≠ "" →
  fs_readFileSync W (Str local) = inr text →
  JSON_parse W text = inr localConfig →
  truthy (get localConfig "offlineAccess") = true →
  offline_access W (Str local) = ret true.
Proof.
  intros Hl Hsync Htext Hoff. unfold offline_access.
  rewrite (truthy_Str local Hl), Hsync, bind_lift, Htext, bind_lift.
  assert (Hread : read localConfig "offlineAccess" =
                  inr (get localConfig "offlineAccess")).
  { unfold read. by destruct localConfig. }
  by rewrite Hread, bind_lift, Hoff.
Qed.

(** X27: the offline copy stands in for a manifest that cannot be fetched.
    When the local-startup-url names a file that reads and parses to a
    manifest with a truthy offlineAccess, and the startup url is a URL the
    fetcher fails on, fetchOptions reads the local file again and completes
    with the local manifest, reported under the local path and not under
    the startup url; onError is not called. *)
Theorem fetchOptions_falls_back argo url local text localConfig data config :
  returns onComplete →
  get argo "startup-url" = Str url → remove_quotes url ≠ "" →
  regex_isURL W (remove_quotes url) = true →
  fetch W (remove_quotes url) = None →
  get argo "local-startup-url" = Str local → local ≠ "" →
  fs_readFileSync W (Str local) = inr text →
  JSON_parse W text = inr localConfig →
  truthy (get localConfig "offlineAccess") = true →
  fs_readFile W (path_resolve W local) = inr data →
  JSON_parse W data = inr config →
  reports (fst (fetchOptions W onComplete onError argo)) =
    [Complete config (Str local)] ∧
  snd (fetchOptions W onComplete onError argo) = inr tt.
Proof.
  intros (f & Hf & Hret) Hurl Hne Hisurl Hfetch Hlocal Hl Hsync Htext Hoff
         Hasync Hdata.
  rewrite (fetchOptions_startup_url argo url Hurl Hne). cbv zeta.
  rewrite Hlocal, (offline_access_allowed local text localConfig) by done.
  rewrite bind_ret, Hisurl.
  unfold getURL. rewrite Hfetch.
  unfold fetchLocalConfig, readFile. rewrite Hasync, Hdata.
  unfold call_onComplete. rewrite Hf, !then_tell, Hret. done.
Qed.
(** X28: without a startup url nothing is fetched and nothing is read for
    the manifest, offline copy or not.  When neither startup-url nor config
    is a string with more to it than double quotes, fetchOptions calls
    onError with 'missing runtime argument --startup-url' when onError is a
    function and nobody otherwise, and asks neither the fetcher nor
    readFile. *)
Theorem fetchOptions_missing_url argo :
  nullish argo = false →
  (∀ s, js_or (get argo "startup-url") (get argo "config") = Str s →
        remove_quotes s = "") →
  let run := fetchOptions W onComplete onError argo in
  readings (fst run) = [] ∧
  reports (fst run) =
    match onError with
    | Some _ => [Error (Err "missing runtime argument --startup-url")]
    | None => []
    end ∧
  (onError = None → snd run = inr tt).
Proof.
  intros Hargo Hurl run. subst run. unfold fetchOptions, read.
  rewrite Hargo, bind_lift.
  destruct (offline_access_result (get argo "local-startup-url"))
    as (tr & offlineAccess & -> & Hq & Hr & _).
  assert (Hempty : remove_quotes
            match js_or (get argo "startup-url") (get argo "config") with
            | Str s => s
            | _ => ""
            end = "").
  { destruct (js_or _ _) eqn:Hor; try done. by apply Hurl. }
  unfold bind. cbn [fst snd]. rewrite Hempty, decide_True by done.
  rewrite readings_app, reports_app, Hq, Hr. cbn [app].
  unfold call_onError. destruct onError as [f|]; [|done].
  rewrite then_tell. cbn [fst]. by destruct (f _).
Qed.

End Callbacks.
End FetchOptionsFacts.


Lemma Demo_guid_inj : Inj (=) (=) Demo.guid.
Proof.
  intros n m H. unfold Demo.guid in H. cbn in H.
  injection H as H. by apply (inj pretty).
Qed.

Lemma publish_never_overwrites_witness :
  size (messageIdToCallback
          (fst (publish Scenario.env (VObj Demo.msg) None
                  (run_tasks Scenario.env Scenario.idle
                     [DoPublish (VObj Demo.msg) (Some (CbUser 7))])))) = 2.
Proof.
  assert (Hkeys : guid_keys Scenario.env Scenario.idle).
  { intros key [cb H]. vm_compute in H. discriminate. }
  assert (Hl : heap (run_tasks Scenario.env Scenario.idle
                       [DoPublish (VObj Demo.msg) (Some (CbUser 7))])
               !! Demo.msg = Some Scenario.get_rvm_info)
    by (vm_compute; reflexivity).
  destruct (publish_never_overwrites Scenario.env Scenario.idle
              [DoPublish (VObj Demo.msg) (Some (CbUser 7))]
              Demo.msg Scenario.get_rvm_info None Demo_guid_inj Hkeys Hl)
    as (_ & _ & Hsize & _).
  rewrite Hsize. vm_compute. reflexivity.
Defined.

Lemma publish_then_response_restores_table_witness :
  messageIdToCallback
    (fst (onMessage Scenario.env 0 "answer"
            (fst (publish Scenario.env (VObj Demo.msg) None Scenario.idle)))) =
    messageIdToCallback Scenario.idle.
Proof.
  assert (Hl : heap Scenario.idle !! Demo.msg = Some Scenario.get_rvm_info)
    by (vm_compute; reflexivity).
  assert (Hnone : messageIdToCallback Scenario.idle
                    !! app_generateGUID Scenario.env (guids Scenario.idle) =
                  None) by (vm_compute; reflexivity).
  destruct (publish_then_response_restores_table Scenario.env Scenario.idle
              Demo.msg Scenario.get_rvm_info None 0 "answer" Scenario.answer
              Hl Hnone eq_refl eq_refl (λ _, eq_refl)) as [_ H].
  exact H.
Defined.


Lemma only_numeric_timeToLive_arms_witness :
  timers Scenario.waiting = [] ∧
  messageIdToCallback Scenario.waiting !! "guid-1" = Some (CbUser 7).
Proof.
  assert (Hl : heap Scenario.idle !! Demo.msg = Some Scenario.get_rvm_info)
    by (vm_compute; reflexivity).
  assert (Httl : ∀ T, Scenario.get_rvm_info !! "timeToLive" ≠ Some (VNum T)).
  { intros T H. vm_compute in H. discriminate. }
  destruct (only_numeric_timeToLive_arms Scenario.env Scenario.idle Demo.msg
              Scenario.get_rvm_info (Some (CbUser 7)) Hl Httl) as [Ht Hcb].
  split; [exact Ht|exact Hcb].
Defined.

Lemma response_delivered_once_witness :
  messageIdToCallback
    (fst (onMessage Scenario.env 0 "answer" Scenario.waiting)) =
    delete "guid-1" (messageIdToCallback Scenario.waiting) ∧
  calls (trace (fst (onMessage Scenario.env 0 "answer"
                       (fst (onMessage Scenario.env 0 "answer"
                               Scenario.waiting))))) =
    calls (trace (fst (onMessage Scenario.env 0 "answer" Scenario.waiting))).
Proof.
  assert (Hcb : messageIdToCallback Scenario.waiting !! "guid-1" =
                Some (CbUser 7)) by (vm_compute; reflexivity).
  destruct (response_delivered_once Scenario.env Scenario.waiting 0 "answer"
              Scenario.answer (JStr "guid-1") "guid-1" (CbUser 7)
              eq_refl eq_refl eq_refl Hcb eq_refl (λ _, eq_refl))
    as (Htable & _ & _ & _ & Hcalls & _).
  split; [exact Htable|exact Hcalls].
Defined.

Lemma pending_until_addressed_witness :
  messageIdToCallback
    (run_tasks Scenario.env Scenario.waiting
       [Elapse 60000; Receive 0 "{"; DoPublish (VObj Demo.msg) None;
        Elapse 60000]) !! "guid-1" = Some (CbUser 7).
Proof.
  assert (Hkeys : guid_keys Scenario.env Scenario.waiting).
  { apply (run_tasks_guid_keys Scenario.env Scenario.idle
             [DoPublish (VObj Demo.msg) (Some (CbUser 7))]).
    intros key [cb H]. vm_compute in H. discriminate. }
  assert (Hcb : messageIdToCallback Scenario.waiting !! "guid-1" =
                Some (CbUser 7)) by (vm_compute; reflexivity).
  exact (pending_until_addressed Scenario.env Scenario.waiting
           [Elapse 60000; Receive 0 "{"; DoPublish (VObj Demo.msg) None;
            Elapse 60000] "guid-1" (CbUser 7) Demo_guid_inj Hkeys eq_refl Hcb).
Defined.

Lemma onMessage_contained_witness :
  ∃ s', onMessage (Demo.env true) 0 "{" Demo.requesting = (s', Return tt) ∧
        messageIdToCallback s' = messageIdToCallback Demo.requesting.
Proof.
  assert (Hsafe : ∀ f arg error,
            user_function (Demo.env true) f arg ≠ Some (NoMessage error))
    by (intros f arg error H; discriminate H).
  destruct (onMessage_contained (Demo.env true) Demo.requesting 0 "{" Hsafe)
    as (s' & Hrun & _ & Hsame).
  exists s'. split; [exact Hrun|]. apply Hsame.
  intros k Hk. vm_compute in Hk. discriminate Hk.
Defined.


(** ** The window theorems at work *)

Section ConvertOptionsAtWork.
Import ConvertOptions.

Lemma validate_keeps_shape_witness :
  (∃ e, validate (Obj Window.base) Null = inl e) ∧
  ∃ r, validate (Obj Window.base) Window.tall = inr r ∧
       typeof (get r "frame") = TBoolean ∧
       get r "frame" = Bool true.
Proof.
  assert (Hal : array_like (Obj Window.base) = None) by (vm_compute; reflexivity).
  assert (Hnames : own_names (Obj Window.base) = true)
    by (vm_compute; reflexivity).
  assert (Hms : Window.base ≠ []) by discriminate.
  destruct (validate_keeps_shape Window.base Null Hal Hnames) as [Hthrows _].
  destruct (validate_keeps_shape Window.base Window.tall Hal Hnames)
    as [_ Hanswers].
  split; [exact (Hthrows eq_refl Hms)|].
  destruct (Hanswers eq_refl) as (r & Hr & _ & Hty & Hval).
  exists r. split; [exact Hr|].
  split; [exact (Hty "frame" (Bool true) eq_refl)|].
  exact (Hval "frame" (Bool true) eq_refl).
Defined.

Lemma validate_empty_is_base_witness :
  validate (Obj Window.base) (Obj []) = inr (Obj Window.base).
Proof.
  assert (Hrec : record (Obj Window.base) = true) by (vm_compute; reflexivity).
  assert (Hown : own_names (Obj Window.base) = true)
    by (vm_compute; reflexivity).
  exact (validate_empty_is_base (Obj Window.base) Hrec Hown).
Defined.

Lemma validate_idempotent_witness :
  ∃ r, validate (Obj Window.base) Window.tall = inr r ∧
       validate (Obj Window.base) r = inr r.
Proof.
  assert (Hrec : record (Obj Window.base) = true) by (vm_compute; reflexivity).
  assert (Hown : own_names (Obj Window.base) = true)
    by (vm_compute; reflexivity).
  exact (validate_idempotent (Obj Window.base) Window.tall Hrec Hown eq_refl).
Defined.

Lemma validateOptions_types_witness :
  typeof (get (Window.validated Window.chart) "plugins") = TBoolean.
Proof.
  assert (Hv : validateOptions Window.host Window.chart =
               inr (Window.validated Window.chart)) by (vm_compute; reflexivity).
  assert (Hk : "plugins" ≠ "rawWindowOpen") by discriminate.
  exact (validateOptions_types Window.host Window.chart _ Hv "plugins" Hk).
Defined.

Lemma validateOptions_defaults_witness :
  validateOptions Window.host (Obj []) = inr Window.defaults.
Proof.
  assert (Hc : typeof (num 9) ≠ TObject) by discriminate.
  assert (Hz : typeof (num 7) ≠ TObject) by discriminate.
  exact (validateOptions_defaults Window.host Hc Hz).
Defined.

Lemma validateOptions_idempotent_witness :
  validateOptions Window.host (Window.validated Window.chart) =
    inr (Window.validated Window.chart).
Proof.
  assert (Hc : typeof (num 9) ≠ TObject) by discriminate.
  assert (Hz : typeof (num 7) ≠ TObject) by discriminate.
  assert (Hraw : typeof (get Window.chart "rawWindowOpen") ≠ TObject)
    by discriminate.
  assert (Hv : validateOptions Window.host Window.chart =
               inr (Window.validated Window.chart)) by (vm_compute; reflexivity).
  exact (validateOptions_idempotent Window.host Window.chart _ Hc Hz Hraw Hv).
Defined.

Lemma converted_size_within_witness :
  less (get (Window.newOptions Window.tall) "height") (num 200) = false ∧
  less (num 600) (get (Window.newOptions Window.tall) "height") = false ∧
  less (get (Window.newOptions Window.tall) "width") (num 300) = false ∧
  get (Window.converted Window.tall) "height" =
    roundtrip (get (Window.newOptions Window.tall) "height").
Proof.
  assert (Hv : validateOptions Window.host Window.tall =
               inr (Window.validated Window.tall)) by (vm_compute; reflexivity).
  assert (Ho : electron_options Window.host Window.tall =
               inr (false, Window.newOptions Window.tall))
    by (vm_compute; reflexivity).
  assert (Hr : convertToElectron Window.host Window.tall false =
               inr (false, AsObject (Window.converted Window.tall)))
    by (vm_compute; reflexivity).
  assert (Hh : is_not_minus_one (get (Window.validated Window.tall) "maxHeight")
                 = true →
               less (get (Window.validated Window.tall) "maxHeight")
                    (get (Window.validated Window.tall) "minHeight") = false)
    by (intros _; vm_compute; reflexivity).
  assert (Hw : is_not_minus_one (get (Window.validated Window.tall) "maxWidth")
                 = true →
               less (get (Window.validated Window.tall) "maxWidth")
                    (get (Window.validated Window.tall) "minWidth") = false)
    by (vm_compute; discriminate).
  destruct (converted_size_within Window.host Window.tall false
              (Window.newOptions Window.tall) (Window.validated Window.tall)
              eq_refl Hv Ho Hh Hw)
    as ((_ & Hmin & Hmax) & (_ & Hwmin & _) & Hjson).
  split; [exact Hmin|]. split; [apply Hmax; vm_compute; reflexivity|].
  split; [exact Hwmin|]. exact (proj1 (Hjson _ Hr)).
Defined.

Lemma converted_height_minimum_wins_witness :
  get (Window.converted Window.chart) "height" = num 200 ∧
  less (get (Window.validated Window.chart) "maxHeight")
       (get (Window.converted Window.chart) "height") = true.
Proof.
  assert (Hv : validateOptions Window.host Window.chart =
               inr (Window.validated Window.chart)) by (vm_compute; reflexivity).
  assert (Hr : convertToElectron Window.host Window.chart false =
               inr (false, AsObject (Window.converted Window.chart)))
    by (vm_compute; reflexivity).
  assert (Hlow : less (get (Window.validated Window.chart) "defaultHeight")
                      (get (Window.validated Window.chart) "minHeight") = true)
    by (vm_compute; reflexivity).
  rewrite (converted_height_minimum_wins Window.host Window.chart false
             (Window.converted Window.chart) (Window.validated Window.chart)
             eq_refl Hv Hr Hlow).
  split; vm_compute; reflexivity.
Defined.

Lemma converted_position_witness :
  get (Window.converted Window.chart) "x" = Undefined ∧
  get (Window.converted Window.tall) "x" = num 10.
Proof.
  assert (Hv : validateOptions Window.host Window.chart =
               inr (Window.validated Window.chart)) by (vm_compute; reflexivity).
  assert (Hr : convertToElectron Window.host Window.chart false =
               inr (false, AsObject (Window.converted Window.chart)))
    by (vm_compute; reflexivity).
  assert (Hv' : validateOptions Window.host Window.tall =
                inr (Window.validated Window.tall)) by (vm_compute; reflexivity).
  assert (Hr' : convertToElectron Window.host Window.tall false =
                inr (false, AsObject (Window.converted Window.tall)))
    by (vm_compute; reflexivity).
  destruct (converted_position Window.host Window.chart false
              (Window.converted Window.chart) (Window.validated Window.chart)
              eq_refl Hv Hr) as [_ Hc].
  destruct (converted_position Window.host Window.tall false
              (Window.converted Window.tall) (Window.validated Window.tall)
              eq_refl Hv' Hr') as [_ Ht].
  split; [exact (proj1 Hc)|exact (proj1 Ht)].
Defined.

Lemma converted_webPreferences_witness :
  get (Window.converted Window.chart) "webPreferences" =
    Obj [("nodeIntegration", Bool false); ("plugins", Bool false);
         ("webSecurity", Bool false)].
Proof.
  assert (Hr : convertToElectron Window.host Window.chart false =
               inr (false, AsObject (Window.converted Window.chart)))
    by (vm_compute; reflexivity).
  exact (converted_webPreferences Window.host Window.chart false
           (Window.converted Window.chart) Hr).
Defined.

Lemma convertToElectron_needs_object_witness :
  (∃ ms, Window.chart = Obj ms) ∨ (∃ items, Window.chart = Arr items).
Proof.
  assert (Hr : convertToElectron Window.host Window.chart true =
               inr (false, AsString "{}")) by (vm_compute; reflexivity).
  exact (convertToElectron_needs_object Window.host Window.chart true false
           (AsString "{}") Hr).
Defined.

Lemma converted_passes_through_witness :
  get (Window.newOptions Window.chart) "message" = Str "hi" ∧
  get (Window.newOptions Window.chart) "plugin" = Arr [].
Proof.
  assert (Ho : electron_options Window.host Window.chart =
               inr (false, Window.newOptions Window.chart))
    by (vm_compute; reflexivity).
  destruct (converted_passes_through Window.host Window.chart false
              (Window.newOptions Window.chart) Ho) as (Hm & _ & _ & _ & Hp).
  split; [exact Hm|exact Hp].
Defined.

Lemma normalizePreload_answers_witness :
  ∃ items, Arr [Obj [("url", Str "a.js")];
                Obj [("url", Str "b.js"); ("optional", Bool true)]] = Arr items ∧
           Forall preload_item items ∧ (false = true → items = []).
Proof.
  assert (Hn : normalizePreload Window.scripts =
               inr (false, Arr [Obj [("url", Str "a.js")];
                                Obj [("url", Str "b.js");
                                     ("optional", Bool true)]]))
    by (vm_compute; reflexivity).
  exact (normalizePreload_answers Window.scripts false _ Hn).
Defined.

Lemma normalizePreload_idempotent_witness :
  normalizePreload (Arr [Obj [("url", Str "a.js")];
                         Obj [("url", Str "b.js"); ("optional", Bool true)]]) =
    inr (false, Arr [Obj [("url", Str "a.js")];
                     Obj [("url", Str "b.js"); ("optional", Bool true)]]).
Proof.
  assert (Hn : normalizePreload Window.scripts =
               inr (false, Arr [Obj [("url", Str "a.js")];
                                Obj [("url", Str "b.js");
                                     ("optional", Bool true)]]))
    by (vm_compute; reflexivity).
  exact (normalizePreload_idempotent Window.scripts false _ Hn).
Defined.

Lemma normalizePreload_null_item_witness :
  normalizePreload (Arr [Obj [("url", Str "a.js")]; Null]) =
    inl (Err "Cannot read property 'url' of null") ∧
  normalizePreload (Arr [Obj [("url", Str "a.js")]; Undefined]) =
    inr (true, Arr []).
Proof.
  assert (Hgood : every_has_url [Obj [("url", Str "a.js")]] = inr true)
    by (vm_compute; reflexivity).
  assert (Hbad : typeof Undefined ≠ TObject) by discriminate.
  exact (normalizePreload_null_item [Obj [("url", Str "a.js")]] [] Undefined
           Hgood Hbad).
Defined.
End ConvertOptionsAtWork.


Section FetchOptionsAtWork.
Import ConvertOptions FetchOptions.

Lemma listens_returns {A} : returns (@Startup.listens A).
Proof. by eexists. Qed.

Lemma fetchOptions_reports_once_witness :
  once (fetchOptions Startup.world Startup.listens Startup.listens
          Startup.down).
Proof.
  assert (Hlocal : truthy (get Startup.down "local-startup-url") = true →
                   typeof (get Startup.down "local-startup-url") = TString)
    by (intros _; vm_compute; reflexivity).
  exact (fetchOptions_reports_once Startup.world Startup.listens
           Startup.listens Startup.down listens_returns listens_returns
           eq_refl Hlocal).
Defined.

Lemma fetchOptions_falls_back_witness :
  reports (fst (fetchOptions Startup.world Startup.listens Startup.listens
                  Startup.down)) =
    [Complete Startup.manifest (Str "app.json")].
Proof.
  assert (Hne : remove_quotes "https://example.com/down.json" ≠ "")
    by (vm_compute; discriminate).
  assert (Hl : "app.json" ≠ "") by discriminate.
  assert (Hurl : regex_isURL Startup.world
                   (remove_quotes "https://example.com/down.json") = true)
    by (vm_compute; reflexivity).
  assert (Hfetch : fetch Startup.world
                     (remove_quotes "https://example.com/down.json") = None)
    by (vm_compute; reflexivity).
  assert (Hsync : fs_readFileSync Startup.world (Str "app.json") =
                  inr "manifest") by (vm_compute; reflexivity).
  assert (Hparse : JSON_parse Startup.world "manifest" = inr Startup.manifest)
    by (vm_compute; reflexivity).
  assert (Hoff : truthy (get Startup.manifest "offlineAccess") = true)
    by (vm_compute; reflexivity).
  assert (Hasync : fs_readFile Startup.world
                     (path_resolve Startup.world "app.json") = inr "manifest")
    by (vm_compute; reflexivity).
  exact (proj1 (fetchOptions_falls_back Startup.world Startup.listens
                  Startup.listens Startup.down
                  "https://example.com/down.json" "app.json" "manifest"
                  Startup.manifest "manifest" Startup.manifest
                  listens_returns eq_refl Hne Hurl Hfetch eq_refl Hl Hsync
                  Hparse Hoff Hasync Hparse)).
Defined.

Lemma fetchOptions_missing_url_witness :
  reports (fst (fetchOptions Startup.world Startup.listens Startup.listens
                  Startup.unnamed)) =
    [Error (Err "missing runtime argument --startup-url")].
Proof.
  assert (Hurl : ∀ s, js_or (get Startup.unnamed "startup-url")
                            (get Startup.unnamed "config") = Str s →
                      remove_quotes s = "")
    by (intros s Hs; vm_compute in Hs; discriminate).
  destruct (fetchOptions_missing_url Startup.world Startup.listens
              Startup.listens Startup.unnamed eq_refl Hurl) as (_ & Hr & _).
  exact Hr.
Defined.

End FetchOptionsAtWork.
